(** * Bambu Lab n8n node: filament reconciliation, command correlation, retry

    A shallow embedding of the helper modules of the node
    (FilamentMatcher.ts, FilamentProfileParser.ts, RetryHelper.ts,
    ErrorHelper.ts, PathValidator.ts, commands.ts, MqttHelper.ts,
    constants.ts) together with the properties the specification states
    about them and further properties read off the code.

    Conventions of the embedding
    - A JavaScript string is a [string]: a sequence of 8-bit code units.  The
      embedding is exact on 7-bit text, which is what hex colours, slot lists,
      G-code header comments and error messages consist of; code units above
      127 are treated as caseless and as non-whitespace.
    - A JavaScript number that holds an integer is a [Z]; where the source can
      produce NaN the type is [JsNum].  The embedding is exact below 2^53.
    - A function that may throw returns [Error + A] ([inl] is the thrown
      [Error]'s message, [inr] the returned value). *)

From Stdlib Require Import ZArith NArith Lia Bool List Ascii String.
From Stdlib Require Import Numbers.DecimalString.
From Stdlib Require DecimalPos DecimalZ FinFun.
Import ListNotations.

Local Open Scope list_scope.
Local Open Scope Z_scope.
Local Open Scope string_scope.

(* ===================================================================== *)
(** * Definitions *)
(* ===================================================================== *)

(** ** JavaScript primitives used by the helpers *)

Module Js.

(** [new Error(message)]: only the message is observed by the code. *)
Definition Error := string.

(** Result of a call that may throw. *)
Definition result (A : Type) : Type := (Error + A)%type.

Definition ret {A} (a : A) : result A := inr a.
Definition throw {A} (e : Error) : result A := inl e.
Definition bind {A B} (m : result A) (k : A -> result B) : result B :=
  match m with
  | inl e => inl e
  | inr a => k a
  end.

(** Numbers that may be NaN ([parseInt], and arithmetic on its result). *)
Inductive JsNum : Type :=
| Num (z : Z)
| NaN.

(** [a + 1] and the like on numbers: NaN is absorbing. *)
Definition add (a b : JsNum) : JsNum :=
  match a, b with
  | Num x, Num y => Num (x + y)
  | _, _ => NaN
  end.



(** [String(n)] for an integer. *)
Definition showZ (z : Z) : string := NilZero.string_of_int (Z.to_int z).

(** Template-literal interpolation of a number. *)
Definition show (a : JsNum) : string :=
  match a with
  | Num z => showZ z
  | NaN => "NaN"
  end.

(** Characters. *)
Definition code (c : ascii) : N := N_of_ascii c.

(** White space of [String.prototype.trim] and of the regex class [\s],
    restricted to 7-bit code units: TAB, LF, VT, FF, CR, SPACE. *)
Definition isWhiteSpace (c : ascii) : bool :=
  let n := code c in
  ((9 <=? n) && (n <=? 13) || (n =? 32))%N.

Definition isDigit (c : ascii) : bool :=
  let n := code c in ((48 <=? n) && (n <=? 57))%N.

Definition isLower (c : ascii) : bool :=
  let n := code c in ((97 <=? n) && (n <=? 122))%N.

Definition toUpperChar (c : ascii) : ascii :=
  if isLower c then ascii_of_N (code c - 32) else c.

(** [forallS p s]: every code unit of [s] satisfies [p]. *)
Fixpoint forallS (p : ascii -> bool) (s : string) : bool :=
  match s with
  | EmptyString => true
  | String c r => p c && forallS p r
  end.

(** [s.toUpperCase()] *)
Fixpoint toUpperCase (s : string) : string :=
  match s with
  | EmptyString => EmptyString
  | String c r => String (toUpperChar c) (toUpperCase r)
  end.

(** [s.trimStart()] *)
Fixpoint trimStart (s : string) : string :=
  match s with
  | EmptyString => EmptyString
  | String c r => if isWhiteSpace c then trimStart r else s
  end.

(** [s.trimEnd()] *)
Fixpoint trimEnd (s : string) : string :=
  match s with
  | EmptyString => EmptyString
  | String c r =>
      match trimEnd r with
      | EmptyString => if isWhiteSpace c then EmptyString else String c EmptyString
      | r' => String c r'
      end
  end.

(** [s.trim()] *)
Definition trim (s : string) : string := trimEnd (trimStart s).

(** [s.startsWith(p)] *)
Definition startsWith (s p : string) : bool := String.prefix p s.

(** [s.substring(n)] *)
Fixpoint substringFrom (n : nat) (s : string) : string :=
  match n, s with
  | O, _ => s
  | S n', String _ r => substringFrom n' r
  | S _, EmptyString => EmptyString
  end.

(** [s.substring(0, n)] *)
Fixpoint substringTo (n : nat) (s : string) : string :=
  match n, s with
  | S n', String c r => String c (substringTo n' r)
  | _, _ => EmptyString
  end.

(** [s.replace(/^#/, '')] *)
Definition removeLeadingHash (s : string) : string :=
  match s with
  | String "#" r => r
  | _ => s
  end.

(** [s.replace(/\s+/g, '')] *)
Fixpoint removeWhiteSpace (s : string) : string :=
  match s with
  | EmptyString => EmptyString
  | String c r =>
      if isWhiteSpace c then removeWhiteSpace r else String c (removeWhiteSpace r)
  end.

(** [s.replace(/^"|"$/g, '')]: one leading and one trailing double quote.
    The two alternatives never match the same character. *)
Definition dquote : ascii := ascii_of_N 34.

Fixpoint removeTrailingQuote (s : string) : string :=
  match s with
  | EmptyString => EmptyString
  | String c EmptyString => if Ascii.eqb c dquote then EmptyString else s
  | String c r => String c (removeTrailingQuote r)
  end.

Definition removeOuterQuotes (s : string) : string :=
  match s with
  | EmptyString => EmptyString
  | String c r =>
      if Ascii.eqb c dquote then removeTrailingQuote r
      else removeTrailingQuote s
  end.

(** [s.split(sep)] for a one-character separator: never the empty list. *)
Fixpoint split (sep : ascii) (s : string) : list string :=
  match s with
  | EmptyString => [EmptyString]
  | String c r =>
      if Ascii.eqb c sep then EmptyString :: split sep r
      else
        match split sep r with
        | h :: t => String c h :: t
        | [] => [String c EmptyString]
        end
  end.

(** [parts.join(sep)] *)
Definition join (sep : string) (parts : list string) : string :=
  String.concat sep parts.

(** [s.includes(p)] *)
Fixpoint includes (s p : string) : bool :=
  String.prefix p s ||
  match s with
  | EmptyString => false
  | String _ r => includes r p
  end.

(** [/p/i.test(s)] for a pattern [p] without metacharacters. *)
Definition testIgnoreCase (p s : string) : bool :=
  includes (toUpperCase s) (toUpperCase p).

(** [a || b] on a possibly undefined string: the empty string is falsy. *)
Definition orElse (a : option string) (b : string) : string :=
  match a with
  | Some (String c r) => String c r
  | _ => b
  end.

(** Value of a run of decimal digits, most significant first. *)
Fixpoint digitsValue (acc : Z) (s : string) : Z :=
  match s with
  | String c r =>
      if isDigit c then digitsValue (10 * acc + Z.of_N (code c - 48)) r else acc
  | EmptyString => acc
  end.

Definition startsWithDigit (s : string) : bool :=
  match s with
  | String c _ => isDigit c
  | EmptyString => false
  end.

(** [parseInt(s, 10)]: leading white space is skipped, then an optional
    sign, then the longest run of decimal digits; whatever follows the
    digits is ignored.  NaN when there is no digit. *)
Definition parseInt (s : string) : JsNum :=
  let t := trimStart s in
  let '(neg, body) :=
    match t with
    | String "-" r => (true, r)
    | String "+" r => (false, r)
    | _ => (false, t)
    end in
  if startsWithDigit body
  then Num (if neg then - digitsValue 0 body else digitsValue 0 body)
  else NaN.

End Js.

(** ** helpers/types.ts *)

Record FilamentProfile : Type := {
  index : Z;            (* profile position in the .3mf *)
  type : string;        (* "PLA", "PETG", ... *)
  colour : string;      (* hex colour "#515151" *)
  name : string;        (* profile name from the slicer *)
  slotNumber : Z;       (* AMS slot, 1-indexed, from the gcode *)
  trayId : Z            (* AMS tray, 0-indexed *)
}.

Record ParsedFilamentData : Type := {
  profiles : list FilamentProfile;
  detectedMapping : list Z;
  totalEmbedded : nat
}.

(** The literal type ['exact']. *)
Inductive MatchQuality : Type := exact.

(** [MatchedFilamentProfile extends FilamentProfile]: the profile's own
    fields, copied by the object spread, and the five fields of the match. *)
Record MatchedFilamentProfile : Type := {
  m_index : Z;
  m_type : string;
  m_colour : string;
  m_name : string;
  m_slotNumber : Z;
  m_trayId : Z;
  matchedSlot : Js.JsNum;
  matchedTrayId : Js.JsNum;
  matchQuality : MatchQuality;
  currentColor : string;
  currentType : string
}.

Record FilamentMatchResult : Type := {
  mapping : list Js.JsNum;
  matches : list MatchedFilamentProfile;
  amsDetected : bool;
  totalSlots : nat
}.

(** The fields of a tray that the matcher reads; each may be absent. *)
Record AMSTray : Type := {
  id : option string;
  tray_type : option string;
  tray_color : option string
}.

(** One AMS unit of [print.ams.ams[]]. *)
Record AMSUnit : Type := {
  tray : option (list AMSTray)
}.

(** [print.ams] *)
Record AMSData : Type := {
  ams : option (list AMSUnit)
}.

(** [print] of a status message, as far as the matcher reads it. *)
Record PrintStatus : Type := {
  print_ams : option AMSData
}.

Record PrinterStatus : Type := {
  print : option PrintStatus
}.

(** ** helpers/FilamentMatcher.ts *)

Module FilamentMatcher.
Import Js.

Definition normalizeColor (color : string) : string :=
  let normalized :=
    removeWhiteSpace (removeLeadingHash (toUpperCase (trim color))) in
  if (8 <=? String.length normalized)%nat
  then substringTo 6 normalized
  else normalized.

Definition normalizeType (type : string) : string :=
  toUpperCase (trim type).

(** [{ ...profile, matchedSlot, matchedTrayId, matchQuality, currentColor,
    currentType }] *)
Definition spread (p : FilamentProfile) (slot tid : JsNum)
    (col ty : string) : MatchedFilamentProfile :=
  {| m_index := index p; m_type := type p; m_colour := colour p;
     m_name := name p; m_slotNumber := slotNumber p; m_trayId := trayId p;
     matchedSlot := slot; matchedTrayId := tid; matchQuality := exact;
     currentColor := col; currentType := ty |}.

(** The profile a match entry was built from. *)
Definition profileOf (m : MatchedFilamentProfile) : FilamentProfile :=
  {| index := m_index m; type := m_type m; colour := m_colour m;
     name := m_name m; slotNumber := m_slotNumber m; trayId := m_trayId m |}.

(** The test of the loop body of [findExactMatch]. *)
Definition trayMatches (profile : FilamentProfile) (t : AMSTray) : bool :=
  let normalizedProfileColor := normalizeColor (colour profile) in
  let normalizedProfileType := normalizeType (type profile) in
  let trayColor := normalizeColor (orElse (tray_color t) "") in
  let trayType := normalizeType (orElse (tray_type t) "") in
  String.eqb trayType normalizedProfileType
  && String.eqb trayColor normalizedProfileColor.

(** [parseInt(tray.id || '0', 10)] *)
Definition trayNumber (t : AMSTray) : JsNum := parseInt (orElse (id t) "0").

Fixpoint findExactMatch (profile : FilamentProfile) (trays : list AMSTray)
    : option MatchedFilamentProfile :=
  match trays with
  | [] => None
  | t :: rest =>
      if trayMatches profile t then
        let trayId := trayNumber t in
        Some (spread profile (add trayId (Num 1)) trayId
                (orElse (tray_color t) "") (orElse (tray_type t) ""))
      else findExactMatch profile rest
  end.

Definition formatTray (t : AMSTray) : string :=
  let slot := add (trayNumber t) (Num 1) in
  let type := orElse (tray_type t) "Unknown" in
  let color := orElse (tray_color t) "Unknown" in
  "Slot " ++ show slot ++ ": " ++ type ++ " (" ++ color ++ ")".

Definition formatAvailableFilaments (trays : list AMSTray) : string :=
  match trays with
  | [] => "No filaments loaded"
  | _ => join ", " (map formatTray trays)
  end.

Definition filamentNotFound (profile : FilamentProfile)
    (available : string) : Error :=
  "Filament not found in AMS: Need " ++ type profile
    ++ " (" ++ colour profile ++ ") "
    ++ "for profile " ++ showZ (index profile)
    ++ ". Available: " ++ available.

(** The result of both single-spool branches. *)
Definition externalSpool (profiles : list FilamentProfile)
    : FilamentMatchResult :=
  {| mapping := map (fun _ => Num 0) profiles;
     matches := map (fun p => spread p (Num 1) (Num 0) (colour p) (type p))
                    profiles;
     amsDetected := false;
     totalSlots := 1 |}.

(** [amsData.ams.flatMap((unit) => unit.tray || [])] *)
Definition flattenTrays (units : list AMSUnit) : list AMSTray :=
  flat_map (fun unit => match tray unit with Some ts => ts | None => [] end)
           units.

(** The [for (const profile of profiles)] loop: the two arrays it fills
    are returned together, a throw discards them. *)
Fixpoint matchLoop (allTrays : list AMSTray) (profiles : list FilamentProfile)
    : result (list JsNum * list MatchedFilamentProfile) :=
  match profiles with
  | [] => ret ([], [])
  | profile :: rest =>
      match findExactMatch profile allTrays with
      | None =>
          throw (filamentNotFound profile (formatAvailableFilaments allTrays))
      | Some m =>
          bind (matchLoop allTrays rest) (fun '(mapping, matches) =>
          ret (matchedTrayId m :: mapping, m :: matches))
      end
  end.

(** [(currentStatus as any).print?.ams] *)
Definition amsDataOf (currentStatus : PrinterStatus) : option AMSData :=
  match print currentStatus with
  | Some p => print_ams p
  | None => None
  end.

Definition matchProfilesToAMS (profiles : list FilamentProfile)
    (currentStatus : PrinterStatus) : result FilamentMatchResult :=
  match amsDataOf currentStatus with
  | None => ret (externalSpool profiles)
  | Some amsData =>
      match ams amsData with
      | None | Some [] => ret (externalSpool profiles)
      | Some units =>
          let allTrays := flattenTrays units in
          match allTrays with
          | [] => ret (externalSpool profiles)
          | _ =>
              bind (matchLoop allTrays profiles) (fun '(mapping, matches) =>
              ret {| mapping := mapping; matches := matches;
                     amsDetected := true;
                     totalSlots := List.length allTrays |})
          end
      end
  end.

End FilamentMatcher.

(** ** helpers/FilamentProfileParser.ts *)

Module FilamentProfileParser.
Import Js.

Definition newline : ascii := ascii_of_N 10.
Definition quote : string := String dquote EmptyString.

(** The messages of the errors the parser throws. *)
Definition invalidSlotNumber (s : string) : Error :=
  "Invalid AMS slot number: " ++ quote ++ s ++ quote
    ++ ". Must be 1-4 for A1 series.".

Definition noValidSlotNumbers : Error :=
  "No valid slot numbers found in " ++ quote ++ "; filament:" ++ quote
    ++ " line.".

Definition slotLineNotFound : Error :=
  "Failed to parse gcode: " ++ quote ++ "; filament:" ++ quote
    ++ " line not found in header. "
    ++ "This may not be a valid Bambu Studio sliced file.".

Definition typeLineNotFound : Error :=
  "Failed to parse gcode: " ++ quote ++ "; filament_type =" ++ quote
    ++ " line not found in header.".

Definition invalidProfileIndex (profileIndex slotNumber : Z) (embedded : nat)
    : Error :=
  "Invalid profile index " ++ showZ profileIndex ++ " for slot "
    ++ showZ slotNumber ++ ". Only " ++ showZ (Z.of_nat embedded)
    ++ " profiles embedded in file.".

(** The callback of the last [map] of [parseSlotUsage]. *)
Definition parseSlot (s : string) : result Z :=
  match parseInt s with
  | NaN => throw (invalidSlotNumber s)
  | Num num =>
      if ((num <? 1) || (num >? 4))%Z then throw (invalidSlotNumber s)
      else ret num
  end.

(** [Array.prototype.map] with a callback that may throw: the first
    throw, in element order, ends the call. *)
Fixpoint mapThrowing {A B} (f : A -> result B) (l : list A) : result (list B) :=
  match l with
  | [] => ret []
  | a :: rest =>
      bind (f a) (fun b =>
      bind (mapThrowing f rest) (fun bs => ret (b :: bs)))
  end.

Definition parseSlotUsage (value : string) : result (list Z) :=
  let entries :=
    filter (fun s => negb (String.eqb s ""))
           (map trim (split "," value)) in
  bind (mapThrowing parseSlot entries) (fun slots =>
  match slots with
  | [] => throw noValidSlotNumbers
  | _ => ret slots
  end).

(** The four variables the header loop assigns. *)
Record HeaderFields : Type := {
  slotsUsed : list Z;
  filamentTypes : list string;
  filamentColours : list string;
  filamentNames : list string
}.

Definition noFields : HeaderFields :=
  {| slotsUsed := []; filamentTypes := []; filamentColours := [];
     filamentNames := [] |}.

(** [comment.substring(prefix.length).trim()] *)
Definition valueAfter (prefix comment : string) : string :=
  trim (substringFrom (String.length prefix) comment).

(** One iteration of [for (const line of lines)]. *)
Definition scanLine (f : HeaderFields) (line : string) : result HeaderFields :=
  if negb (startsWith line ";") then ret f
  else
    let comment := trim (substringFrom 1 line) in
    if startsWith comment "filament:" then
      bind (parseSlotUsage (valueAfter "filament:" comment)) (fun slots =>
      ret {| slotsUsed := slots; filamentTypes := filamentTypes f;
             filamentColours := filamentColours f;
             filamentNames := filamentNames f |})
    else if startsWith comment "filament_type =" then
      ret {| slotsUsed := slotsUsed f;
             filamentTypes :=
               map trim (split ";" (valueAfter "filament_type =" comment));
             filamentColours := filamentColours f;
             filamentNames := filamentNames f |}
    else if startsWith comment "filament_colour =" then
      ret {| slotsUsed := slotsUsed f; filamentTypes := filamentTypes f;
             filamentColours :=
               map trim (split ";" (valueAfter "filament_colour =" comment));
             filamentNames := filamentNames f |}
    else if startsWith comment "filament_settings_id =" then
      ret {| slotsUsed := slotsUsed f; filamentTypes := filamentTypes f;
             filamentColours := filamentColours f;
             filamentNames :=
               map (fun s => removeOuterQuotes (trim s))
                   (split ";" (valueAfter "filament_settings_id =" comment)) |}
    else ret f.

Fixpoint scanHeader (f : HeaderFields) (lines : list string)
    : result HeaderFields :=
  match lines with
  | [] => ret f
  | line :: rest => bind (scanLine f line) (fun f' => scanHeader f' rest)
  end.

(** [gcodeContent.split('\n').slice(0, 500)] *)
Definition headerLines (gcodeContent : string) : list string :=
  firstn 500 (split newline gcodeContent).

(** [arr[i] || fallback] *)
Definition elementOr (arr : list string) (i : Z) (fallback : string) : string :=
  orElse (if (i <? 0)%Z then None else nth_error arr (Z.to_nat i)) fallback.

(** The [for (const slotNumber of slotsUsed)] loop. *)
Fixpoint buildProfiles (f : HeaderFields) (slots : list Z)
    : result (list FilamentProfile * list Z) :=
  match slots with
  | [] => ret ([], [])
  | slotNumber :: rest =>
      let profileIndex := slotNumber - 1 in
      let trayId := slotNumber - 1 in
      if (profileIndex >=? Z.of_nat (List.length (filamentTypes f)))%Z then
        throw (invalidProfileIndex profileIndex slotNumber
                 (List.length (filamentTypes f)))
      else
        let profile :=
          {| index := profileIndex;
             type := elementOr (filamentTypes f) profileIndex "UNKNOWN";
             colour := elementOr (filamentColours f) profileIndex "#FFFFFF";
             name := elementOr (filamentNames f) profileIndex "Unknown Profile";
             slotNumber := slotNumber;
             trayId := trayId |} in
        bind (buildProfiles f rest) (fun '(profiles, detectedMapping) =>
        ret (profile :: profiles, trayId :: detectedMapping))
  end.

Definition parseGcodeHeader (gcodeContent : string) : result ParsedFilamentData :=
  bind (scanHeader noFields (headerLines gcodeContent)) (fun f =>
  match slotsUsed f with
  | [] => throw slotLineNotFound
  | _ =>
      match filamentTypes f with
      | [] => throw typeLineNotFound
      | _ =>
          bind (buildProfiles f (slotsUsed f))
            (fun '(profiles, detectedMapping) =>
          ret {| profiles := profiles;
                 detectedMapping := detectedMapping;
                 totalEmbedded := List.length (filamentTypes f) |})
      end
  end).

(** What [new AdmZip(buffer)] makes of the bytes: an exception, or the
    archive's entries by name with their contents decoded as UTF-8. *)
Inductive Archive : Type :=
| NotAZip (reason : string)
| Zip (entries : list (string * string)).

Fixpoint getEntry (entries : list (string * string)) (path : string)
    : option string :=
  match entries with
  | [] => None
  | (n, data) :: rest => if String.eqb n path then Some data else getEntry rest path
  end.

Definition parseFromBuffer (buffer : Archive) : result ParsedFilamentData :=
  match buffer with
  | NotAZip reason =>
      throw ("Failed to read .3mf file: Not a valid ZIP archive. " ++ reason)
  | Zip entries =>
      match getEntry entries "Metadata/plate_1.gcode" with
      | None =>
          throw ("Failed to parse .3mf file: Metadata/plate_1.gcode not found. "
                 ++ "This file may not be a sliced .3mf file, or may be corrupted.")
      | Some gcodeContent => parseGcodeHeader gcodeContent
      end
  end.

End FilamentProfileParser.

(** ** helpers/constants.ts *)

Module Constants.

Definition MQTT_CONNECTION : Z := 10000.
Definition MQTT_RESPONSE : Z := 30000.
Definition MESSAGE_POLL : Z := 250.
Definition MAX_MESSAGE_BUFFER : nat := 100.

Definition MAX_RETRIES : Z := 3.
Definition INITIAL_DELAY : Z := 1000.
Definition MAX_DELAY : Z := 10000.
Definition BACKOFF_MULTIPLIER : Z := 2.

Definition MQTT_NOT_CONNECTED : string := "MQTT client is not connected".

Definition COMMAND_RESPONSE_TIMEOUT (timeout : Z) : string :=
  "Command response timeout after " ++ Js.showZ timeout ++ "ms".

Definition STATUS_TIMEOUT (timeout : Z) : string :=
  "Status request timeout after " ++ Js.showZ timeout ++ "ms".

Definition FTP_CONNECTION_FAILED (ip : string) (port : Z) (message : string)
    : string :=
  "Failed to connect to FTP server at " ++ ip ++ ":" ++ Js.showZ port
    ++ ": " ++ message.

End Constants.

(** ** helpers/ErrorHelper.ts *)

Module ErrorHelper.
Import Js.

Definition mqttNotConnected : Error := Constants.MQTT_NOT_CONNECTED.

Definition commandResponseTimeout (timeout : Z) : Error :=
  Constants.COMMAND_RESPONSE_TIMEOUT timeout.

Definition statusTimeout (timeout : Z) : Error :=
  Constants.STATUS_TIMEOUT timeout.

Definition ftpConnectionFailed (ip : string) (port : Z) (message : string)
    : Error :=
  Constants.FTP_CONNECTION_FAILED ip port message.

(** [patterns.some((pattern) => pattern.test(error.message))] *)
Definition somePattern (patterns : list string) (message : string) : bool :=
  existsb (fun pattern => testIgnoreCase pattern message) patterns.

Definition isAuthError (error : Error) : bool :=
  somePattern ["530"; "login"; "auth"; "credential"; "password"] error.

End ErrorHelper.

(** ** helpers/RetryHelper.ts *)

Module RetryHelper.
Import Js.

(** Every field is optional; [onRetry] records whether a callback was
    given (its calls are logged in the trace). *)
Record RetryOptions : Type := {
  maxRetries : option Z;
  initialDelay : option Z;
  maxDelay : option Z;
  backoffMultiplier : option Z;
  onRetry : bool
}.

Definition noOptions : RetryOptions :=
  {| maxRetries := None; initialDelay := None; maxDelay := None;
     backoffMultiplier := None; onRetry := false |}.

(** [a ?? b] *)
Definition orDefault (a : option Z) (b : Z) : Z :=
  match a with Some v => v | None => b end.

Definition isRetryableError (error : Error) : bool :=
  ErrorHelper.somePattern
    ["ECONNREFUSED"; "ECONNRESET"; "ETIMEDOUT"; "ENOTFOUND";
     "timeout"; "network"; "connection"]
    error.

(** What the wrapper does, in order: calls of the wrapped function, calls
    of the [onRetry] callback and sleeps. *)
Inductive Event : Type :=
| Invoked
| OnRetry (attempt : Z) (err : Error) (delay : Z)
| Slept (delay : Z).

Definition unknownError : Error := "Retry failed with unknown error".

(** [options.maxRetries ?? RETRY_CONFIG.MAX_RETRIES] *)
Definition limitOf (options : RetryOptions) : Z :=
  orDefault (maxRetries options) Constants.MAX_RETRIES.

Section WithConditionalRetry.

Context {T : Type}.

(** The wrapped operation: the outcome of its [k]-th invocation
    (counting from 0). *)
Variable fn : nat -> result T.
Variable options : RetryOptions.

Definition delayBefore (attempt : Z) : Z :=
  let initialDelay := orDefault (initialDelay options) Constants.INITIAL_DELAY in
  let maxDelay := orDefault (maxDelay options) Constants.MAX_DELAY in
  let backoffMultiplier :=
    orDefault (backoffMultiplier options) Constants.BACKOFF_MULTIPLIER in
  Z.min (initialDelay * backoffMultiplier ^ (attempt - 1)) maxDelay.

(** The [while (attempt <= maxRetries)] loop.  [attempt] grows by one in
    every iteration that continues, so [maxRetries + 1 - attempt]
    iterations are enough; [fuel] counts them down, [calls] counts the
    invocations made so far. *)
Fixpoint retryLoop (fuel : nat) (attempt : Z) (calls : nat)
    : result T * list Event :=
  let maxRetries := limitOf options in
  match fuel with
  | O => (throw unknownError, [])
  | S fuel' =>
      if (attempt <=? maxRetries)%Z then
        match fn calls with
        | inr value => (ret value, [Invoked])
        | inl err =>
            if negb (isRetryableError err) then (throw err, [Invoked])
            else
              let attempt := attempt + 1 in
              if (attempt >? maxRetries)%Z then (throw err, [Invoked])
              else
                let delay := delayBefore attempt in
                let '(r, events) := retryLoop fuel' attempt (S calls) in
                (r, Invoked
                      :: (if onRetry options
                          then [OnRetry attempt err delay] else [])
                      ++ Slept delay :: events)%list
        end
      else (throw unknownError, [])
  end.

Definition withConditionalRetry : result T * list Event :=
  let maxRetries := limitOf options in
  retryLoop (Z.to_nat (maxRetries + 1)) 0 0.

End WithConditionalRetry.

Section WithRetry.

Context {T : Type}.
Variable fn : nat -> result T.
Variable options : RetryOptions.

(** The loop of [withRetry]: as above without the test of the error;
    [lastError] is the variable of that name. *)
Fixpoint withRetryLoop (fuel : nat) (attempt : Z) (calls : nat)
    (lastError : option Error) : result T * list Event :=
  let maxRetries := limitOf options in
  let afterLoop :=
    throw (match lastError with Some e => e | None => unknownError end) in
  match fuel with
  | O => (afterLoop, [])
  | S fuel' =>
      if (attempt <=? maxRetries)%Z then
        match fn calls with
        | inr value => (ret value, [Invoked])
        | inl err =>
            let attempt := attempt + 1 in
            if (attempt >? maxRetries)%Z then (throw err, [Invoked])
            else
              let delay := delayBefore options attempt in
              let '(r, events) :=
                withRetryLoop fuel' attempt (S calls) (Some err) in
              (r, Invoked
                    :: (if onRetry options
                        then [OnRetry attempt err delay] else [])
                    ++ Slept delay :: events)%list
        end
      else (afterLoop, [])
  end.

Definition withRetry : result T * list Event :=
  let maxRetries := limitOf options in
  withRetryLoop (Z.to_nat (maxRetries + 1)) 0 0 None.

End WithRetry.

Definition invocations (events : list Event) : nat :=
  List.length (filter (fun e => match e with Invoked => true | _ => false end)
                      events).

Definition sleeps (events : list Event) : list Z :=
  flat_map (fun e => match e with Slept d => [d] | _ => [] end) events.

End RetryHelper.

(** ** helpers/commands.ts and the command types of helpers/types.ts *)

Module Commands.
Import Js.

Module Print.
Inductive verb : Type := project_file | pause | resume | stop.
Record body : Type := {
  sequence_id : string;
  command : verb;
  param : option string;
  project_id : option string;
  profile_id : option string;
  task_id : option string;
  subtask_id : option string;
  url : option string;
  file : option string;
  subtask_name : option string;
  bed_type : option string;
  bed_leveling : option bool;
  flow_cali : option bool;
  vibration_cali : option bool;
  layer_inspect : option bool;
  timelapse : option bool;
  use_ams : option bool;
  ams_mapping : option (list Z)
}.
(** A command that carries nothing but its verb. *)
Definition bare (sequence_id : string) (command : verb) : body :=
  {| sequence_id := sequence_id; command := command; param := None;
     project_id := None; profile_id := None; task_id := None;
     subtask_id := None; url := None; file := None; subtask_name := None;
     bed_type := None; bed_leveling := None; flow_cali := None;
     vibration_cali := None; layer_inspect := None; timelapse := None;
     use_ams := None; ams_mapping := None |}.
End Print.

Module Pushing.
Inductive verb : Type := pushall | start | stop.
Record body : Type := {
  sequence_id : string;
  command : verb;
  push_target : option Z
}.
End Pushing.

Module System.
Record body : Type := {
  sequence_id : string;
  command : string;
  param : option string;
  led_node : option string;
  led_mode : option string;
  led_on_time : option Z;
  led_off_time : option Z
}.
End System.

Module GcodeLine.
Record body : Type := {
  sequence_id : string;
  command : string;
  param : option string
}.
End GcodeLine.

(** [AnyCommand]: an object with one top-level key naming the variant.
    The [system] key of a [SystemCommand] is optional in the type. *)
Inductive AnyCommand : Type :=
| PrintCommand (print : Print.body)
| PushingCommand (pushing : Pushing.body)
| SystemCommand (system : option System.body)
| GcodeLineCommand (gcode_line : GcodeLine.body).

Inductive LEDNode : Type := chamber_light | work_light | logo_led.
Inductive LEDMode : Type := on | off | flashing.

Definition nodeName (node : LEDNode) : string :=
  match node with
  | chamber_light => "chamber_light"
  | work_light => "work_light"
  | logo_led => "logo_led"
  end.

Definition modeName (mode : LEDMode) : string :=
  match mode with on => "on" | off => "off" | flashing => "flashing" end.

Record PrintCommandOptions : Type := {
  bedLeveling : option bool;
  flowCalibration : option bool;
  vibrationCalibration : option bool;
  layerInspect : option bool;
  timelapse : option bool;
  useAMS : option bool;
  amsMapping : option (list Z)
}.

(** [options?.field ?? fallback] *)
Definition optionOr {A} (options : option PrintCommandOptions)
    (field : PrintCommandOptions -> option A) (fallback : A) : A :=
  match options with
  | Some o => match field o with Some v => v | None => fallback end
  | None => fallback
  end.

(** The one field of [class BambuLabCommands]. *)
Record BambuLabCommands : Type := { sequenceId : Z }.

Definition newCommands : BambuLabCommands := {| sequenceId := 0 |}.

(** A method: its result and the instance after the call. *)
Definition method (A : Type) : Type := BambuLabCommands -> A * BambuLabCommands.

(** [(this.sequenceId++).toString()] *)
Definition getNextSequenceId : method string :=
  fun this => (showZ (sequenceId this), {| sequenceId := sequenceId this + 1 |}).

Definition withSequenceId {A} (build : string -> A) : method A :=
  fun this => let '(id, this') := getNextSequenceId this in (build id, this').

Definition startPrint (fileName : string) (options : option PrintCommandOptions)
    : method AnyCommand :=
  let fileUrl :=
    if startsWith fileName "file:///" then fileName
    else "file:///sdcard/" ++ fileName in
  let displayName := orElse (Some (List.last (split "/" fileName) "")) fileName in
  withSequenceId (fun id =>
    PrintCommand
      {| Print.sequence_id := id;
         Print.command := Print.project_file;
         Print.param := Some "Metadata/plate_1.gcode";
         Print.project_id := Some "";
         Print.profile_id := Some "";
         Print.task_id := Some "";
         Print.subtask_id := Some "";
         Print.url := Some fileUrl;
         Print.file := Some "";
         Print.subtask_name := Some displayName;
         Print.bed_type := Some "auto";
         Print.bed_leveling := Some (optionOr options bedLeveling true);
         Print.flow_cali := Some (optionOr options flowCalibration false);
         Print.vibration_cali := Some (optionOr options vibrationCalibration true);
         Print.layer_inspect := Some (optionOr options layerInspect false);
         Print.timelapse := Some (optionOr options timelapse false);
         Print.use_ams := Some (optionOr options useAMS true);
         Print.ams_mapping := Some (optionOr options amsMapping [0]) |}).

Definition pausePrint : method AnyCommand :=
  withSequenceId (fun id => PrintCommand (Print.bare id Print.pause)).

Definition resumePrint : method AnyCommand :=
  withSequenceId (fun id => PrintCommand (Print.bare id Print.resume)).

Definition stopPrint : method AnyCommand :=
  withSequenceId (fun id => PrintCommand (Print.bare id Print.stop)).

Definition getPushAll : method AnyCommand :=
  withSequenceId (fun id =>
    PushingCommand {| Pushing.sequence_id := id;
                      Pushing.command := Pushing.pushall;
                      Pushing.push_target := Some 1 |}).

Definition startPushing : method AnyCommand :=
  withSequenceId (fun id =>
    PushingCommand {| Pushing.sequence_id := id;
                      Pushing.command := Pushing.start;
                      Pushing.push_target := None |}).

Definition stopPushing : method AnyCommand :=
  withSequenceId (fun id =>
    PushingCommand {| Pushing.sequence_id := id;
                      Pushing.command := Pushing.stop;
                      Pushing.push_target := None |}).

(** [onTime] and [offTime] default to 500 when not passed. *)
Definition setLED (node : LEDNode) (mode : LEDMode)
    (onTime offTime : option Z) : method AnyCommand :=
  withSequenceId (fun id =>
    SystemCommand
      (Some {| System.sequence_id := id;
               System.command := "ledctrl";
               System.param := None;
               System.led_node := Some (nodeName node);
               System.led_mode := Some (modeName mode);
               System.led_on_time :=
                 Some (match onTime with Some t => t | None => 500 end);
               System.led_off_time :=
                 Some (match offTime with Some t => t | None => 500 end) |})).

Definition sendGcode (gcode : string) (param : option string)
    : method AnyCommand :=
  withSequenceId (fun id =>
    GcodeLineCommand {| GcodeLine.sequence_id := id;
                        GcodeLine.command := gcode;
                        GcodeLine.param := Some (orElse param "") |}).

Definition homeAxes : method AnyCommand := sendGcode "G28" None.

(** [Math.max(lo, Math.min(hi, x))] *)
Definition clamp (lo hi x : Z) : Z := Z.max lo (Z.min hi x).

Definition setSpeed (speed : Z) : method AnyCommand :=
  let clampedSpeed := clamp 50 166 speed in
  withSequenceId (fun id =>
    SystemCommand
      (Some {| System.sequence_id := id;
               System.command := "print_speed";
               System.param := Some (showZ clampedSpeed);
               System.led_node := None; System.led_mode := None;
               System.led_on_time := None; System.led_off_time := None |})).

(** [Math.round((clampedSpeed / 100) * 255)] for a whole percentage. *)
Definition fanDuty (speed : Z) : Z :=
  let clampedSpeed := clamp 0 100 speed in
  (2 * clampedSpeed * 255 + 100) / 200.

Definition setChamberFan (speed : Z) : method AnyCommand :=
  sendGcode "M106" (Some ("P2 S" ++ showZ (fanDuty speed))).

Definition setPartCoolingFan (speed : Z) : method AnyCommand :=
  sendGcode "M106" (Some ("P3 S" ++ showZ (fanDuty speed))).

Definition unloadFilament (trayId : Z) : method AnyCommand :=
  sendGcode "M620" (Some ("P" ++ showZ trayId ++ "A")).

Definition loadFilament (trayId : Z) : method AnyCommand :=
  sendGcode "M620" (Some ("P" ++ showZ trayId ++ "T255")).

Definition resumeFilamentLoad : method AnyCommand :=
  sendGcode "M621" (Some "S255").

Definition setBedTemperature (temperature : Z) : method AnyCommand :=
  sendGcode "M140" (Some ("S" ++ showZ temperature)).

Definition setNozzleTemperature (temperature : Z) : method AnyCommand :=
  sendGcode "M104" (Some ("S" ++ showZ temperature)).

Definition turnOffHeaters : method AnyCommand :=
  sendGcode "M104 S0; M140 S0" None.

Definition emergencyStop : method AnyCommand := sendGcode "M112" None.

Definition getCurrentSequenceId : method Z :=
  fun this => (sequenceId this, this).

Definition resetSequenceId : method unit :=
  fun _ => (tt, {| sequenceId := 0 |}).

End Commands.

(** ** helpers/MqttHelper.ts *)

Module MqttHelper.
Import Js.
Import Commands.

(** The object under a variant key of an inbound message, as far as the
    client reads it. *)
Record Echo : Type := {
  sequence_id : option string;
  command : option string
}.

(** A JSON object as far as the client reads it: the four variant keys,
    each optional, and the text of the payload it was parsed from.  A JSON
    array is an object on which none of the four keys is found. *)
Record MessageObject : Type := {
  print : option Echo;
  pushing : option Echo;
  system : option Echo;
  gcode_line : option Echo;
  payload : string
}.

(** What the handler stores under the type [MQTTMessage].  The cast after
    [JSON.parse] checks nothing, so the buffer can hold any JSON value: an
    object, a primitive (number, string or boolean, of which the client
    only ever tests whether it is truthy: [0], [false] and the empty
    string are not), or [null]. *)
Inductive MQTTMessage : Type :=
| Object (fields : MessageObject)
| Primitive (truthy : bool) (text : string)
| Null.

(** [if (msg)] *)
Definition isTruthy (msg : MQTTMessage) : bool :=
  match msg with
  | Object _ => true
  | Primitive truthy _ => truthy
  | Null => false
  end.

Record CommandResponse : Type := {
  success : bool;
  message : string;
  data : option MQTTMessage;
  response_sequence_id : option string
}.

(** A callback registered with [subscribeToUpdates], as far as the client
    is concerned: [None] when the call returns, the exception when it
    throws.  The callback is taken to leave the client's own fields
    alone. *)
Definition UpdateCallback : Type := MQTTMessage -> option Error.

(** The fields of [class BambuLabMqttClient] the command path touches.
    [connected] stands for [this.client && this.client.connected], a
    property the MQTT library keeps: it goes down when the connection is
    lost (see [Closed] below) and is read by [publishCommand] once, on
    entry.  [published] is what was published on the request topic. *)
Record BambuLabMqttClient : Type := {
  connected : bool;
  messageBuffer : list MQTTMessage;
  updateCallback : option UpdateCallback;
  lastParseError : option Error;
  parseErrorHistory : list Error;
  published : list AnyCommand
}.

Definition responseTimeout : Z := Constants.MQTT_RESPONSE.

(** What [connectOnce] rejects with on the ['error'] event of the client,
    whatever the error is. *)
Definition connectionError (message : string) : Error :=
  "MQTT connection error: " ++ message.

(** What happens on the connection while a call is waiting: a payload
    [JSON.parse] accepts, received on the report topic or on another one;
    a payload on which [JSON.parse] throws; the loss of the connection
    ([reconnectPeriod] is 0, so the library does not bring it back). *)
Inductive Inbound : Type :=
| Parsed (parsedMessage : MQTTMessage)
| ParsedOffTopic (parsedMessage : MQTTMessage)
| Unparseable (parseError : Error)
| Closed.

(** [arr.shift()] *)
Definition shift {A} (arr : list A) : list A := List.tl arr.

(** The head of the [try] block of the ['message'] handler: the buffer
    takes the message, dropping its oldest entry when full. *)
Definition pushMessage (this : BambuLabMqttClient) (parsedMessage : MQTTMessage)
    : BambuLabMqttClient :=
  let buffer :=
    if (Constants.MAX_MESSAGE_BUFFER <=? List.length (messageBuffer this))%nat
    then shift (messageBuffer this)
    else messageBuffer this in
  {| connected := connected this;
     messageBuffer := (buffer ++ [parsedMessage])%list;
     updateCallback := updateCallback this;
     lastParseError := lastParseError this;
     parseErrorHistory := parseErrorHistory this;
     published := published this |}.

(** The [catch] block of the handler. *)
Definition recordParseError (this : BambuLabMqttClient) (parseError : Error)
    : BambuLabMqttClient :=
  let history := (parseErrorHistory this ++ [parseError])%list in
  {| connected := connected this;
     messageBuffer := messageBuffer this;
     updateCallback := updateCallback this;
     lastParseError := Some parseError;
     parseErrorHistory :=
       if (10 <? List.length history)%nat then shift history else history;
     published := published this |}.

Definition setConnected (this : BambuLabMqttClient) (state : bool)
    : BambuLabMqttClient :=
  {| connected := state;
     messageBuffer := messageBuffer this;
     updateCallback := updateCallback this;
     lastParseError := lastParseError this;
     parseErrorHistory := parseErrorHistory this;
     published := published this |}.

(** The ['message'] handler installed by [connectOnce].  The update
    callback runs inside the [try], after the push: when it throws, the
    message stays buffered and the exception is recorded as a parse
    error. *)
Definition onMessage (this : BambuLabMqttClient) (inbound : Inbound)
    : BambuLabMqttClient :=
  match inbound with
  | Parsed parsedMessage =>
      let this := pushMessage this parsedMessage in
      match updateCallback this with
      | Some callback =>
          match callback parsedMessage with
          | Some error => recordParseError this error
          | None => this
          end
      | None => this
      end
  | ParsedOffTopic parsedMessage => pushMessage this parsedMessage
  | Unparseable parseError => recordParseError this parseError
  | Closed => setConnected this false
  end.

Definition receive (this : BambuLabMqttClient) (arrivals : list Inbound)
    : BambuLabMqttClient :=
  fold_left onMessage arrivals this.

Definition setBuffer (this : BambuLabMqttClient) (buffer : list MQTTMessage)
    : BambuLabMqttClient :=
  {| connected := connected this;
     messageBuffer := buffer;
     updateCallback := updateCallback this;
     lastParseError := lastParseError this;
     parseErrorHistory := parseErrorHistory this;
     published := published this |}.

Definition publish (this : BambuLabMqttClient) (command : AnyCommand)
    : BambuLabMqttClient :=
  {| connected := connected this;
     messageBuffer := messageBuffer this;
     updateCallback := updateCallback this;
     lastParseError := lastParseError this;
     parseErrorHistory := parseErrorHistory this;
     published := (published this ++ [command])%list |}.

(** The sequence id of a command, looked up under its variant key. *)
Definition commandSeqIdOf (command : AnyCommand) : option string :=
  match command with
  | PrintCommand print => Some (Print.sequence_id print)
  | PushingCommand pushing => Some (Pushing.sequence_id pushing)
  | SystemCommand (Some system) => Some (System.sequence_id system)
  | SystemCommand None => None
  | GcodeLineCommand gcode_line => Some (GcodeLine.sequence_id gcode_line)
  end.

(** [echo?.sequence_id === commandSeqId] *)
Definition echoes (echo : option Echo) (commandSeqId : string) : bool :=
  match echo with
  | Some e =>
      match sequence_id e with
      | Some s => String.eqb s commandSeqId
      | None => false
      end
  | None => false
  end.

(** A test that reads keys of the message, where it returns: on an object
    it is the test on the keys; on a primitive every key is [undefined],
    and none of the tests below holds of it. *)
Definition onObject (test : MessageObject -> bool) (msg : MQTTMessage) : bool :=
  match msg with
  | Object fields => test fields
  | Primitive _ _ | Null => false
  end.

(** The predicate passed to [messageBuffer.find] by [publishCommand]. *)
Definition bears (commandSeqId : string) : MQTTMessage -> bool :=
  onObject (fun msg =>
    echoes (print msg) commandSeqId
    || echoes (pushing msg) commandSeqId
    || echoes (system msg) commandSeqId
    || echoes (gcode_line msg) commandSeqId).

(** The [TypeError] of reading a key of [null]. *)
Definition nullDereference (key : string) : Error :=
  "Cannot read properties of null (reading '" ++ key ++ "')".

(** [messageBuffer.find(test)] for a test that starts by reading [key] of
    the message: the first entry of which the test holds, unless a [null]
    entry comes before it, on which the test throws. *)
Fixpoint findMessage (key : string) (test : MQTTMessage -> bool)
    (buffer : list MQTTMessage) : result (option MQTTMessage) :=
  match buffer with
  | [] => ret None
  | msg :: rest =>
      match msg with
      | Null => throw (nullDereference key)
      | _ => if test msg then ret (Some msg) else findMessage key test rest
      end
  end.

(** One run of a [setInterval] callback: it resolves the promise with a
    message, or leaves it pending, or throws.  What it throws is caught by
    nothing in the client: the exception goes to the host, the promise
    stays pending and the timers stay armed. *)
Inductive Tick : Type :=
| Resolves (response : MQTTMessage)
| Pending
| Throws (error : Error).

(** [if (!response) response = buffer[buffer.length - 1]; if (response) ...] *)
Definition orLastTruthy (found : option MQTTMessage) (buffer : list MQTTMessage)
    : Tick :=
  let response :=
    match found with
    | Some r => Some r
    | None => nth_error buffer (List.length buffer - 1)
    end in
  match response with
  | Some r => if isTruthy r then Resolves r else Pending
  | None => Pending
  end.

(** One run of the [setInterval] callback of [publishCommand] over the
    buffer. *)
Definition pollBuffer (commandSeqId : option string)
    (buffer : list MQTTMessage) : Tick :=
  match buffer with
  | [] => Pending
  | _ =>
      let response :=
        match commandSeqId with
        | Some (String _ _ as id) => findMessage "print" (bears id) buffer
        | _ => ret None
        end in
      match response with
      | inl error => Throws error
      | inr found => orLastTruthy found buffer
      end
  end.

Definition responseReceived (response : MQTTMessage) : CommandResponse :=
  {| success := true;
     message := "Command executed and response received";
     data := Some response;
     response_sequence_id := None |}.

(** The wait of [publishCommand].  [rounds] is what happens on the
    connection up to the response timeout, cut at the runs of the poll
    callback: the arrivals before the first run, those between the first
    and the second, and so on.  When the runs are used up the timeout
    timer fires.  After a run that throws, the later runs take place as
    long as the host survives the uncaught exception. *)
Fixpoint awaitResponse (commandSeqId : option string)
    (this : BambuLabMqttClient) (rounds : list (list Inbound))
    : result CommandResponse * BambuLabMqttClient :=
  match rounds with
  | [] => (throw (ErrorHelper.commandResponseTimeout responseTimeout), this)
  | arrivals :: later =>
      let this := receive this arrivals in
      match pollBuffer commandSeqId (messageBuffer this) with
      | Resolves response => (ret (responseReceived response), setBuffer this [])
      | Pending | Throws _ => awaitResponse commandSeqId this later
      end
  end.

Definition publishCommand (this : BambuLabMqttClient) (command : AnyCommand)
    (waitForResponse : bool) (rounds : list (list Inbound))
    : result CommandResponse * BambuLabMqttClient :=
  if negb (connected this) then (throw ErrorHelper.mqttNotConnected, this)
  else
    let this := if waitForResponse then setBuffer this [] else this in
    let commandSeqId := commandSeqIdOf command in
    let this := publish this command in
    if negb waitForResponse then
      (ret {| success := true;
              message := "Command sent successfully";
              data := None;
              response_sequence_id := commandSeqId |}, this)
    else awaitResponse commandSeqId this rounds.

(** *** getStatus: the wait for the status *)

Section GetStatus.

(** [print?.ams !== undefined] on an object: the source reads a key the
    message type does not declare, through a cast; here it is read off the
    object by this test. *)
Variable hasAmsData : MessageObject -> bool.

(** One run of the [setInterval] callback of [getStatus] over the buffer.
    The second [find] runs only when the first one returned nothing. *)
Definition pollStatus (expectedSeqId : string) (buffer : list MQTTMessage)
    : Tick :=
  match buffer with
  | [] => Pending
  | _ =>
      match findMessage "print" (onObject hasAmsData) buffer with
      | inl error => Throws error
      | inr (Some status) => orLastTruthy (Some status) buffer
      | inr None =>
          match findMessage "pushing"
                  (onObject (fun msg => echoes (pushing msg) expectedSeqId))
                  buffer with
          | inl error => Throws error
          | inr found => orLastTruthy found buffer
          end
      end
  end.

(** The promise [getStatus] returns, with [rounds] as in [awaitResponse]. *)
Fixpoint awaitStatus (expectedSeqId : string) (this : BambuLabMqttClient)
    (rounds : list (list Inbound)) : result MQTTMessage * BambuLabMqttClient :=
  match rounds with
  | [] => (throw (ErrorHelper.statusTimeout responseTimeout), this)
  | arrivals :: later =>
      let this := receive this arrivals in
      match pollStatus expectedSeqId (messageBuffer this) with
      | Resolves status => (ret status, setBuffer this [])
      | Pending | Throws _ => awaitStatus expectedSeqId this later
      end
  end.

End GetStatus.

(** [clearMessageBuffer()] *)
Definition clearMessageBuffer (this : BambuLabMqttClient) : BambuLabMqttClient :=
  setBuffer this [].

(** [getParseErrorHistory()] *)
Definition getParseErrorHistory (this : BambuLabMqttClient) : list Error :=
  parseErrorHistory this.

(** [getLastParseError()] *)
Definition getLastParseError (this : BambuLabMqttClient) : option Error :=
  lastParseError this.

End MqttHelper.

(** ** helpers/PathValidator.ts *)

Module PathValidator.
Import Js.

Definition quoted (s : string) : string :=
  String dquote EmptyString ++ s ++ String dquote EmptyString.

Definition backslash : string := "\".

Definition BLOCKED_PATHS : list string :=
  [ "/etc"; "/sys"; "/proc"; "/root"; "/boot"; "/dev"; "/var"; "/usr";
    "/bin"; "/sbin"; "/lib"; "/tmp";
    "\windows"; "\system32"; "\program files" ].

Definition MAX_PATH_LENGTH : nat := 4096.
Definition MAX_FILENAME_LENGTH : nat := 255.

Definition isUpper (c : ascii) : bool :=
  let n := code c in ((65 <=? n) && (n <=? 90))%N.

Definition toLowerChar (c : ascii) : ascii :=
  if isUpper c then ascii_of_N (code c + 32) else c.

(** [s.toLowerCase()] *)
Fixpoint toLowerCase (s : string) : string :=
  match s with
  | EmptyString => EmptyString
  | String c r => String (toLowerChar c) (toLowerCase r)
  end.

(** [s.replace(/\0/g, '')] *)
Fixpoint removeNul (s : string) : string :=
  match s with
  | EmptyString => EmptyString
  | String c r =>
      if (code c =? 0)%N then removeNul r else String c (removeNul r)
  end.

(** [s.replace(/\/+$/, '')] *)
Fixpoint stripTrailingSlashes (s : string) : string :=
  match s with
  | EmptyString => EmptyString
  | String c r =>
      match stripTrailingSlashes r with
      | EmptyString => if Ascii.eqb c "/" then EmptyString else String c EmptyString
      | r' => String c r'
      end
  end.

(** [s.endsWith(suffix)] *)
Definition endsWith (s suffix : string) : bool :=
  (String.length suffix <=? String.length s)%nat
  && String.eqb (substringFrom (String.length s - String.length suffix) s) suffix.

(** [component.match(/\.(3mf|gcode)$/i)] *)
Definition hasPrintExtension (component : string) : bool :=
  endsWith (toLowerCase component) ".3mf"
  || endsWith (toLowerCase component) ".gcode".

(** Some code unit of [s] satisfies [p]: a character-class regex test. *)
Fixpoint existsS (p : ascii -> bool) (s : string) : bool :=
  match s with
  | EmptyString => false
  | String c r => p c || existsS p r
  end.

(** The character class of the last test of [sanitizeFilename]: the
    control characters 0 to 31, DEL, and the characters less-than,
    greater-than, colon, double quote, bar, question mark and star. *)
Definition invalidFilenameChar (c : ascii) : bool :=
  let n := code c in
  ((n <=? 31) || (n =? 127) || (n =? 60) || (n =? 62) || (n =? 58)
   || (n =? 34) || (n =? 124) || (n =? 63) || (n =? 42))%N.

Definition pathTooLong (provided : nat) : Error :=
  "Path too long. Maximum " ++ showZ (Z.of_nat MAX_PATH_LENGTH)
    ++ " characters allowed. " ++ "Provided: " ++ showZ (Z.of_nat provided)
    ++ " characters.".

Definition relativeTraversal : Error :=
  "Path traversal detected. "
    ++ "Use absolute paths starting with / (e.g., /sdcard/file.3mf) or filename only.".

Definition dotDotTraversal : Error :=
  "Path traversal detected. Paths containing " ++ quoted ".."
    ++ " are not allowed for security reasons. "
    ++ "Use absolute paths starting with / or filename only.".

Definition windowsTraversal : Error :=
  "Path traversal detected (Windows-style). Paths containing "
    ++ quoted ("..\") ++ " are not allowed.".

Definition systemDirectory (blockedPath : string) : Error :=
  "Access to system directory " ++ quoted blockedPath
    ++ " is not allowed for security reasons. "
    ++ "Only printer storage directories (/sdcard, /cache) are accessible.".

Definition hiddenComponent (component : string) : Error :=
  "Hidden files/directories (starting with " ++ quoted "."
    ++ ") are not allowed: " ++ quoted component.

(** The [for (const blockedPath of this.BLOCKED_PATHS)] loop. *)
Fixpoint checkBlocked (lowerPath lowerUserPath : string) (blocked : list string)
    : result unit :=
  match blocked with
  | [] => ret tt
  | blockedPath :: rest =>
      let lowerBlockedPath := toLowerCase blockedPath in
      if startsWith lowerPath lowerBlockedPath
         || startsWith lowerUserPath lowerBlockedPath
      then throw (systemDirectory blockedPath)
      else checkBlocked lowerPath lowerUserPath rest
  end.

(** The [for (const component of components)] loop. *)
Fixpoint checkComponents (components : list string) : result unit :=
  match components with
  | [] => ret tt
  | component :: rest =>
      if startsWith component "." && negb (hasPrintExtension component)
      then throw (hiddenComponent component)
      else checkComponents rest
  end.

(** [normalized.split('/').filter((c) => c !== '')] *)
Definition componentsOf (normalized : string) : list string :=
  filter (fun c => negb (String.eqb c "")) (split "/" normalized).

Section SanitizePath.

(** The two library functions [sanitizePath] calls.
    [decodeURIComponent s] is [None] when the call throws. *)
Variable decodeURIComponent : string -> option string.
Variable normalize : string -> string.

(** The [try] block: each assignment takes place only if its call
    returns. *)
Definition decodeTwice (sanitized : string) : string :=
  match decodeURIComponent sanitized with
  | None => sanitized
  | Some once =>
      match decodeURIComponent once with
      | None => once
      | Some twice => twice
      end
  end.

Definition sanitizePath (userPath : string) : result string :=
  if String.eqb userPath "" then throw "Path must be a non-empty string"
  else if (MAX_PATH_LENGTH <? String.length userPath)%nat
  then throw (pathTooLong (String.length userPath))
  else
    let sanitized := decodeTwice (removeNul userPath) in
    if startsWith sanitized "./" || startsWith sanitized "../"
       || includes sanitized "/../"
    then throw relativeTraversal
    else
      let normalized := normalize sanitized in
      let normalized :=
        if String.eqb normalized "/" then normalized
        else stripTrailingSlashes normalized in
      if includes normalized ".." then throw dotDotTraversal
      else if includes normalized ("\..")
              || (includes userPath "../" || includes userPath ("..\"))
      then throw windowsTraversal
      else
        bind (if startsWith normalized "/" || includes userPath backslash
              then checkBlocked (toLowerCase normalized) (toLowerCase userPath)
                                BLOCKED_PATHS
              else ret tt) (fun _ =>
        bind (checkComponents (componentsOf normalized)) (fun _ =>
        ret normalized)).

End SanitizePath.

Definition filenameTooLong (provided : nat) : Error :=
  "Filename too long. Maximum " ++ showZ (Z.of_nat MAX_FILENAME_LENGTH)
    ++ " characters allowed. " ++ "Provided: " ++ showZ (Z.of_nat provided)
    ++ " characters.".

Definition separatorsNotAllowed : Error :=
  "Path separators (/ or \) are not allowed in filenames. "
    ++ "Provide filename only, not a path.".

Definition invalidFilename (sanitized : string) : Error :=
  "Invalid filename: " ++ quoted sanitized.

Definition hiddenFilename : Error :=
  "Hidden filenames (starting with " ++ quoted "." ++ ") are not allowed".

Definition invalidCharacters : Error :=
  "Filename contains invalid characters. "
    ++ "Only alphanumeric, dash, underscore, and dot are allowed.".

Definition sanitizeFilename (filename : string) : result string :=
  if String.eqb filename "" then throw "Filename must be a non-empty string"
  else if (MAX_FILENAME_LENGTH <? String.length filename)%nat
  then throw (filenameTooLong (String.length filename))
  else
    let sanitized := removeNul filename in
    if includes sanitized "/" || includes sanitized backslash
    then throw separatorsNotAllowed
    else if existsb (String.eqb sanitized) ["."; ".."; ""]
    then throw (invalidFilename sanitized)
    else if startsWith sanitized "." then throw hiddenFilename
    else if existsS invalidFilenameChar sanitized then throw invalidCharacters
    else ret sanitized.

(** [validate]: a path when the input has a separator, else a filename. *)
Definition validate (decodeURIComponent : string -> option string)
    (normalize : string -> string) (userPath : string) : result string :=
  if includes userPath "/" || includes userPath backslash
  then sanitizePath decodeURIComponent normalize userPath
  else sanitizeFilename userPath.

End PathValidator.

(* ===================================================================== *)
(** * Properties *)
(* ===================================================================== *)

Import Js.

Example parseInt_examples :
  parseInt "2" = Num 2 /\ parseInt " 12abc" = Num 12 /\ parseInt "-3" = Num (-3)
  /\ parseInt "abc" = NaN /\ parseInt "" = NaN /\ parseInt "1.5" = Num 1.
Proof. repeat split. Qed.

Example normalizeColor_examples :
  FilamentMatcher.normalizeColor "#ff0000ff" = "FF0000"
  /\ FilamentMatcher.normalizeColor " #515151 " = "515151"
  /\ FilamentMatcher.normalizeColor "515151FF" = "515151"
  /\ FilamentMatcher.normalizeColor "##FF0000" = "#FF0000".
Proof. repeat split. Qed.

(** ** Strings: preservation of character classes *)

Section CharClasses.

Variable p : ascii -> bool.

Lemma forallS_substringTo n s :
  forallS p s = true -> forallS p (substringTo n s) = true.
Proof.
  revert n; induction s as [|c r IH]; intros [|n] H; simpl in *; trivial.
  apply andb_true_iff in H as [Hc Hr].
  now rewrite Hc, IH.
Qed.

Lemma forallS_removeWhiteSpace s :
  forallS p s = true -> forallS p (removeWhiteSpace s) = true.
Proof.
  induction s as [|c r IH]; simpl; trivial.
  intros H; apply andb_true_iff in H as [Hc Hr].
  destruct (isWhiteSpace c); simpl; [|rewrite Hc]; auto.
Qed.

End CharClasses.

Definition notWhite (c : ascii) : bool := negb (isWhiteSpace c).
Definition upperFixed (c : ascii) : bool := Ascii.eqb (toUpperChar c) c.

Ltac each_ascii c :=
  destruct c as [[] [] [] [] [] [] [] []]; try reflexivity; try discriminate.

Lemma toUpperChar_upperFixed c : upperFixed (toUpperChar c) = true.
Proof. each_ascii c. Qed.

Lemma removeLeadingHash_cons c r :
  removeLeadingHash (String c r) = if Ascii.eqb c "#" then r else String c r.
Proof. each_ascii c. Qed.

Lemma toUpperCase_upperFixed s : forallS upperFixed (toUpperCase s) = true.
Proof.
  induction s as [|c r IH]; simpl; trivial.
  now rewrite toUpperChar_upperFixed, IH.
Qed.

Lemma removeWhiteSpace_notWhite s : forallS notWhite (removeWhiteSpace s) = true.
Proof.
  induction s as [|c r IH]; simpl; trivial.
  destruct (isWhiteSpace c) eqn:E; trivial.
  simpl. unfold notWhite at 1. now rewrite E.
Qed.

Lemma forallS_removeLeadingHash p s :
  forallS p s = true -> forallS p (removeLeadingHash s) = true.
Proof.
  destruct s as [|c r]; trivial.
  rewrite removeLeadingHash_cons.
  destruct (Ascii.eqb c "#"); trivial.
  simpl. intros H. now apply andb_true_iff in H as [_ H].
Qed.

(** A string without white space, in upper case, is left alone by the
    corresponding steps. *)

Lemma trimStart_notWhite s : forallS notWhite s = true -> trimStart s = s.
Proof.
  destruct s as [|c r]; simpl; trivial.
  unfold notWhite at 1. now destruct (isWhiteSpace c).
Qed.

Lemma trimEnd_notWhite s : forallS notWhite s = true -> trimEnd s = s.
Proof.
  induction s as [|c r IH]; simpl; trivial.
  intros H; apply andb_true_iff in H as [Hc Hr].
  rewrite (IH Hr). unfold notWhite in Hc.
  destruct r; trivial. now destruct (isWhiteSpace c).
Qed.

Lemma trim_notWhite s : forallS notWhite s = true -> trim s = s.
Proof.
  intros H. unfold trim. rewrite (trimStart_notWhite _ H).
  now apply trimEnd_notWhite.
Qed.

Lemma toUpperCase_fixed s : forallS upperFixed s = true -> toUpperCase s = s.
Proof.
  induction s as [|c r IH]; simpl; trivial.
  intros H; apply andb_true_iff in H as [Hc Hr].
  apply Ascii.eqb_eq in Hc. now rewrite Hc, (IH Hr).
Qed.

Lemma removeWhiteSpace_fixed s :
  forallS notWhite s = true -> removeWhiteSpace s = s.
Proof.
  induction s as [|c r IH]; simpl; trivial.
  intros H; apply andb_true_iff in H as [Hc Hr].
  unfold notWhite in Hc. destruct (isWhiteSpace c); [discriminate|].
  now rewrite (IH Hr).
Qed.

Lemma substringTo_length n s : (String.length (substringTo n s) <= n)%nat.
Proof.
  revert s; induction n as [|n IH]; intros [|c r]; simpl; try lia.
  specialize (IH r). lia.
Qed.

(** ** normalizeColor *)

Import FilamentMatcher.

(** The output of [normalizeColor]: no white space, upper case, fewer than
    eight characters. *)
Lemma normalizeColor_shape x :
  let y := normalizeColor x in
  forallS notWhite y = true /\ forallS upperFixed y = true
  /\ (String.length y < 8)%nat.
Proof.
  unfold normalizeColor.
  set (u := removeWhiteSpace (removeLeadingHash (toUpperCase (trim x)))).
  assert (Hw : forallS notWhite u = true) by apply removeWhiteSpace_notWhite.
  assert (Hu : forallS upperFixed u = true).
  { apply forallS_removeWhiteSpace, forallS_removeLeadingHash,
      toUpperCase_upperFixed. }
  destruct (Nat.leb_spec 8 (String.length u)).
  - repeat split; try now apply forallS_substringTo.
    pose proof (substringTo_length 6 u). lia.
  - repeat split; trivial.
Qed.

(** Such a string is a fixed point as soon as it does not begin with [#]. *)
Lemma normalizeColor_fixed y :
  forallS notWhite y = true -> forallS upperFixed y = true ->
  (String.length y < 8)%nat -> removeLeadingHash y = y ->
  normalizeColor y = y.
Proof.
  intros Hw Hu Hl Hh. unfold normalizeColor.
  rewrite (trim_notWhite _ Hw), (toUpperCase_fixed _ Hu), Hh,
    (removeWhiteSpace_fixed _ Hw).
  destruct (Nat.leb_spec 8 (String.length y)); trivial. lia.
Qed.

Lemma normalizeColor_idempotent_when x :
  removeLeadingHash (normalizeColor x) = normalizeColor x ->
  normalizeColor (normalizeColor x) = normalizeColor x.
Proof.
  intros H. destruct (normalizeColor_shape x) as (Hw & Hu & Hl).
  now apply normalizeColor_fixed.
Qed.

(** Hex colour strings: an optional leading [#] and hexadecimal digits in
    either case (six of them, eight with an alpha channel, or any other
    number), with white space allowed around and between them. *)

Definition isHexDigit (c : ascii) : bool :=
  let n := code c in
  (((48 <=? n) && (n <=? 57)) || ((65 <=? n) && (n <=? 70))
   || ((97 <=? n) && (n <=? 102)))%N.

Definition isUpperHex (c : ascii) : bool :=
  let n := code c in
  (((48 <=? n) && (n <=? 57)) || ((65 <=? n) && (n <=? 70)))%N.

Definition hexOrWhite (c : ascii) : bool := isHexDigit c || isWhiteSpace c.

Definition isHexColor (x : string) : bool :=
  forallS hexOrWhite (removeLeadingHash (trim x)).

Example hex_colour_forms :
  isHexColor "FF0000" = true /\ isHexColor "515151FF" = true
  /\ isHexColor "ff00aa" = true /\ isHexColor "#515151" = true
  /\ isHexColor " #ff0000ff " = true /\ isHexColor "# ff 00 00" = true
  /\ isHexColor "##FF0000" = false.
Proof. repeat split. Qed.

Lemma toUpperChar_hexOrWhite c :
  hexOrWhite c = true ->
  isUpperHex (toUpperChar c) || isWhiteSpace (toUpperChar c) = true.
Proof. each_ascii c. Qed.

Lemma removeWhiteSpace_toUpperCase_hex s :
  forallS hexOrWhite s = true ->
  forallS isUpperHex (removeWhiteSpace (toUpperCase s)) = true.
Proof.
  induction s as [|c r IH]; simpl; trivial.
  intros H; apply andb_true_iff in H as [Hc Hr].
  apply toUpperChar_hexOrWhite in Hc.
  destruct (isWhiteSpace (toUpperChar c)); [auto|].
  rewrite orb_false_r in Hc. simpl. now rewrite Hc, (IH Hr).
Qed.

Lemma toUpperChar_hash c : Ascii.eqb (toUpperChar c) "#" = Ascii.eqb c "#".
Proof. each_ascii c. Qed.

Lemma removeLeadingHash_toUpperCase s :
  removeLeadingHash (toUpperCase s) = toUpperCase (removeLeadingHash s).
Proof.
  destruct s as [|c r]; trivial.
  simpl toUpperCase at 1. rewrite !removeLeadingHash_cons, toUpperChar_hash.
  now destruct (Ascii.eqb c "#").
Qed.

Lemma upperHex_no_hash y :
  forallS isUpperHex y = true -> removeLeadingHash y = y.
Proof.
  destruct y as [|c r]; trivial.
  rewrite removeLeadingHash_cons. simpl.
  intros H; apply andb_true_iff in H as [Hc _].
  destruct (Ascii.eqb_spec c "#") as [->|]; trivial. discriminate.
Qed.

Lemma normalizeColor_hex x :
  isHexColor x = true -> forallS isUpperHex (normalizeColor x) = true.
Proof.
  unfold isHexColor, normalizeColor. intros H.
  rewrite removeLeadingHash_toUpperCase.
  set (u := removeWhiteSpace _).
  assert (Hu : forallS isUpperHex u = true)
    by now apply removeWhiteSpace_toUpperCase_hex.
  destruct (8 <=? String.length u)%nat; trivial.
  now apply forallS_substringTo.
Qed.

(** C4. Color normalization is idempotent on hex colour strings (six
    characters, eight characters with alpha, lower case, [#]-prefixed, with
    white space): normalizing a normalized colour changes nothing. *)
Theorem normalizeColor_idempotent (x : string) :
  isHexColor x = true ->
  normalizeColor (normalizeColor x) = normalizeColor x.
Proof.
  intros H. apply normalizeColor_idempotent_when, upperHex_no_hash.
  now apply normalizeColor_hex.
Qed.

Lemma normalizeColor_idempotent_witness :
  isHexColor " #ff0000ff " = true
  /\ normalizeColor " #ff0000ff " = "FF0000"
  /\ normalizeColor (normalizeColor " #ff0000ff ") = normalizeColor " #ff0000ff ".
Proof.
  split; [reflexivity|]. split; [reflexivity|].
  apply (normalizeColor_idempotent " #ff0000ff "). reflexivity.
Defined.

(** ** matchProfilesToAMS *)

(** Every tray the status reports, over all AMS units, in reported order;
    empty when there is no material bay. *)
Definition loadedTrays (status : PrinterStatus) : list AMSTray :=
  match amsDataOf status with
  | Some amsData =>
      match ams amsData with
      | Some units => flattenTrays units
      | None => []
      end
  | None => []
  end.

(** The status carries no [print.ams], or no (or an empty) list of units. *)
Definition noMaterialBay (status : PrinterStatus) : Prop :=
  amsDataOf status = None
  \/ exists amsData, amsDataOf status = Some amsData
                     /\ (ams amsData = None \/ ams amsData = Some []).

Lemma noMaterialBay_loadedTrays status :
  noMaterialBay status -> loadedTrays status = [].
Proof.
  unfold loadedTrays.
  intros [-> | (a & -> & [-> | ->])]; reflexivity.
Qed.

Lemma profileOf_spread p slot tid col ty :
  profileOf (spread p slot tid col ty) = p.
Proof. now destruct p. Qed.

(** What [findExactMatch] returns: the entry built from the first tray, in
    scan order, that matches the profile. *)
Lemma findExactMatch_Some p trays m :
  findExactMatch p trays = Some m ->
  exists before t after,
    trays = (before ++ t :: after)%list
    /\ forallb (fun t' => negb (trayMatches p t')) before = true
    /\ trayMatches p t = true
    /\ m = spread p (add (trayNumber t) (Num 1)) (trayNumber t)
                  (orElse (tray_color t) "") (orElse (tray_type t) "").
Proof.
  induction trays as [|t rest IH]; simpl; [discriminate|].
  destruct (trayMatches p t) eqn:E.
  - intros [= <-]. now exists [], t, rest.
  - intros H. destruct (IH H) as (b & t' & a & -> & Hb & Ht & Hm).
    exists (t :: b), t', a. simpl. now rewrite E.
Qed.

Lemma matchLoop_ok trays ps mp ms :
  matchLoop trays ps = inr (mp, ms) ->
  map profileOf ms = ps /\ mp = map matchedTrayId ms
  /\ Forall (fun m => findExactMatch (profileOf m) trays = Some m) ms.
Proof.
  revert mp ms; induction ps as [|p rest IH]; simpl; intros mp ms.
  - intros [= <- <-]. now repeat split.
  - destruct (findExactMatch p trays) as [m|] eqn:E; [|discriminate].
    destruct (matchLoop trays rest) as [e|[mp' ms']]; simpl; [discriminate|].
    intros [= <- <-]. destruct (IH _ _ eq_refl) as (H1 & H2 & H3).
    assert (Hp : profileOf m = p).
    { destruct (findExactMatch_Some _ _ _ E) as (? & ? & ? & _ & _ & _ & ->).
      apply profileOf_spread. }
    simpl. rewrite H1, Hp, <- H2. repeat split.
    constructor; trivial. now rewrite Hp.
Qed.

Lemma matchLoop_error trays ps e :
  matchLoop trays ps = inl e ->
  exists before p after,
    ps = (before ++ p :: after)%list
    /\ Forall (fun q => findExactMatch q trays <> None) before
    /\ findExactMatch p trays = None
    /\ e = filamentNotFound p (formatAvailableFilaments trays).
Proof.
  induction ps as [|p rest IH]; simpl; [discriminate|].
  destruct (findExactMatch p trays) as [m|] eqn:E.
  - destruct (matchLoop trays rest) as [e'|[mp ms]]; simpl; [|discriminate].
    intros [= <-]. destruct (IH eq_refl) as (b & q & a & -> & Hb & Hq & He).
    exists (p :: b), q, a. repeat split; trivial.
    constructor; trivial. congruence.
  - intros [= <-]. exists [], p, rest. now repeat split.
Qed.

(** The three ways through [matchProfilesToAMS]. *)
Lemma matchProfilesToAMS_cases profiles status :
  (loadedTrays status = []
   /\ matchProfilesToAMS profiles status = inr (externalSpool profiles))
  \/ (loadedTrays status <> []
      /\ matchProfilesToAMS profiles status =
         bind (matchLoop (loadedTrays status) profiles)
           (fun '(mapping, matches) =>
              ret {| mapping := mapping; matches := matches;
                     amsDetected := true;
                     totalSlots := List.length (loadedTrays status) |})).
Proof.
  unfold matchProfilesToAMS, loadedTrays.
  destruct (amsDataOf status) as [a|]; [|now left].
  destruct (ams a) as [[|u us]|]; try now left.
  destruct (flattenTrays (u :: us)) eqn:E; [now left|].
  right. split; [discriminate|reflexivity].
Qed.

Lemma externalSpool_matches profiles :
  map profileOf (matches (externalSpool profiles)) = profiles
  /\ mapping (externalSpool profiles)
     = map matchedTrayId (matches (externalSpool profiles))
  /\ mapping (externalSpool profiles) = repeat (Num 0) (List.length profiles).
Proof.
  simpl. induction profiles as [|p ps (IH1 & IH2 & IH3)]; simpl.
  - now repeat split.
  - rewrite profileOf_spread, IH1, <- IH2, IH3. now repeat split.
Qed.

(** C3. [matchProfilesToAMS] is atomic.  Either it returns a result whose
    match entries are built from the input profiles one by one, in input
    order, with [mapping] holding one tray id per profile; or it throws the
    filament-not-found error of the first profile without a matching tray,
    whose message carries that profile's declared type and colour and the
    slot, type and colour of every tray the status reports.  No partial
    mapping is returned. *)
Theorem matchProfilesToAMS_atomic
    (profiles : list FilamentProfile) (status : PrinterStatus) :
  match matchProfilesToAMS profiles status with
  | inr r =>
      map profileOf (matches r) = profiles
      /\ mapping r = map matchedTrayId (matches r)
      /\ List.length (mapping r) = List.length profiles
  | inl e =>
      exists before p after,
        profiles = (before ++ p :: after)%list
        /\ Forall (fun q => findExactMatch q (loadedTrays status) <> None) before
        /\ findExactMatch p (loadedTrays status) = None
        /\ e = "Filament not found in AMS: Need " ++ type p
                 ++ " (" ++ colour p ++ ") for profile " ++ showZ (index p)
                 ++ ". Available: "
                 ++ join ", "
                      (map (fun t =>
                              "Slot " ++ show (add (parseInt (orElse (id t) "0")) (Num 1))
                              ++ ": " ++ orElse (tray_type t) "Unknown"
                              ++ " (" ++ orElse (tray_color t) "Unknown" ++ ")")
                           (loadedTrays status))
  end.
Proof.
  destruct (matchProfilesToAMS_cases profiles status) as [[_ ->] | [Hne ->]].
  - destruct (externalSpool_matches profiles) as (H1 & H2 & H3).
    repeat split; trivial. now rewrite H3, repeat_length.
  - destruct (matchLoop (loadedTrays status) profiles) as [e|[mp ms]] eqn:E;
      simpl.
    + destruct (matchLoop_error _ _ _ E) as (b & p & a & Hp & Hb & Hn & ->).
      exists b, p, a. repeat split; trivial.
      unfold filamentNotFound, formatAvailableFilaments.
      destruct (loadedTrays status); [congruence|]. reflexivity.
    + destruct (matchLoop_ok _ _ _ _ E) as (H1 & -> & _).
      repeat split; trivial. now rewrite <- H1, !length_map.
Qed.

(** C5. When the status reports no material bay, or a bay without any loaded
    tray, the matcher returns (it never rejects a profile) with
    [amsDetected = false], [totalSlots = 1], a mapping of zeros as long as
    the profile list, and one match entry per profile with
    [matchedTrayId = 0] and [matchQuality = exact]. *)
Theorem matchProfilesToAMS_single_spool
    (profiles : list FilamentProfile) (status : PrinterStatus) :
  noMaterialBay status \/ loadedTrays status = [] ->
  exists r,
    matchProfilesToAMS profiles status = inr r
    /\ amsDetected r = false
    /\ totalSlots r = 1%nat
    /\ mapping r = repeat (Num 0) (List.length profiles)
    /\ map profileOf (matches r) = profiles
    /\ Forall (fun m => matchedTrayId m = Num 0 /\ matchQuality m = exact)
              (matches r).
Proof.
  intros H.
  assert (Hl : loadedTrays status = [])
    by (destruct H; [now apply noMaterialBay_loadedTrays | trivial]).
  destruct (matchProfilesToAMS_cases profiles status) as [[_ ->] | [Hne _]];
    [|contradiction].
  exists (externalSpool profiles).
  destruct (externalSpool_matches profiles) as (H1 & _ & H3).
  repeat split; trivial.
  simpl. apply Forall_forall. intros m Hm.
  apply in_map_iff in Hm as (p & <- & _). now split.
Qed.

Definition redPLA : FilamentProfile :=
  {| index := 0; type := "PLA"; colour := "FF0000"; name := "Red PLA";
     slotNumber := 1; trayId := 0 |}.

Definition blackPETG : FilamentProfile :=
  {| index := 1; type := "PETG"; colour := "#000000"; name := "Black PETG";
     slotNumber := 2; trayId := 1 |}.

(** A status with one AMS unit holding the given trays. *)
Definition statusWithTrays (trays : list AMSTray) : PrinterStatus :=
  {| print := Some {| print_ams :=
       Some {| ams := Some [ {| tray := Some trays |} ] |} |} |}.

Definition noAmsStatus : PrinterStatus := {| print := Some {| print_ams := None |} |}.

Lemma matchProfilesToAMS_single_spool_witness :
  exists r,
    matchProfilesToAMS [redPLA; blackPETG] noAmsStatus = inr r
    /\ amsDetected r = false
    /\ totalSlots r = 1%nat
    /\ mapping r = repeat (Num 0) (List.length [redPLA; blackPETG])
    /\ map profileOf (matches r) = [redPLA; blackPETG]
    /\ Forall (fun m => matchedTrayId m = Num 0 /\ matchQuality m = exact)
              (matches r).
Proof.
  apply (matchProfilesToAMS_single_spool [redPLA; blackPETG] noAmsStatus).
  left. left. reflexivity.
Defined.

(** The end-to-end scenario of the specification: the tray is first in scan
    order and reports id 2. *)
Example match_uses_reported_id :
  matchProfilesToAMS [redPLA]
    (statusWithTrays
       [ {| id := Some "2"; tray_type := Some "PLA";
            tray_color := Some "#ff0000ff" |} ])
  = inr {| mapping := [Num 2];
           matches := [spread redPLA (Num 3) (Num 2) "#ff0000ff" "PLA"];
           amsDetected := true; totalSlots := 1 |}.
Proof. reflexivity. Qed.

Example match_failure_message :
  matchProfilesToAMS [redPLA; blackPETG]
    (statusWithTrays
       [ {| id := Some "0"; tray_type := Some "PLA";
            tray_color := Some "FF0000FF" |};
         {| id := Some "1"; tray_type := None; tray_color := None |} ])
  = inl ("Filament not found in AMS: Need PETG (#000000) for profile 1. "
         ++ "Available: Slot 1: PLA (FF0000FF), Slot 2: Unknown (Unknown)").
Proof. reflexivity. Qed.

(** When does [parseInt] find an integer: when, white space and one sign
    aside, the text begins with a digit. *)
Definition afterSign (s : string) : string :=
  match s with
  | String "-" r | String "+" r => r
  | _ => s
  end.

Lemma parseInt_NaN_iff s :
  parseInt s = NaN <-> startsWithDigit (afterSign (trimStart s)) = false.
Proof.
  unfold parseInt, afterSign.
  destruct (trimStart s) as [|c r]; [now split|].
  assert (Hplain : (if startsWithDigit (String c r)
                    then Num (digitsValue 0 (String c r)) else NaN) = NaN
                   <-> startsWithDigit (String c r) = false)
    by (destruct (startsWithDigit (String c r)); now split).
  destruct c as [[] [] [] [] [] [] [] []]; try exact Hplain;
    destruct (startsWithDigit r); now split.
Qed.


Definition twoTrays : list AMSTray :=
  [ {| id := Some "3"; tray_type := Some "PETG"; tray_color := Some "000000FF" |};
    {| id := Some "2"; tray_type := Some "PLA"; tray_color := Some "#ff0000ff" |} ].

Definition twoTraysResult : FilamentMatchResult :=
  {| mapping := [Num 2; Num 3];
     matches := [spread redPLA (Num 3) (Num 2) "#ff0000ff" "PLA";
                 spread blackPETG (Num 4) (Num 3) "000000FF" "PETG"];
     amsDetected := true; totalSlots := 2 |}.




(** ** parseGcodeHeader *)

Import FilamentProfileParser.

Definition unlines (lines : list string) : string :=
  join (String newline EmptyString) lines.

(** The header of the two-colour print of the parser's test suite. *)
Definition twoColourGcode : string :=
  unlines
    [ "; HEADER_BLOCK_START";
      "; BambuStudio 02.03.00.70";
      "; filament: 1,2";
      "; total filament length [mm] : 2501.86,2492.10";
      "; HEADER_BLOCK_END";
      "";
      "; CONFIG_BLOCK_START";
      "; filament_colour = #515151;#000000;#68724D;#042F56;#2850E0";
      "; filament_type = PETG;PETG;PLA;PLA;TPU";
      "; filament_settings_id = " ++ quote ++ "Bambu PETG HF @BBL X1C" ++ quote
        ++ ";" ++ quote ++ "Bambu PETG HF @BBL X1C" ++ quote
        ++ ";" ++ quote ++ "Bambu PLA Matte @BBL X1C" ++ quote
        ++ ";" ++ quote ++ "Bambu PLA Matte @BBL X1C" ++ quote
        ++ ";" ++ quote ++ "Polymaker TPU 95A" ++ quote;
      "; CONFIG_BLOCK_END" ].

Example parse_two_colour :
  parseGcodeHeader twoColourGcode
  = inr {| profiles :=
             [ {| index := 0; type := "PETG"; colour := "#515151";
                  name := "Bambu PETG HF @BBL X1C"; slotNumber := 1; trayId := 0 |};
               {| index := 1; type := "PETG"; colour := "#000000";
                  name := "Bambu PETG HF @BBL X1C"; slotNumber := 2; trayId := 1 |} ];
           detectedMapping := [0; 1];
           totalEmbedded := 5 |}.
Proof. reflexivity. Qed.

Example scanLine_examples :
  scanLine noFields "; filament: 1,2"
  = inr {| slotsUsed := [1; 2]; filamentTypes := []; filamentColours := [];
           filamentNames := [] |}
  /\ scanLine noFields "; filament_type = PETG;PETG;PLA;PLA;TPU"
     = inr {| slotsUsed := []; filamentTypes := ["PETG"; "PETG"; "PLA"; "PLA"; "TPU"];
              filamentColours := []; filamentNames := [] |}
  /\ scanLine noFields "G1 X10 Y10" = inr noFields
  /\ scanLine noFields "; filament: 7" = inl (invalidSlotNumber "7").
Proof. repeat split. Qed.

Example parse_slot_usage_examples :
  parseSlotUsage "1,2" = inr [1; 2]
  /\ parseSlotUsage " 1 , 2" = inr [1; 2]
  /\ parseSlotUsage "1,3,4" = inr [1; 3; 4]
  /\ parseSlotUsage "1,5" = inl (invalidSlotNumber "5")
  /\ parseSlotUsage "0" = inl (invalidSlotNumber "0")
  /\ parseSlotUsage "x" = inl (invalidSlotNumber "x")
  /\ parseSlotUsage "" = inl noValidSlotNumbers.
Proof. repeat split. Qed.

Example parse_errors :
  parseGcodeHeader (unlines ["; filament: 4"; "; filament_type = PLA;PLA"])
  = inl "Invalid profile index 3 for slot 4. Only 2 profiles embedded in file."
  /\ parseGcodeHeader (unlines ["; filament: 1,5"; "; filament_type = PLA;PLA"])
     = inl (invalidSlotNumber "5")
  /\ parseGcodeHeader (unlines ["; filament: 1,2"; "; filament_colour = #515151"])
     = inl typeLineNotFound
  /\ parseGcodeHeader (unlines ["; filament_type = PLA;PLA"])
     = inl slotLineNotFound.
Proof. repeat split. Qed.

(** On success the loop has built one profile per used slot, in order. *)
Lemma buildProfiles_ok f slots ps dm :
  buildProfiles f slots = inr (ps, dm) ->
  map slotNumber ps = slots
  /\ dm = map (fun s => s - 1) slots
  /\ Forall (fun p => index p = slotNumber p - 1 /\ trayId p = slotNumber p - 1
                      /\ 0 <= index p < Z.of_nat (List.length (filamentTypes f))
                         \/ index p < 0) ps.
Proof.
  revert ps dm; induction slots as [|s rest IH]; simpl; intros ps dm.
  - intros [= <- <-]. now repeat split.
  - destruct (Z.geb_spec (s - 1) (Z.of_nat (List.length (filamentTypes f))));
      [discriminate|].
    destruct (buildProfiles f rest) as [e|[ps' dm']]; simpl; [discriminate|].
    intros [= <- <-]. destruct (IH _ _ eq_refl) as (H1 & H2 & H3).
    simpl. rewrite H1, H2. repeat split. constructor; trivial.
    simpl. lia.
Qed.

(** ** Slot validation *)

(** What the guard of [parseSlotUsage] accepts and rejects, in terms of
    [parseInt]. *)
Lemma parseSlot_rejects s :
  parseInt s = NaN \/ (exists n, parseInt s = Num n /\ (n < 1 \/ 4 < n)) ->
  parseSlot s = inl (invalidSlotNumber s).
Proof.
  unfold parseSlot. intros [-> | (n & -> & Hn)]; trivial.
  destruct (Z.ltb_spec n 1), (Z.gtb_spec n 4); trivial; lia.
Qed.

Lemma parseSlot_accepts s n :
  parseSlot s = inr n <-> parseInt s = Num n /\ 1 <= n <= 4.
Proof.
  unfold parseSlot. destruct (parseInt s) as [z|].
  - destruct (Z.ltb_spec z 1), (Z.gtb_spec z 4); simpl; split;
      try discriminate; try (intros [[= ->] ?]; lia).
    intros [= ->]. split; [reflexivity | lia].
    intros [[= ->] _]. reflexivity.
  - split; [discriminate | intros [? _]; discriminate].
Qed.

(** A used slot beyond the embedded type list ends the loop with the
    profile-index error of the first such slot. *)
Lemma buildProfiles_index_out_of_range f before s after :
  Forall (fun b => b - 1 < Z.of_nat (List.length (filamentTypes f))) before ->
  Z.of_nat (List.length (filamentTypes f)) <= s - 1 ->
  buildProfiles f (before ++ s :: after)
  = inl (invalidProfileIndex (s - 1) s (List.length (filamentTypes f))).
Proof.
  intros Hb Hs. induction Hb as [|b bs Hb _ IH]; simpl.
  - destruct (Z.geb_spec (s - 1) (Z.of_nat (List.length (filamentTypes f))));
      trivial; lia.
  - destruct (Z.geb_spec (b - 1) (Z.of_nat (List.length (filamentTypes f))));
      [lia|].
    now rewrite IH.
Qed.

Lemma parseGcodeHeader_index_out_of_range gcodeContent f before s after :
  scanHeader noFields (headerLines gcodeContent) = inr f ->
  slotsUsed f = (before ++ s :: after)%list ->
  filamentTypes f <> [] ->
  Forall (fun b => b - 1 < Z.of_nat (List.length (filamentTypes f))) before ->
  Z.of_nat (List.length (filamentTypes f)) <= s - 1 ->
  parseGcodeHeader gcodeContent
  = inl (invalidProfileIndex (s - 1) s (List.length (filamentTypes f))).
Proof.
  intros Hscan Hslots Hty Hb Hs. unfold parseGcodeHeader.
  rewrite Hscan. simpl. rewrite Hslots.
  rewrite (buildProfiles_index_out_of_range f before s after Hb Hs).
  destruct (before ++ s :: after)%list eqn:E.
  - now destruct before.
  - now destruct (filamentTypes f).
Qed.

(** C7. The guard on slot-usage values reads each value with [parseInt],
    which stops at the first character that is not a digit: a value such as
    [2abc] or [1.5] is not an integer in [1,4], yet the header is accepted
    and a profile is built for slot 2, respectively slot 1, instead of the
    invalid-slot-number error. *)
Theorem parseGcodeHeader_accepts_trailing_text :
  parseGcodeHeader (unlines ["; filament: 2abc"; "; filament_type = PLA;PETG"])
  = inr {| profiles :=
             [ {| index := 1; type := "PETG"; colour := "#FFFFFF";
                  name := "Unknown Profile"; slotNumber := 2; trayId := 1 |} ];
           detectedMapping := [1];
           totalEmbedded := 2 |}
  /\ parseGcodeHeader (unlines ["; filament: 1.5"; "; filament_type = PLA;PETG"])
     = inr {| profiles :=
                [ {| index := 0; type := "PLA"; colour := "#FFFFFF";
                     name := "Unknown Profile"; slotNumber := 1; trayId := 0 |} ];
              detectedMapping := [0];
              totalEmbedded := 2 |}.
Proof. split; reflexivity. Qed.

(** ** The header scan, line by line *)

(** The lines the scan reacts to, by directive. *)
Definition commentOf (line : string) : string := trim (substringFrom 1 line).

Definition hasDirective (directive line : string) : bool :=
  startsWith line ";" && startsWith (commentOf line) directive.

(** No line among [lines] carries the directive. *)
Definition lacks (directive : string) (lines : list string) : bool :=
  forallb (fun l => negb (hasDirective directive l)) lines.

Definition slotInRange (slot : Z) : Prop := 1 <= slot <= 4.

Lemma mapThrowing_parseSlot entries : forall slots,
  mapThrowing parseSlot entries = inr slots ->
  Forall slotInRange slots /\ List.length slots = List.length entries.
Proof.
  induction entries as [|s rest IH]; simpl; intros slots.
  - intros [= <-]. now split.
  - destruct (parseSlot s) as [e|n] eqn:E; simpl; [discriminate|].
    destruct (mapThrowing parseSlot rest) as [e|ns]; simpl; [discriminate|].
    intros [= <-]. destruct (IH ns eq_refl) as [H1 H2].
    apply parseSlot_accepts in E as [_ E]. split.
    + now constructor.
    + simpl. now rewrite H2.
Qed.

Lemma parseSlotUsage_ok value slots :
  parseSlotUsage value = inr slots -> slots <> [] /\ Forall slotInRange slots.
Proof.
  unfold parseSlotUsage.
  destruct (mapThrowing parseSlot _) as [e|ns] eqn:E; simpl; [discriminate|].
  apply mapThrowing_parseSlot in E as [E _].
  destruct ns; [discriminate|]. intros [= <-]. split; [discriminate | exact E].
Qed.

Ltac scan_cases f line :=
  unfold scanLine, hasDirective, commentOf in *;
  destruct (startsWith line ";"); cbn [negb andb] in *;
  [ destruct (startsWith (trim (substringFrom 1 line)) "filament:") eqn:?;
    [ destruct (parseSlotUsage _) as [?|?] eqn:?; cbn [bind ret throw] in *
    | destruct (startsWith (trim (substringFrom 1 line)) "filament_type =") eqn:?;
      [ | destruct (startsWith (trim (substringFrom 1 line)) "filament_colour =") eqn:?;
          [ | destruct (startsWith (trim (substringFrom 1 line)) "filament_settings_id =") eqn:? ] ] ]
  | ].

(** A line changes a field only if it carries that field's directive, and
    only the slot-usage directive can make the scan throw. *)
Lemma scanLine_frame f line f' :
  scanLine f line = inr f' ->
  (hasDirective "filament:" line = false -> slotsUsed f' = slotsUsed f)
  /\ (hasDirective "filament_type =" line = false ->
      filamentTypes f' = filamentTypes f)
  /\ (hasDirective "filament_colour =" line = false ->
      filamentColours f' = filamentColours f)
  /\ (hasDirective "filament_settings_id =" line = false ->
      filamentNames f' = filamentNames f)
  /\ (Forall slotInRange (slotsUsed f) -> Forall slotInRange (slotsUsed f')).
Proof.
  intros H. scan_cases f line; try discriminate;
    injection H as <-; cbn [slotsUsed filamentTypes filamentColours filamentNames];
    repeat split; trivial; try discriminate; try congruence.
  intros _. match goal with E : parseSlotUsage _ = inr _ |- _ =>
    now apply parseSlotUsage_ok in E end.
Qed.

Lemma scanLine_no_slot_directive f line :
  hasDirective "filament:" line = false -> exists f', scanLine f line = inr f'.
Proof.
  intros H. scan_cases f line; try discriminate; eexists; reflexivity.
Qed.

Lemma scanHeader_frame lines : forall f f',
  scanHeader f lines = inr f' ->
  (forallb (fun l => negb (hasDirective "filament:" l)) lines = true ->
   slotsUsed f' = slotsUsed f)
  /\ (forallb (fun l => negb (hasDirective "filament_type =" l)) lines = true ->
      filamentTypes f' = filamentTypes f)
  /\ (forallb (fun l => negb (hasDirective "filament_colour =" l)) lines = true ->
      filamentColours f' = filamentColours f)
  /\ (forallb (fun l => negb (hasDirective "filament_settings_id =" l)) lines = true ->
      filamentNames f' = filamentNames f)
  /\ (Forall slotInRange (slotsUsed f) -> Forall slotInRange (slotsUsed f')).
Proof.
  induction lines as [|line rest IH]; intros f f'; simpl.
  - intros [= <-]. now repeat split.
  - destruct (scanLine f line) as [e|f1] eqn:E; simpl; [discriminate|].
    intros H. destruct (scanLine_frame _ _ _ E) as (A1 & A2 & A3 & A4 & A5).
    destruct (IH _ _ H) as (B1 & B2 & B3 & B4 & B5).
    repeat split; intros Hn;
      try (apply andb_true_iff in Hn as [Hl Hr]; apply negb_true_iff in Hl).
    + now rewrite (B1 Hr), (A1 Hl).
    + now rewrite (B2 Hr), (A2 Hl).
    + now rewrite (B3 Hr), (A3 Hl).
    + now rewrite (B4 Hr), (A4 Hl).
    + auto.
Qed.

Lemma scanHeader_no_slot_directive lines : forall f,
  forallb (fun l => negb (hasDirective "filament:" l)) lines = true ->
  exists f', scanHeader f lines = inr f'.
Proof.
  induction lines as [|line rest IH]; intros f; simpl; [now eexists|].
  intros Hn. apply andb_true_iff in Hn as [Hl Hr]. apply negb_true_iff in Hl.
  destruct (scanLine_no_slot_directive f line Hl) as (f1 & ->). simpl.
  now apply IH.
Qed.

(** ** Profiles for the used slots only *)

(** What a directive line declares: the text after the directive. *)
Definition directiveValue (directive line : string) : string :=
  valueAfter directive (commentOf line).

(** Every slot-usage directive among the lines is one [parseSlotUsage]
    accepts. *)
Definition slotDirectivesParse (lines : list string) : bool :=
  forallb (fun l =>
             negb (hasDirective "filament:" l)
             || match parseSlotUsage (directiveValue "filament:" l) with
                | inr _ => true
                | inl _ => false
                end) lines.

Lemma prefix_split p : forall s,
  String.prefix p s = true -> exists r, s = p ++ r.
Proof.
  induction p as [|a p IH]; intros s.
  - intros _. now exists s.
  - destruct s as [|b s]; simpl; [discriminate|].
    destruct (ascii_dec a b) as [<-|]; [|discriminate].
    intros H. destruct (IH s H) as [r ->]. now exists r.
Qed.

(** The scan tries the slot-usage directive first, but no line carries
    both directives. *)
Lemma type_directive_is_no_slot_directive line :
  hasDirective "filament_type =" line = true ->
  hasDirective "filament:" line = false.
Proof.
  unfold hasDirective, startsWith. intros H.
  apply andb_true_iff in H as [_ H].
  destruct (prefix_split _ _ H) as [r ->]. apply andb_false_r.
Qed.

Lemma scanLine_slot_directive f line :
  hasDirective "filament:" line = true ->
  scanLine f line
  = bind (parseSlotUsage (directiveValue "filament:" line)) (fun slots =>
    ret {| slotsUsed := slots; filamentTypes := filamentTypes f;
           filamentColours := filamentColours f;
           filamentNames := filamentNames f |}).
Proof.
  unfold hasDirective, scanLine, directiveValue, commentOf. intros H.
  apply andb_true_iff in H as [-> ->]. reflexivity.
Qed.

Lemma scanLine_type_directive f line :
  hasDirective "filament_type =" line = true ->
  scanLine f line
  = ret {| slotsUsed := slotsUsed f;
           filamentTypes :=
             map trim (split ";" (directiveValue "filament_type =" line));
           filamentColours := filamentColours f;
           filamentNames := filamentNames f |}.
Proof.
  intros H. pose proof (type_directive_is_no_slot_directive line H) as Hno.
  unfold hasDirective, scanLine, directiveValue, commentOf in *.
  apply andb_true_iff in H as [Hsemi Htype]. rewrite Hsemi in *.
  cbn [negb andb] in *. now rewrite Hno, Htype.
Qed.

Lemma scanHeader_app a : forall f b,
  scanHeader f (a ++ b) = bind (scanHeader f a) (fun f' => scanHeader f' b).
Proof.
  induction a as [|line a IH]; intros f b; trivial.
  simpl. destruct (scanLine f line) as [e|f1]; simpl; trivial.
Qed.

Lemma scanHeader_valid_slot_directives lines : forall f,
  slotDirectivesParse lines = true -> exists f', scanHeader f lines = inr f'.
Proof.
  induction lines as [|line rest IH]; intros f; simpl; [now eexists|].
  intros H. apply andb_true_iff in H as [Hline Hrest].
  destruct (hasDirective "filament:" line) eqn:Hd.
  - rewrite (scanLine_slot_directive f line Hd).
    simpl in Hline.
    destruct (parseSlotUsage (directiveValue "filament:" line)); [discriminate|].
    simpl. now apply IH.
  - destruct (scanLine_no_slot_directive f line Hd) as (f1 & ->). simpl.
    now apply IH.
Qed.

(** The slot list the scan ends with is the one of the last slot-usage
    directive, when the directives before it are accepted. *)
Lemma scanHeader_last_slot_directive before slotLine after slots f :
  slotDirectivesParse before = true ->
  hasDirective "filament:" slotLine = true ->
  parseSlotUsage (directiveValue "filament:" slotLine) = inr slots ->
  lacks "filament:" after = true ->
  exists f',
    scanHeader f (before ++ slotLine :: after) = inr f' /\ slotsUsed f' = slots.
Proof.
  intros Hbefore Hline Hvalue Hafter.
  destruct (scanHeader_valid_slot_directives before f Hbefore) as (f1 & H1).
  rewrite scanHeader_app, H1. simpl.
  rewrite (scanLine_slot_directive f1 slotLine Hline), Hvalue. simpl.
  destruct (scanHeader_no_slot_directive after
              {| slotsUsed := slots; filamentTypes := filamentTypes f1;
                 filamentColours := filamentColours f1;
                 filamentNames := filamentNames f1 |} Hafter) as (f' & H').
  exists f'. split; trivial.
  destruct (scanHeader_frame _ _ _ H') as (Hslots & _). now apply Hslots.
Qed.

(** The type list the scan ends with is the one of the last type
    directive. *)
Lemma scanHeader_last_type_directive before typeLine after f f' :
  scanHeader f (before ++ typeLine :: after) = inr f' ->
  hasDirective "filament_type =" typeLine = true ->
  lacks "filament_type =" after = true ->
  filamentTypes f'
  = map trim (split ";" (directiveValue "filament_type =" typeLine)).
Proof.
  rewrite scanHeader_app. intros Hscan Hline Hafter.
  destruct (scanHeader f before) as [e|f1]; [discriminate|].
  simpl in Hscan. rewrite (scanLine_type_directive f1 typeLine Hline) in Hscan.
  simpl in Hscan.
  destruct (scanHeader_frame _ _ _ Hscan) as (_ & Htypes & _).
  now rewrite (Htypes Hafter).
Qed.

(** C6. One profile per material used, not per material embedded.  Take
    the lines the parser reads, the first 500 of the input.  When the last
    slot-usage directive among them declares [1,2] (white space around the
    entries aside) and the slot-usage directives before it, if any, are
    accepted, and when the last type directive among them lists five
    entries, the result holds exactly two profiles, for slots 1 and 2 with
    tray ids 0 and 1 (slot number minus one) and the first two listed
    types, [detectedMapping = [0;1]] and [totalEmbedded = 5]. *)
Theorem parseGcodeHeader_used_slots_only
    (gcodeContent : string)
    (before after : list string) (slotLine : string)
    (typesBefore typesAfter : list string) (typeLine : string) :
  headerLines gcodeContent = (before ++ slotLine :: after)%list ->
  slotDirectivesParse before = true ->
  hasDirective "filament:" slotLine = true ->
  map trim (split "," (directiveValue "filament:" slotLine)) = ["1"; "2"] ->
  lacks "filament:" after = true ->
  headerLines gcodeContent = (typesBefore ++ typeLine :: typesAfter)%list ->
  hasDirective "filament_type =" typeLine = true ->
  List.length (split ";" (directiveValue "filament_type =" typeLine)) = 5%nat ->
  lacks "filament_type =" typesAfter = true ->
  exists p1 p2,
    parseGcodeHeader gcodeContent
    = inr {| profiles := [p1; p2]; detectedMapping := [0; 1];
             totalEmbedded := 5 |}
    /\ slotNumber p1 = 1 /\ trayId p1 = 0 /\ index p1 = 0
    /\ slotNumber p2 = 2 /\ trayId p2 = 1 /\ index p2 = 1
    /\ type p1
       = elementOr (map trim (split ";" (directiveValue "filament_type =" typeLine)))
                   0 "UNKNOWN"
    /\ type p2
       = elementOr (map trim (split ";" (directiveValue "filament_type =" typeLine)))
                   1 "UNKNOWN".
Proof.
  intros Hlines Hbefore Hslot Hvalue Hafter Htlines Htype Hfive Htafter.
  assert (Hparse : parseSlotUsage (directiveValue "filament:" slotLine)
                   = inr [1; 2])
    by (unfold parseSlotUsage; now rewrite Hvalue).
  destruct (scanHeader_last_slot_directive before slotLine after [1; 2] noFields
              Hbefore Hslot Hparse Hafter) as (f & Hscan & Hslots).
  rewrite <- Hlines in Hscan.
  assert (Htypes : filamentTypes f
                   = map trim (split ";" (directiveValue "filament_type =" typeLine))).
  { apply (scanHeader_last_type_directive typesBefore typeLine typesAfter noFields);
      trivial. now rewrite <- Htlines. }
  rewrite <- Htypes.
  assert (Hlen : List.length (filamentTypes f) = 5%nat)
    by now rewrite Htypes, length_map.
  unfold parseGcodeHeader. rewrite Hscan.
  destruct f as [slots types colours names]. simpl in *. subst slots.
  destruct types as [|t0 [|t1 [|t2 [|t3 [|t4 [|]]]]]]; try discriminate.
  simpl. do 2 eexists. split; [reflexivity|]. simpl. now repeat split.
Qed.

(** A header in which the directives that count come after others: a
    slot-usage directive that is overridden, spaced entries, a first type
    list that is replaced. *)
Definition overriddenGcode : string :=
  unlines
    [ "; filament: 3";
      "; filament_type = PLA";
      ";   filament:  1 , 2";
      "G28";
      "; filament_type =  PETG ; PLA; ABS;TPU ;PA" ].

Lemma parseGcodeHeader_used_slots_only_witness :
  (exists p1 p2,
     parseGcodeHeader twoColourGcode
     = inr {| profiles := [p1; p2]; detectedMapping := [0; 1];
              totalEmbedded := 5 |}
     /\ slotNumber p1 = 1 /\ trayId p1 = 0 /\ index p1 = 0
     /\ slotNumber p2 = 2 /\ trayId p2 = 1 /\ index p2 = 1
     /\ type p1
        = elementOr
            (map trim
               (split ";" (directiveValue "filament_type ="
                             "; filament_type = PETG;PETG;PLA;PLA;TPU")))
            0 "UNKNOWN"
     /\ type p2
        = elementOr
            (map trim
               (split ";" (directiveValue "filament_type ="
                             "; filament_type = PETG;PETG;PLA;PLA;TPU")))
            1 "UNKNOWN")
  /\ (exists p1 p2,
        parseGcodeHeader overriddenGcode
        = inr {| profiles := [p1; p2]; detectedMapping := [0; 1];
                 totalEmbedded := 5 |}
        /\ slotNumber p1 = 1 /\ trayId p1 = 0 /\ index p1 = 0
        /\ slotNumber p2 = 2 /\ trayId p2 = 1 /\ index p2 = 1
        /\ type p1
           = elementOr
               (map trim
                  (split ";" (directiveValue "filament_type ="
                                "; filament_type =  PETG ; PLA; ABS;TPU ;PA")))
               0 "UNKNOWN"
        /\ type p2
           = elementOr
               (map trim
                  (split ";" (directiveValue "filament_type ="
                                "; filament_type =  PETG ; PLA; ABS;TPU ;PA")))
               1 "UNKNOWN").
Proof.
  split.
  - apply (parseGcodeHeader_used_slots_only twoColourGcode
             (firstn 2 (headerLines twoColourGcode))
             (skipn 3 (headerLines twoColourGcode))
             "; filament: 1,2"
             (firstn 8 (headerLines twoColourGcode))
             (skipn 9 (headerLines twoColourGcode))
             "; filament_type = PETG;PETG;PLA;PLA;TPU");
      reflexivity.
  - apply (parseGcodeHeader_used_slots_only overriddenGcode
             ["; filament: 3"; "; filament_type = PLA"]
             ["G28"; "; filament_type =  PETG ; PLA; ABS;TPU ;PA"]
             ";   filament:  1 , 2"
             ["; filament: 3"; "; filament_type = PLA"; ";   filament:  1 , 2";
              "G28"]
             []
             "; filament_type =  PETG ; PLA; ABS;TPU ;PA");
      reflexivity.
Defined.

(** What the conditions of the statement keep out.  A slot-usage directive
    after the one declaring [1,2] replaces it; one before it that is not
    accepted ends the parse; and directives beyond the first 500 lines are
    not read at all. *)
Example slot_directive_not_the_last :
  parseGcodeHeader
    (unlines ["; filament: 1,2"; "; filament_type = A;B;C;D;E"; "; filament: 3"])
  = inr {| profiles :=
             [ {| index := 2; type := "C"; colour := "#FFFFFF";
                  name := "Unknown Profile"; slotNumber := 3; trayId := 2 |} ];
           detectedMapping := [2];
           totalEmbedded := 5 |}
  /\ parseGcodeHeader
       (unlines ["; filament: 9"; "; filament: 1,2"; "; filament_type = A;B;C;D;E"])
     = inl (invalidSlotNumber "9")
  /\ parseGcodeHeader
       (unlines (repeat "G1 X0" 500
                 ++ ["; filament: 1,2"; "; filament_type = A;B;C;D;E"]))
     = inl slotLineNotFound.
Proof. repeat split; vm_compute; reflexivity. Qed.

(** ** withConditionalRetry *)

Import RetryHelper.

Example isRetryableError_examples :
  isRetryableError "ECONNREFUSED" = true
  /\ isRetryableError "Connection timeout" = true
  /\ isRetryableError "Authentication failed" = false
  /\ isRetryableError "Invalid request" = false.
Proof. repeat split. Qed.

Lemma map_seq_succ {A} (f : nat -> A) j :
  map f (seq 1 (S j)) = f 1%nat :: map (fun i => f (S i)) (seq 1 j).
Proof. simpl. f_equal. now rewrite <- seq_shift, map_map. Qed.

Section RetryProperties.

Context {T : Type}.
Variable fn : nat -> result T.
Variable options : RetryOptions.

Local Abbreviation limit := (limitOf options).

Lemma retryLoop_step fuel attempt calls :
  retryLoop fn options (S fuel) attempt calls =
  if (attempt <=? limit)%Z then
    match fn calls with
    | inr value => (ret value, [Invoked])
    | inl err =>
        if negb (isRetryableError err) then (throw err, [Invoked])
        else
          if (attempt + 1 >? limit)%Z then (throw err, [Invoked])
          else
            let '(r, events) := retryLoop fn options fuel (attempt + 1) (S calls) in
            (r, Invoked
                  :: (if onRetry options
                      then [OnRetry (attempt + 1) err (delayBefore options (attempt + 1))]
                      else [])
                  ++ Slept (delayBefore options (attempt + 1)) :: events)%list
    end
  else (throw unknownError, []).
Proof. reflexivity. Qed.

Lemma invocations_retry attempt err delay events :
  invocations (Invoked :: (if onRetry options then [OnRetry attempt err delay] else [])
                 ++ Slept delay :: events)
  = S (invocations events)
  /\ sleeps (Invoked :: (if onRetry options then [OnRetry attempt err delay] else [])
               ++ Slept delay :: events)
     = delay :: sleeps events.
Proof. now destruct (onRetry options). Qed.

(** The loop runs until an invocation succeeds, fails with an error that
    is not retryable, or fails when the retries are used up; [j] failed,
    retryable invocations precede that one. *)
Lemma retryLoop_run (j : nat) : forall fuel attempt calls,
  (j < fuel)%nat ->
  attempt + Z.of_nat j <= limit ->
  (forall i, (i < j)%nat ->
     exists e, fn (calls + i) = inl e /\ isRetryableError e = true) ->
  match fn (calls + j) with
  | inr _ => True
  | inl e => isRetryableError e = false \/ attempt + Z.of_nat j = limit
  end ->
  fst (retryLoop fn options fuel attempt calls) = fn (calls + j)
  /\ invocations (snd (retryLoop fn options fuel attempt calls)) = S j
  /\ sleeps (snd (retryLoop fn options fuel attempt calls))
     = map (fun i => delayBefore options (attempt + Z.of_nat i)) (seq 1 j).
Proof.
  induction j as [|j IH]; intros [|fuel] attempt calls Hf Ha Hpre Hfin;
    try lia; rewrite retryLoop_step.
  - rewrite Nat.add_0_r in *. rewrite Z.add_0_r in *.
    destruct (Z.leb_spec attempt limit); [|lia].
    destruct (fn calls) as [e|v]; [|now repeat split].
    destruct (isRetryableError e); simpl; [|now repeat split].
    destruct Hfin as [|Hfin]; [discriminate|].
    destruct (Z.gtb_spec (attempt + 1) limit); [|lia]. now repeat split.
  - destruct (Z.leb_spec attempt limit); [|lia].
    destruct (Hpre 0%nat) as (e & He & Hr); [lia|].
    rewrite Nat.add_0_r in He. rewrite He, Hr. simpl negb. cbv iota.
    destruct (Z.gtb_spec (attempt + 1) limit); [lia|].
    destruct (IH fuel (attempt + 1) (S calls)) as (H1 & H2 & H3).
    + lia.
    + lia.
    + intros i Hi. destruct (Hpre (S i)) as (e' & He' & Hr'); [lia|].
      exists e'. now rewrite <- He', Nat.add_succ_r.
    + rewrite Nat.add_succ_r in Hfin. simpl.
      destruct (fn (S (calls + j))); trivial.
      destruct Hfin; [now left | right; lia].
    + destruct (retryLoop fn options fuel (attempt + 1) (S calls))
        as [r events]. cbn [fst snd] in *.
      destruct (invocations_retry (attempt + 1) e
                  (delayBefore options (attempt + 1)) events) as [-> ->].
      rewrite H1, H2, H3, Nat.add_succ_r, map_seq_succ. repeat split.
      f_equal. apply map_ext. intros i. f_equal. lia.
Qed.

Lemma withConditionalRetry_not_retryable err :
  0 <= limit -> fn 0%nat = inl err -> isRetryableError err = false ->
  withConditionalRetry fn options = (throw err, [Invoked]).
Proof.
  intros Hlimit Herr Hnot. unfold withConditionalRetry.
  replace (Z.to_nat (limit + 1)) with (S (Z.to_nat limit)) by lia.
  rewrite retryLoop_step.
  destruct (Z.leb_spec 0 limit); [|lia]. now rewrite Herr, Hnot.
Qed.

Lemma withConditionalRetry_exhausted :
  0 <= limit ->
  (forall k, (k <= Z.to_nat limit)%nat ->
     exists err, fn k = inl err /\ isRetryableError err = true) ->
  exists err events,
    withConditionalRetry fn options = (throw err, events)
    /\ fn (Z.to_nat limit) = inl err
    /\ invocations events = S (Z.to_nat limit)
    /\ sleeps events
       = map (fun k => delayBefore options (Z.of_nat k))
             (seq 1 (Z.to_nat limit)).
Proof.
  intros Hlimit Hall. unfold withConditionalRetry.
  destruct (retryLoop_run (Z.to_nat limit) (Z.to_nat (limit + 1)) 0 0%nat)
    as (H1 & H2 & H3).
  - lia.
  - lia.
  - intros i Hi. apply Hall. lia.
  - simpl. destruct (Hall (Z.to_nat limit)) as (e & -> & _); [lia|].
    right. lia.
  - destruct (Hall (Z.to_nat limit)) as (e & He & _); [lia|].
    destruct (retryLoop fn options (Z.to_nat (limit + 1)) 0 0)
      as [r events]. cbn [fst snd] in *.
    change (0 + Z.to_nat limit)%nat with (Z.to_nat limit) in H1.
    rewrite He in H1. subst r.
    exists e, events. rewrite H2, H3. now repeat split.
Qed.

End RetryProperties.

(** The error [connectOnce] rejects with when the broker refuses the access
    code, as the README quotes it, and the options [connect] passes. *)
Definition notAuthorized : Error := "MQTT connection error: Not authorized".

Definition connectOptions : RetryOptions :=
  {| maxRetries := Some 2; initialDelay := None; maxDelay := None;
     backoffMultiplier := None; onRetry := true |}.

(** Every error [connectOnce] rejects with on the ['error'] event is
    classified as retryable, whatever went wrong: the prefix the handler
    puts before the message matches the pattern [connection] by itself. *)
Lemma connectionError_retryable (message : string) :
  isRetryableError (MqttHelper.connectionError message) = true.
Proof.
  unfold isRetryableError, ErrorHelper.somePattern. apply existsb_exists.
  exists "connection". split; [simpl; tauto|]. reflexivity.
Qed.

Example notAuthorized_is_connectionError :
  notAuthorized = MqttHelper.connectionError "Not authorized".
Proof. reflexivity. Qed.

(** The FTP client wraps its connection errors in a message that matches
    no pattern by itself: there a refused login is thrown at once. *)
Example ftp_login_failure_is_not_retried :
  isRetryableError
    (ErrorHelper.ftpConnectionFailed "192.168.1.50" 990 "530 Login incorrect")
  = false
  /\ withConditionalRetry (T := unit)
       (fun _ => inl (ErrorHelper.ftpConnectionFailed "192.168.1.50" 990
                        "530 Login incorrect"))
       connectOptions
     = (throw (ErrorHelper.ftpConnectionFailed "192.168.1.50" 990
                 "530 Login incorrect"),
        [Invoked]).
Proof. split; reflexivity. Qed.

(** C8. An authentication failure is not terminal in [connect]: when the
    broker refuses the access code, [connectOnce] rejects with a message
    that matches the retryable pattern [connection], and
    [withConditionalRetry], with the options [connect] passes, invokes the
    operation three times, sleeping 1000 and 2000 ms in between, before
    it throws the error; the claim has it invoked once. *)
Lemma auth_failure_is_retried :
  ErrorHelper.isAuthError notAuthorized = true
  /\ isRetryableError notAuthorized = true
  /\ withConditionalRetry (T := unit) (fun _ => inl notAuthorized) connectOptions
     = (throw notAuthorized,
        [Invoked; OnRetry 1 notAuthorized 1000; Slept 1000;
         Invoked; OnRetry 2 notAuthorized 2000; Slept 2000;
         Invoked])
  /\ invocations
       (snd (withConditionalRetry (T := unit) (fun _ => inl notAuthorized)
               connectOptions)) = 3%nat.
Proof. repeat split. Qed.

(** ** Command encoder *)

Import Commands.

(** The public methods of [BambuLabCommands] that build a command, with
    their arguments. *)
Inductive EncoderCall : Type :=
| StartPrint (fileName : string) (options : option PrintCommandOptions)
| PausePrint
| ResumePrint
| StopPrint
| GetPushAll
| StartPushing
| StopPushing
| SetLED (node : LEDNode) (mode : LEDMode) (onTime offTime : option Z)
| SendGcode (gcode : string) (param : option string)
| HomeAxes
| SetSpeed (speed : Z)
| SetChamberFan (speed : Z)
| SetPartCoolingFan (speed : Z)
| UnloadFilament (trayId : Z)
| LoadFilament (trayId : Z)
| ResumeFilamentLoad
| SetBedTemperature (temperature : Z)
| SetNozzleTemperature (temperature : Z)
| TurnOffHeaters
| EmergencyStop.

Definition encode (call : EncoderCall) : method AnyCommand :=
  match call with
  | StartPrint fileName options => startPrint fileName options
  | PausePrint => pausePrint
  | ResumePrint => resumePrint
  | StopPrint => stopPrint
  | GetPushAll => getPushAll
  | StartPushing => startPushing
  | StopPushing => stopPushing
  | SetLED node mode onTime offTime => setLED node mode onTime offTime
  | SendGcode gcode param => sendGcode gcode param
  | HomeAxes => homeAxes
  | SetSpeed speed => setSpeed speed
  | SetChamberFan speed => setChamberFan speed
  | SetPartCoolingFan speed => setPartCoolingFan speed
  | UnloadFilament trayId => unloadFilament trayId
  | LoadFilament trayId => loadFilament trayId
  | ResumeFilamentLoad => resumeFilamentLoad
  | SetBedTemperature temperature => setBedTemperature temperature
  | SetNozzleTemperature temperature => setNozzleTemperature temperature
  | TurnOffHeaters => turnOffHeaters
  | EmergencyStop => emergencyStop
  end.

Example encode_examples :
  fst (encode PausePrint newCommands)
  = PrintCommand (Print.bare "0" Print.pause)
  /\ fst (encode (SetSpeed 200) {| sequenceId := 41 |})
     = SystemCommand
         (Some {| System.sequence_id := "41"; System.command := "print_speed";
                  System.param := Some "166"; System.led_node := None;
                  System.led_mode := None; System.led_on_time := None;
                  System.led_off_time := None |})
  /\ fst (encode (SetChamberFan 50) {| sequenceId := 7 |})
     = GcodeLineCommand
         {| GcodeLine.sequence_id := "7"; GcodeLine.command := "M106";
            GcodeLine.param := Some "P2 S128" |}.
Proof. repeat split. Qed.

(** C9. Round trip of the correlation identifier: whatever command the
    encoder builds (print control, pushed telemetry, system, raw motion),
    looking the sequence id up under the command's variant key, as
    [publishCommand] does, gives back the identifier the encoder assigned,
    the decimal text of its counter at the time of the call; the counter
    then moves on by one. *)
Theorem sequence_id_round_trip (call : EncoderCall) (this : BambuLabCommands) :
  MqttHelper.commandSeqIdOf (fst (encode call this))
  = Some (fst (getNextSequenceId this))
  /\ fst (getNextSequenceId this) = showZ (sequenceId this)
  /\ sequenceId (snd (encode call this)) = sequenceId this + 1.
Proof. destruct call; repeat split. Qed.

(** ** Inbound buffer *)

Definition lastN {A} (n : nat) (l : list A) : list A :=
  skipn (List.length l - n) l.

(** The payloads of a run of arrivals that parse, on whatever topic. *)
Definition parsedMessages (arrivals : list MqttHelper.Inbound)
    : list MqttHelper.MQTTMessage :=
  flat_map (fun i => match i with
                     | MqttHelper.Parsed m | MqttHelper.ParsedOffTopic m => [m]
                     | MqttHelper.Unparseable _ | MqttHelper.Closed => []
                     end) arrivals.

Lemma lastN_all {A} n (l : list A) : (List.length l <= n)%nat -> lastN n l = l.
Proof.
  intros H. unfold lastN. now replace (List.length l - n)%nat with 0%nat by lia.
Qed.

Lemma lastN_length {A} n (l : list A) :
  List.length (lastN n l) = Nat.min (List.length l) n.
Proof. unfold lastN. rewrite length_skipn. lia. Qed.

Lemma lastN_app_ge {A} n (a x : list A) :
  (n <= List.length x)%nat -> lastN n (a ++ x) = lastN n x.
Proof.
  intros H. unfold lastN. rewrite length_app, skipn_app.
  rewrite skipn_all2 by lia. simpl. f_equal. lia.
Qed.

Lemma lastN_lastN_app {A} n (l r : list A) :
  lastN n (lastN n l ++ r) = lastN n (l ++ r).
Proof.
  destruct (Nat.le_gt_cases (List.length l) n) as [H|H].
  - now rewrite (lastN_all n l H).
  - rewrite <- (firstn_skipn (List.length l - n) l) at 2.
    rewrite <- app_assoc. fold (lastN n l). symmetry. apply lastN_app_ge.
    rewrite length_app, lastN_length. lia.
Qed.

Section Buffer.
Import MqttHelper.

(** Only the push touches the buffer: what the update callback does, and
    what the [catch] block records, leave it as the push made it. *)
Lemma onMessage_buffer this inbound :
  messageBuffer (onMessage this inbound)
  = match inbound with
    | Parsed m | ParsedOffTopic m => messageBuffer (pushMessage this m)
    | Unparseable _ | Closed => messageBuffer this
    end.
Proof.
  destruct inbound as [m|m|e|]; trivial.
  cbn [onMessage updateCallback pushMessage].
  destruct (updateCallback this) as [callback|]; trivial.
  now destruct (callback m).
Qed.

Lemma pushMessage_buffer this m :
  (List.length (messageBuffer this) <= Constants.MAX_MESSAGE_BUFFER)%nat ->
  messageBuffer (pushMessage this m)
  = lastN Constants.MAX_MESSAGE_BUFFER (messageBuffer this ++ [m]).
Proof.
  intros H. cbn [pushMessage messageBuffer].
  destruct (Nat.leb_spec Constants.MAX_MESSAGE_BUFFER
              (List.length (messageBuffer this))) as [Hfull|Hroom].
  - destruct (messageBuffer this) as [|oldest rest] eqn:E.
    + simpl in Hfull. unfold Constants.MAX_MESSAGE_BUFFER in Hfull. lia.
    + unfold lastN. rewrite length_app. simpl List.length.
      replace (S (List.length rest) + 1 - Constants.MAX_MESSAGE_BUFFER)%nat
        with 1%nat by (simpl in H, Hfull; lia).
      reflexivity.
  - symmetry. apply lastN_all. rewrite length_app. simpl. lia.
Qed.

Lemma onMessage_parsed this m :
  (List.length (messageBuffer this) <= Constants.MAX_MESSAGE_BUFFER)%nat ->
  messageBuffer (onMessage this (Parsed m))
  = lastN Constants.MAX_MESSAGE_BUFFER (messageBuffer this ++ [m]).
Proof. intros H. rewrite onMessage_buffer. now apply pushMessage_buffer. Qed.

(** From any buffer within capacity, the buffer after a run of arrivals is
    the most recent [MAX_MESSAGE_BUFFER] of what it held followed by what
    was parsed. *)
Lemma receive_buffer arrivals : forall this,
  (List.length (messageBuffer this) <= Constants.MAX_MESSAGE_BUFFER)%nat ->
  messageBuffer (receive this arrivals)
  = lastN Constants.MAX_MESSAGE_BUFFER
      (messageBuffer this ++ parsedMessages arrivals).
Proof.
  induction arrivals as [|i rest IH]; intros this H.
  - simpl. rewrite app_nil_r. symmetry. now apply lastN_all.
  - change (receive this (i :: rest)) with (receive (onMessage this i) rest).
    pose proof (onMessage_buffer this i) as Hi.
    destruct i as [m|m|e|];
      rewrite ?(pushMessage_buffer this _ H) in Hi;
      rewrite IH; rewrite Hi; trivial;
      try (rewrite lastN_length; lia);
      rewrite lastN_lastN_app, <- app_assoc; reflexivity.
Qed.

(** C2. The inbound buffer never exceeds its capacity of 100: starting
    from an empty buffer, after any sequence of arrivals it holds exactly
    the most recent [min (n, 100)] of the [n] messages parsed, in arrival
    order; and an insertion into a full buffer drops the oldest entry and
    appends the new one. *)
Theorem messageBuffer_keeps_most_recent
    (this : BambuLabMqttClient) (arrivals : list Inbound) :
  messageBuffer this = [] ->
  messageBuffer (receive this arrivals) = lastN 100 (parsedMessages arrivals)
  /\ List.length (messageBuffer (receive this arrivals))
     = Nat.min (List.length (parsedMessages arrivals)) 100
  /\ (forall full oldest rest m,
        messageBuffer full = oldest :: rest ->
        List.length (messageBuffer full) = 100%nat ->
        messageBuffer (onMessage full (Parsed m)) = (rest ++ [m])%list).
Proof.
  intros Hempty.
  assert (Hbuf : messageBuffer (receive this arrivals)
                 = lastN 100 (parsedMessages arrivals)).
  { rewrite receive_buffer; rewrite Hempty; [reflexivity | simpl; lia]. }
  split; [exact Hbuf|]. split.
  - rewrite Hbuf. apply lastN_length.
  - intros full oldest rest m Hfull Hlen. rewrite onMessage_buffer.
    cbn [pushMessage messageBuffer]. rewrite Hlen, Hfull. reflexivity.
Qed.

End Buffer.

(** A client right after [connect], and inbound messages of the two kinds
    the device sends: a status push and the echo of a command. *)
Definition connectedClient : MqttHelper.BambuLabMqttClient :=
  {| MqttHelper.connected := true; MqttHelper.messageBuffer := [];
     MqttHelper.updateCallback := None;
     MqttHelper.lastParseError := None; MqttHelper.parseErrorHistory := [];
     MqttHelper.published := [] |}.

Definition statusPush (n : Z) : MqttHelper.MQTTMessage :=
  MqttHelper.Object
    {| MqttHelper.print :=
         Some {| MqttHelper.sequence_id := Some ("push" ++ showZ n);
                 MqttHelper.command := Some "push_status" |};
       MqttHelper.pushing := None; MqttHelper.system := None;
       MqttHelper.gcode_line := None;
       MqttHelper.payload := "status " ++ showZ n |}.

Definition printEcho (id verb : string) : MqttHelper.MQTTMessage :=
  MqttHelper.Object
    {| MqttHelper.print :=
         Some {| MqttHelper.sequence_id := Some id;
                 MqttHelper.command := Some verb |};
       MqttHelper.pushing := None; MqttHelper.system := None;
       MqttHelper.gcode_line := None;
       MqttHelper.payload := "echo " ++ verb |}.

(** A burst of 150 status pushes, numbered from 0. *)
Definition burst : list MqttHelper.Inbound :=
  map (fun n => MqttHelper.Parsed (statusPush (Z.of_nat n))) (seq 0 150).

Example burst_keeps_last_hundred :
  MqttHelper.messageBuffer (MqttHelper.receive connectedClient burst)
  = map (fun n => statusPush (Z.of_nat n)) (seq 50 100).
Proof. vm_compute. reflexivity. Qed.

Lemma messageBuffer_keeps_most_recent_witness :
  MqttHelper.messageBuffer (MqttHelper.receive connectedClient burst)
  = lastN 100 (parsedMessages burst)
  /\ List.length (MqttHelper.messageBuffer (MqttHelper.receive connectedClient burst))
     = Nat.min (List.length (parsedMessages burst)) 100
  /\ (forall full oldest rest m,
        MqttHelper.messageBuffer full = oldest :: rest ->
        List.length (MqttHelper.messageBuffer full) = 100%nat ->
        MqttHelper.messageBuffer (MqttHelper.onMessage full (MqttHelper.Parsed m))
        = (rest ++ [m])%list).
Proof.
  apply (messageBuffer_keeps_most_recent connectedClient burst).
  reflexivity.
Defined.

(** ** publishCommand *)

(** The buffer at the run of the poll callback that follows [rounds], when
    the wait began on an empty buffer and no earlier run resolved: the
    most recent 100 of the messages parsed since the wait began. *)
Definition heard (rounds : list (list MqttHelper.Inbound))
    : list MqttHelper.MQTTMessage :=
  lastN 100 (parsedMessages (List.concat rounds)).

Section Correlation.
Import MqttHelper.

(** An entry a search goes past: it is not [null], and the test does not
    hold of it. *)
Definition passedOver (test : MQTTMessage -> bool) (msg : MQTTMessage) : Prop :=
  msg <> Null /\ test msg = false.

(** The buffer answers a command carrying [id] with [m]: [m] is the first
    entry bearing [id], and the entries before it are gone past; or every
    entry is gone past, and [m] is the last entry and is truthy. *)
Definition answers (id : string) (buffer : list MQTTMessage) (m : MQTTMessage)
    : Prop :=
  (exists front back,
     buffer = (front ++ m :: back)%list
     /\ bears id m = true
     /\ Forall (passedOver (bears id)) front)
  \/ (Forall (passedOver (bears id)) buffer
      /\ isTruthy m = true
      /\ exists front, buffer = (front ++ [m])%list).

(** The buffer makes the call wait: it is empty, or every entry is gone
    past and the last one is falsy. *)
Definition waits (id : string) (buffer : list MQTTMessage) : Prop :=
  buffer = []
  \/ (Forall (passedOver (bears id)) buffer
      /\ exists front m, buffer = (front ++ [m])%list /\ isTruthy m = false).

Lemma onObject_not_null test msg : onObject test msg = true -> msg <> Null.
Proof. now destruct msg. Qed.

Lemma onObject_truthy test msg : onObject test msg = true -> isTruthy msg = true.
Proof. now destruct msg. Qed.

Lemma findMessage_passes key test front : forall rest,
  Forall (passedOver test) front ->
  findMessage key test (front ++ rest) = findMessage key test rest.
Proof.
  induction front as [|a front IH]; intros rest Hf; trivial.
  inversion Hf as [|? ? [Hnull Htest] Hf']; subst.
  change ((a :: front) ++ rest)%list with (a :: (front ++ rest))%list.
  cbn [findMessage]. rewrite Htest, (IH rest Hf').
  now destruct a.
Qed.

Lemma findMessage_found key test buffer m :
  findMessage key test buffer = inr (Some m)
  <-> exists front back,
        buffer = (front ++ m :: back)%list
        /\ test m = true /\ m <> Null
        /\ Forall (passedOver test) front.
Proof.
  split.
  - induction buffer as [|a rest IH]; [discriminate|].
    cbn [findMessage]. destruct (test a) eqn:Ha.
    + intros H. assert (a <> Null /\ a = m) as [Hnull ->]
        by (destruct a; split; try discriminate; now inversion H).
      now exists [], rest.
    + intros H. assert (Hnull : a <> Null) by (now destruct a).
      assert (Hrest : findMessage key test rest = inr (Some m))
        by (now destruct a).
      destruct (IH Hrest) as (front & back & -> & Hm & Hn & Hf).
      exists (a :: front), back. repeat split; trivial.
      constructor; trivial. now split.
  - intros (front & back & -> & Hm & Hn & Hf).
    rewrite (findMessage_passes key test front _ Hf).
    cbn [findMessage]. rewrite Hm. now destruct m.
Qed.

Lemma findMessage_none key test buffer :
  findMessage key test buffer = inr None <-> Forall (passedOver test) buffer.
Proof.
  split.
  - induction buffer as [|a rest IH]; [constructor|].
    cbn [findMessage]. destruct (test a) eqn:Ha.
    + now destruct a.
    + intros H. constructor.
      * split; trivial. now destruct a.
      * apply IH. now destruct a.
  - intros Hf. rewrite <- (app_nil_r buffer).
    now rewrite (findMessage_passes key test buffer [] Hf).
Qed.

(** A search throws exactly when a [null] entry comes before any entry of
    which the test holds. *)
Lemma findMessage_throws key test buffer error :
  findMessage key test buffer = inl error
  <-> error = nullDereference key
      /\ exists front back,
           buffer = (front ++ Null :: back)%list
           /\ Forall (passedOver test) front.
Proof.
  split.
  - induction buffer as [|a rest IH]; [discriminate|].
    cbn [findMessage]. destruct (test a) eqn:Ha.
    + destruct a; try discriminate.
      intros H. inversion H. split; trivial. now exists [], rest.
    + intros H. destruct a.
      * destruct (IH H) as (He & front & back & -> & Hf).
        split; trivial. exists (Object fields :: front), back.
        split; trivial. constructor; trivial. now split.
      * destruct (IH H) as (He & front & back & -> & Hf).
        split; trivial. exists (Primitive truthy text :: front), back.
        split; trivial. constructor; trivial. now split.
      * inversion H. split; trivial. now exists [], rest.
  - intros (-> & front & back & -> & Hf).
    now rewrite (findMessage_passes key test front _ Hf).
Qed.

Lemma nth_error_last {A} (front : list A) (a : A) :
  nth_error (front ++ [a]) (List.length (front ++ [a]) - 1) = Some a.
Proof.
  rewrite length_app. simpl.
  replace (List.length front + 1 - 1)%nat with (List.length front) by lia.
  rewrite nth_error_app2 by lia. now rewrite Nat.sub_diag.
Qed.

(** The fallback of a run of a poll callback: it resolves with the last
    entry of the buffer when that entry is truthy, and not otherwise. *)
Lemma orLastTruthy_none buffer m :
  orLastTruthy None buffer = Resolves m
  <-> isTruthy m = true /\ exists front, buffer = (front ++ [m])%list.
Proof.
  unfold orLastTruthy. split.
  - destruct buffer as [|b bs]; [discriminate|].
    destruct (exists_last (l := b :: bs)) as (front & a & ->); [discriminate|].
    rewrite nth_error_last. destruct (isTruthy a) eqn:Ha; [|discriminate].
    intros H. inversion H; subst. split; trivial. now exists front.
  - intros (Hm & front & ->). now rewrite nth_error_last, Hm.
Qed.

Lemma orLastTruthy_some found buffer :
  orLastTruthy (Some found) buffer
  = if isTruthy found then Resolves found else Pending.
Proof. reflexivity. Qed.

(** A run of the poll callback resolves with [m] exactly when the buffer
    answers with [m]. *)
Lemma pollBuffer_with_id id buffer :
  id <> "" ->
  pollBuffer (Some id) buffer
  = match buffer with
    | [] => Pending
    | _ =>
        match findMessage "print" (bears id) buffer with
        | inl error => Throws error
        | inr found => orLastTruthy found buffer
        end
    end.
Proof. intros Hid. destruct id; [congruence|reflexivity]. Qed.

Lemma pollBuffer_answers id buffer m :
  id <> "" ->
  pollBuffer (Some id) buffer = Resolves m <-> answers id buffer m.
Proof.
  intros Hid. rewrite (pollBuffer_with_id id buffer Hid). unfold answers.
  split.
  - destruct buffer as [|b bs]; [discriminate|].
    destruct (findMessage "print" (bears id) (b :: bs)) as [e|[found|]] eqn:E;
      [discriminate| |].
    + apply findMessage_found in E. destruct E as (front & back & Hb & Hm & _ & Hf).
      rewrite orLastTruthy_some, (onObject_truthy _ _ Hm).
      intros H. inversion H; subst. left. now exists front, back.
    + apply findMessage_none in E. intros H.
      apply orLastTruthy_none in H. right. now split.
  - intros [(front & back & Hb & Hm & Hf)|(Hf & Hm & front & Hb)].
    + assert (E : findMessage "print" (bears id) buffer = inr (Some m)).
      { apply findMessage_found. exists front, back.
        repeat split; trivial. now apply (onObject_not_null _ _ Hm). }
      rewrite E. destruct buffer as [|b bs]; [now destruct front|].
      now rewrite orLastTruthy_some, (onObject_truthy _ _ Hm).
    + assert (E : findMessage "print" (bears id) buffer = inr None)
        by now apply findMessage_none.
      rewrite E. destruct buffer as [|b bs]; [now destruct front|].
      apply orLastTruthy_none. split; trivial. now exists front.
Qed.

Lemma orLastTruthy_pending buffer :
  buffer <> [] ->
  orLastTruthy None buffer = Pending
  <-> exists front m, buffer = (front ++ [m])%list /\ isTruthy m = false.
Proof.
  intros Hne. destruct (exists_last Hne) as (front & a & ->).
  unfold orLastTruthy. rewrite nth_error_last. split.
  - destruct (isTruthy a) eqn:Ha; [discriminate|]. intros _. now exists front, a.
  - intros (front' & m & Heq & Hm). apply app_inj_tail in Heq as [_ ->].
    now rewrite Hm.
Qed.

(** A run of the poll callback leaves the call pending, without throwing,
    exactly when the buffer makes the call wait. *)
Lemma pollBuffer_waits id buffer :
  id <> "" ->
  pollBuffer (Some id) buffer = Pending <-> waits id buffer.
Proof.
  intros Hid. rewrite (pollBuffer_with_id id buffer Hid). unfold waits.
  destruct buffer as [|b bs]; [split; [now left|trivial]|].
  assert (Hne : b :: bs <> []) by discriminate.
  destruct (findMessage "print" (bears id) (b :: bs)) as [e|[found|]] eqn:E.
  - split; [discriminate|]. intros [|[Hf _]]; [discriminate|].
    apply (findMessage_none "print") in Hf. congruence.
  - split.
    + apply findMessage_found in E. destruct E as (_ & _ & _ & Hm & _).
      rewrite orLastTruthy_some, (onObject_truthy _ _ Hm). discriminate.
    + intros [|[Hf _]]; [discriminate|].
      apply (findMessage_none "print") in Hf. congruence.
  - apply findMessage_none in E. rewrite (orLastTruthy_pending _ Hne). split.
    + intros H. right. now split.
    + now intros [|[_ H]].
Qed.

Lemma parsedMessages_app a b :
  parsedMessages (a ++ b) = (parsedMessages a ++ parsedMessages b)%list.
Proof. apply flat_map_app. Qed.

Lemma heard_length rounds : (List.length (heard rounds) <= 100)%nat.
Proof. unfold heard. rewrite lastN_length. lia. Qed.

(** One more round of arrivals on the buffer of the rounds before. *)
Lemma heard_snoc done arrivals :
  lastN 100 (heard done ++ parsedMessages arrivals) = heard (done ++ [arrivals]).
Proof.
  unfold heard. rewrite lastN_lastN_app, concat_app, parsedMessages_app.
  simpl. now rewrite app_nil_r.
Qed.

Lemma receive_heard this done arrivals :
  messageBuffer this = heard done ->
  messageBuffer (receive this arrivals) = heard (done ++ [arrivals]).
Proof.
  intros Hb. rewrite receive_buffer; rewrite Hb.
  - apply heard_snoc.
  - apply heard_length.
Qed.

Lemma waits_shift id done r earlier :
  (forall k, (k < List.length (r :: earlier))%nat ->
     waits id (heard (done ++ firstn (S k) (r :: earlier)))) ->
  waits id (heard (done ++ [r]))
  /\ (forall k, (k < List.length earlier)%nat ->
        waits id (heard ((done ++ [r]) ++ firstn (S k) earlier))).
Proof.
  intros H. split.
  - apply (H 0%nat). simpl. lia.
  - intros k Hk. rewrite <- app_assoc. apply (H (S k)). simpl. lia.
Qed.

Lemma awaitResponse_first_answer id (Hid : id <> "") earlier :
  forall done this arrivals later m,
  messageBuffer this = heard done ->
  (forall k, (k < List.length earlier)%nat ->
     waits id (heard (done ++ firstn (S k) earlier))) ->
  answers id (heard (done ++ earlier ++ [arrivals])) m ->
  fst (awaitResponse (Some id) this (earlier ++ arrivals :: later))
  = inr (responseReceived m).
Proof.
  induction earlier as [|r earlier IH];
    intros done this arrivals later m Hb Hwaits Hanswer.
  - cbn [app awaitResponse] in *. rewrite (receive_heard this done arrivals Hb).
    apply (pollBuffer_answers id _ m Hid) in Hanswer. now rewrite Hanswer.
  - destruct (waits_shift id done r earlier Hwaits) as [Hr Hrest].
    change ((r :: earlier) ++ arrivals :: later)%list
      with (r :: (earlier ++ arrivals :: later))%list.
    cbn [awaitResponse]. rewrite (receive_heard this done r Hb).
    apply (pollBuffer_waits id _ Hid) in Hr. rewrite Hr.
    apply (IH (done ++ [r])%list); trivial.
    + now apply receive_heard.
    + now rewrite <- app_assoc.
Qed.

Lemma awaitResponse_never_answered id (Hid : id <> "") rounds :
  forall done this,
  messageBuffer this = heard done ->
  (forall k, (k < List.length rounds)%nat ->
     waits id (heard (done ++ firstn (S k) rounds))) ->
  fst (awaitResponse (Some id) this rounds)
  = inl (ErrorHelper.commandResponseTimeout 30000).
Proof.
  induction rounds as [|r rounds IH]; intros done this Hb Hwaits; trivial.
  destruct (waits_shift id done r rounds Hwaits) as [Hr Hrest].
  cbn [awaitResponse]. rewrite (receive_heard this done r Hb).
  apply (pollBuffer_waits id _ Hid) in Hr. rewrite Hr.
  apply (IH (done ++ [r])%list); trivial. now apply receive_heard.
Qed.

(** C1 (as amended). A connected client waiting for the response to a
    command with a non-empty sequence id polls the buffer, which holds the
    most recent 100 of the messages parsed since the wait began.  A run of
    the poll callback that finds the buffer empty, or finds in it neither a
    null payload nor a message bearing the id and a falsy payload in the
    last place, leaves the call waiting.  The first run after such runs at
    which the buffer has an answer resolves the call with it: with the
    first buffered message bearing the id, if no null payload was buffered
    before it; otherwise, when no null payload is buffered at all, with the
    most recently received message, if that one is truthy.  What arrives
    after that run plays no part.  When every run before the timeout
    leaves the call waiting, the call fails with the command-response
    timeout. *)
Theorem publishCommand_resolves_at_first_answer
    (this : BambuLabMqttClient) (command : AnyCommand) (id : string) :
  connected this = true ->
  commandSeqIdOf command = Some id ->
  id <> "" ->
  (forall earlier arrivals later m,
     (forall k, (k < List.length earlier)%nat ->
        waits id (heard (firstn (S k) earlier))) ->
     answers id (heard (earlier ++ [arrivals])) m ->
     fst (publishCommand this command true (earlier ++ arrivals :: later))
     = inr (responseReceived m))
  /\ (forall rounds,
        (forall k, (k < List.length rounds)%nat ->
           waits id (heard (firstn (S k) rounds))) ->
        fst (publishCommand this command true rounds)
        = inl (ErrorHelper.commandResponseTimeout 30000)).
Proof.
  intros Hc Hcmd Hid. unfold publishCommand. rewrite Hc, Hcmd. cbn [negb].
  set (start := publish (setBuffer this []) command).
  assert (Hstart : messageBuffer start = heard []) by reflexivity.
  split.
  - intros earlier arrivals later m Hwaits Hanswer.
    now apply (awaitResponse_first_answer id Hid earlier []).
  - intros rounds Hwaits.
    now apply (awaitResponse_never_answered id Hid rounds []).
Qed.

(** The three outcomes of a run exclude one another and leave one case
    over, the run that throws: it does so exactly when a null payload is
    buffered before any message bearing the id.  The exception is caught
    by nothing in the client. *)
Lemma pollBuffer_throws id buffer error :
  id <> "" ->
  pollBuffer (Some id) buffer = Throws error
  <-> error = nullDereference "print"
      /\ exists front back,
           buffer = (front ++ Null :: back)%list
           /\ Forall (passedOver (bears id)) front.
Proof.
  intros Hid. rewrite (pollBuffer_with_id id buffer Hid).
  rewrite <- findMessage_throws.
  destruct buffer as [|b bs]; [split; discriminate|].
  destruct (findMessage "print" (bears id) (b :: bs)) as [e|[found|]] eqn:E.
  - split; intros H; inversion H; reflexivity.
  - apply findMessage_found in E. destruct E as (_ & _ & _ & Hm & _).
    rewrite orLastTruthy_some, (onObject_truthy _ _ Hm). split; discriminate.
  - split; [|discriminate]. unfold orLastTruthy.
    destruct (nth_error _ _) as [r|]; [destruct (isTruthy r)|]; discriminate.
Qed.

(** When every payload buffered so far is a JSON object, as the payloads
    of the device are, a run of the poll callback over a non-empty buffer
    always has an answer. *)
Lemma objects_always_answer id buffer :
  buffer <> [] ->
  Forall (fun msg => exists fields, msg = Object fields) buffer ->
  exists m, answers id buffer m.
Proof.
  intros Hne Hobj.
  destruct (findMessage "print" (bears id) buffer) as [e|[m|]] eqn:E.
  - apply findMessage_throws in E. destruct E as (_ & front & back & -> & _).
    apply Forall_app in Hobj. destruct Hobj as [_ Hobj].
    inversion Hobj as [|? ? [fields Hfields] ?]. discriminate.
  - apply findMessage_found in E. destruct E as (front & back & Hb & Hm & _ & Hf).
    exists m. left. now exists front, back.
  - apply findMessage_none in E.
    destruct (exists_last Hne) as (front & a & ->).
    exists a. right. split; trivial. split; [|now exists front].
    apply Forall_app in Hobj. destruct Hobj as [_ Hobj].
    inversion Hobj as [|? ? [fields ->] ?]. reflexivity.
Qed.

End Correlation.

Definition pauseCommand : AnyCommand := fst (pausePrint newCommands).

(** C1 (as stated) fails: a status push arrives, the poll callback runs and
    resolves the call with it; the echo bearing the command's id arrives in
    the next round, well before the timeout, and is never returned. *)
Lemma late_response_is_missed :
  MqttHelper.commandSeqIdOf pauseCommand = Some "0"
  /\ MqttHelper.bears "0" (printEcho "0" "pause") = true
  /\ MqttHelper.bears "0" (statusPush 1) = false
  /\ fst (MqttHelper.publishCommand connectedClient pauseCommand true
            [ [MqttHelper.Parsed (statusPush 1)];
              [MqttHelper.Parsed (printEcho "0" "pause")] ])
     = inr (MqttHelper.responseReceived (statusPush 1))
  /\ statusPush 1 <> printEcho "0" "pause".
Proof. repeat split. discriminate. Qed.

(** Payloads that parse to something other than an object: the number 0
    and [null]. *)
Definition zeroPayload : MqttHelper.MQTTMessage := MqttHelper.Primitive false "0".

Definition falsyThenEcho : list (list MqttHelper.Inbound) :=
  [ [MqttHelper.Parsed zeroPayload];
    [MqttHelper.Unparseable "Unexpected token"] ].

Definition echoAmongPushes : list MqttHelper.Inbound :=
  [MqttHelper.Parsed (statusPush 1);
   MqttHelper.Parsed (printEcho "0" "pause");
   MqttHelper.Parsed (statusPush 2)].

Definition nothingUsable : list (list MqttHelper.Inbound) :=
  [ []; [MqttHelper.Unparseable "Unexpected end of JSON input"];
    [MqttHelper.Parsed zeroPayload; MqttHelper.Closed] ].

Lemma waits_rounds id rounds :
  id <> "" ->
  forallb (fun k => match MqttHelper.pollBuffer (Some id) (heard (firstn (S k) rounds)) with
                    | MqttHelper.Pending => true
                    | _ => false
                    end) (seq 0 (List.length rounds)) = true ->
  forall k, (k < List.length rounds)%nat -> waits id (heard (firstn (S k) rounds)).
Proof.
  intros Hid H k Hk. apply pollBuffer_waits; trivial.
  rewrite forallb_forall in H. specialize (H k (proj2 (in_seq _ _ _) (conj (Nat.le_0_l k) Hk))).
  now destruct (MqttHelper.pollBuffer (Some id) (heard (firstn (S k) rounds))).
Qed.

Lemma publishCommand_resolves_at_first_answer_witness :
  fst (MqttHelper.publishCommand connectedClient pauseCommand true
         (falsyThenEcho ++ echoAmongPushes :: []))
  = inr (MqttHelper.responseReceived (printEcho "0" "pause"))
  /\ fst (MqttHelper.publishCommand connectedClient pauseCommand true nothingUsable)
     = inl (ErrorHelper.commandResponseTimeout 30000).
Proof.
  pose proof (publishCommand_resolves_at_first_answer connectedClient
                pauseCommand "0" eq_refl eq_refl) as [Hfirst Htimeout];
    [discriminate|].
  split.
  - apply (Hfirst falsyThenEcho echoAmongPushes []).
    + apply waits_rounds; [discriminate|reflexivity].
    + apply pollBuffer_answers; [discriminate|reflexivity].
  - apply Htimeout. apply waits_rounds; [discriminate|reflexivity].
Defined.

(** The two payloads at work: a [0] that arrives alone leaves the call
    pending although the buffer is not empty, and a [null] ahead of the
    echo makes the run of the callback throw. *)
Example falsy_payload_keeps_waiting :
  MqttHelper.pollBuffer (Some "0") [zeroPayload] = MqttHelper.Pending
  /\ MqttHelper.pollBuffer (Some "0")
       [MqttHelper.Null; printEcho "0" "pause"]
     = MqttHelper.Throws "Cannot read properties of null (reading 'print')"
  /\ MqttHelper.pollBuffer (Some "0")
       [printEcho "0" "pause"; MqttHelper.Null]
     = MqttHelper.Resolves (printEcho "0" "pause").
Proof. repeat split. Qed.

(* ===================================================================== *)
(** * Further properties of the helpers *)
(* ===================================================================== *)

(** ** The message handler and the waits of the MQTT client *)




(** The arrivals without the payloads [JSON.parse] rejects. *)
Definition onlyParsed (arrivals : list MqttHelper.Inbound)
    : list MqttHelper.Inbound :=
  filter (fun i => match i with
                   | MqttHelper.Unparseable _ => false
                   | _ => true
                   end) arrivals.

(** The buffer after one more parsed message. *)
Definition pushBounded (buffer : list MqttHelper.MQTTMessage)
    (m : MqttHelper.MQTTMessage) : list MqttHelper.MQTTMessage :=
  ((if (Constants.MAX_MESSAGE_BUFFER <=? List.length buffer)%nat
    then MqttHelper.shift buffer else buffer) ++ [m])%list.




Section Handler.
Import MqttHelper.

Lemma receive_app this a b : receive this (a ++ b) = receive (receive this a) b.
Proof. apply fold_left_app. Qed.

Lemma receive_buffer_fold arrivals : forall this,
  messageBuffer (receive this arrivals)
  = fold_left pushBounded (parsedMessages arrivals) (messageBuffer this).
Proof.
  induction arrivals as [|i rest IH]; intros this; trivial.
  change (receive this (i :: rest)) with (receive (onMessage this i) rest).
  rewrite IH, onMessage_buffer. now destruct i.
Qed.

(** The handler publishes nothing and keeps the registered callback. *)
Lemma onMessage_frame this inbound :
  published (onMessage this inbound) = published this
  /\ updateCallback (onMessage this inbound) = updateCallback this.
Proof.
  destruct inbound as [m|m|e|]; try now split.
  cbn [onMessage updateCallback pushMessage].
  destruct (updateCallback this) as [callback|] eqn:E; [|now split].
  now destruct (callback m).
Qed.

Lemma receive_frame arrivals : forall this,
  published (receive this arrivals) = published this
  /\ updateCallback (receive this arrivals) = updateCallback this.
Proof.
  induction arrivals as [|i rest IH]; intros this; [now split|].
  change (receive this (i :: rest)) with (receive (onMessage this i) rest).
  destruct (IH (onMessage this i)) as [-> ->]. apply onMessage_frame.
Qed.




End Handler.

Definition tokenError (n : nat) : MqttHelper.Inbound :=
  MqttHelper.Unparseable ("Unexpected token at " ++ showZ (Z.of_nat n)).

(** A callback that cannot take a payload without keys, registered on a
    client that has recorded nothing yet. *)
Definition strictCallback : MqttHelper.UpdateCallback :=
  fun status =>
    match status with
    | MqttHelper.Object _ => None
    | _ => Some "status has no print key"
    end.

Definition subscribedClient : MqttHelper.BambuLabMqttClient :=
  {| MqttHelper.connected := true; MqttHelper.messageBuffer := [];
     MqttHelper.updateCallback := Some strictCallback;
     MqttHelper.lastParseError := None; MqttHelper.parseErrorHistory := [];
     MqttHelper.published := [] |}.

(** Twelve parse errors, then a number on the report topic, then the same
    number on another topic. *)
Definition noisyArrivals : list MqttHelper.Inbound :=
  (map tokenError (seq 0 12)
   ++ [MqttHelper.Parsed (MqttHelper.Primitive true "7");
       MqttHelper.ParsedOffTopic (MqttHelper.Primitive true "7")])%list.


(** The exception of the callback is the last error on record, and the
    message it was thrown on is in the buffer all the same. *)
Example callback_exception_is_recorded :
  MqttHelper.getLastParseError (MqttHelper.receive subscribedClient noisyArrivals)
  = Some "status has no print key"
  /\ List.length
       (MqttHelper.getParseErrorHistory
          (MqttHelper.receive subscribedClient noisyArrivals)) = 10%nat
  /\ MqttHelper.messageBuffer (MqttHelper.receive subscribedClient noisyArrivals)
     = [MqttHelper.Primitive true "7"; MqttHelper.Primitive true "7"].
Proof. repeat split. Qed.

Section Waits.
Import MqttHelper.

(** Two rounds bring the same parsed messages. *)
Definition sameParsed (a b : list Inbound) : Prop :=
  parsedMessages a = parsedMessages b.

Lemma parsedMessages_onlyParsed arrivals :
  parsedMessages (onlyParsed arrivals) = parsedMessages arrivals.
Proof.
  induction arrivals as [|i rest IH]; trivial.
  destruct i; simpl; now rewrite ?IH.
Qed.

Lemma awaitResponse_parsed_only commandSeqId rounds1 : forall rounds2 this1 this2,
  Forall2 sameParsed rounds1 rounds2 ->
  messageBuffer this1 = messageBuffer this2 ->
  fst (awaitResponse commandSeqId this1 rounds1)
  = fst (awaitResponse commandSeqId this2 rounds2)
  /\ messageBuffer (snd (awaitResponse commandSeqId this1 rounds1))
     = messageBuffer (snd (awaitResponse commandSeqId this2 rounds2)).
Proof.
  induction rounds1 as [|a rounds1 IH]; intros rounds2 this1 this2 Hr Hb;
    inversion Hr as [|? b ? rest Hab Hrest]; subst; [now split|].
  cbn [awaitResponse].
  assert (Hb' : messageBuffer (receive this1 a) = messageBuffer (receive this2 b))
    by now rewrite !receive_buffer_fold, Hab, Hb.
  rewrite Hb'.
  destruct (pollBuffer commandSeqId (messageBuffer (receive this2 b)));
    [now split| |]; now apply IH.
Qed.

Lemma awaitResponse_frame commandSeqId rounds : forall this,
  published (snd (awaitResponse commandSeqId this rounds)) = published this
  /\ (forall r, fst (awaitResponse commandSeqId this rounds) = inr r ->
      messageBuffer (snd (awaitResponse commandSeqId this rounds)) = []).
Proof.
  induction rounds as [|a rounds IH]; intros this; cbn [awaitResponse].
  - repeat split. discriminate.
  - destruct (receive_frame a this) as [Hp _].
    destruct (pollBuffer commandSeqId (messageBuffer (receive this a)));
      [now repeat split| |];
      destruct (IH (receive this a)) as (H1 & H2); rewrite H1, Hp;
      now repeat split.
Qed.

(** X2. A payload that does not parse never disturbs correlation: the
    outcome of [publishCommand], and the buffer it leaves, are the same as
    if the unparseable payloads had never arrived. *)
Theorem publishCommand_ignores_unparseable
    (this : BambuLabMqttClient) (command : AnyCommand) (waitForResponse : bool)
    (rounds : list (list Inbound)) :
  fst (publishCommand this command waitForResponse rounds)
  = fst (publishCommand this command waitForResponse (map onlyParsed rounds))
  /\ messageBuffer (snd (publishCommand this command waitForResponse rounds))
     = messageBuffer
         (snd (publishCommand this command waitForResponse (map onlyParsed rounds))).
Proof.
  unfold publishCommand.
  destruct (connected this); cbn [negb]; [|now split].
  destruct waitForResponse; cbn [negb]; [|now split].
  apply awaitResponse_parsed_only; trivial.
  induction rounds as [|a rounds IH]; constructor; trivial.
  unfold sameParsed. now rewrite parsedMessages_onlyParsed.
Qed.

(** X3. [publishCommand] publishes the command exactly once when the client
    is connected on entry, and nothing otherwise; what happens during the
    wait, the loss of the connection included, neither repeats nor
    retracts the publication. *)
Theorem publishCommand_publishes_once
    (this : BambuLabMqttClient) (command : AnyCommand) (waitForResponse : bool)
    (rounds : list (list Inbound)) :
  published (snd (publishCommand this command waitForResponse rounds))
  = if connected this then (published this ++ [command])%list
    else published this.
Proof.
  unfold publishCommand. destruct (connected this) eqn:Hc; cbn [negb]; trivial.
  destruct waitForResponse; cbn [negb]; trivial.
  destruct (awaitResponse_frame (commandSeqIdOf command)
              rounds (publish (setBuffer this []) command)) as (H1 & _).
  now rewrite H1.
Qed.

(** X4. A waited [publishCommand] starts from a cleared buffer: its outcome
    does not depend on what the buffer, or the parse error record, held
    before the call; and when it resolves, the buffer is left empty. *)
Theorem publishCommand_ignores_stale_messages
    (this1 this2 : BambuLabMqttClient) (command : AnyCommand)
    (rounds : list (list Inbound)) :
  connected this1 = connected this2 ->
  fst (publishCommand this1 command true rounds)
  = fst (publishCommand this2 command true rounds)
  /\ (forall response,
        fst (publishCommand this1 command true rounds) = inr response ->
        messageBuffer (snd (publishCommand this1 command true rounds)) = []).
Proof.
  intros Hc. unfold publishCommand. rewrite Hc.
  destruct (connected this2); cbn [negb]; [|split; [trivial|discriminate]].
  split.
  - apply awaitResponse_parsed_only; trivial.
    induction rounds; constructor; trivial. reflexivity.
  - apply awaitResponse_frame.
Qed.

End Waits.

Definition staleClient : MqttHelper.BambuLabMqttClient :=
  {| MqttHelper.connected := true;
     MqttHelper.messageBuffer := [printEcho "0" "pause"; statusPush 9];
     MqttHelper.updateCallback := None;
     MqttHelper.lastParseError := Some "Unexpected end of JSON input";
     MqttHelper.parseErrorHistory := ["Unexpected end of JSON input"];
     MqttHelper.published := [pauseCommand] |}.

Lemma publishCommand_ignores_stale_messages_witness :
  fst (MqttHelper.publishCommand staleClient pauseCommand true
         [[]; [MqttHelper.Parsed (statusPush 1)]])
  = fst (MqttHelper.publishCommand connectedClient pauseCommand true
           [[]; [MqttHelper.Parsed (statusPush 1)]])
  /\ (forall response,
        fst (MqttHelper.publishCommand staleClient pauseCommand true
               [[]; [MqttHelper.Parsed (statusPush 1)]]) = inr response ->
        MqttHelper.messageBuffer
          (snd (MqttHelper.publishCommand staleClient pauseCommand true
                  [[]; [MqttHelper.Parsed (statusPush 1)]])) = []).
Proof.
  apply (publishCommand_ignores_stale_messages staleClient connectedClient
           pauseCommand [[]; [MqttHelper.Parsed (statusPush 1)]]).
  reflexivity.
Defined.

(** The connection is read on entry only: when it is lost during the wait
    the command stays published, the client ends up not connected, and the
    wait still resolves with what was buffered. *)
Example connection_lost_during_wait :
  MqttHelper.published
    (snd (MqttHelper.publishCommand connectedClient pauseCommand true
            [[MqttHelper.Closed]; [MqttHelper.Parsed (statusPush 1)]]))
  = [pauseCommand]
  /\ MqttHelper.connected
       (snd (MqttHelper.publishCommand connectedClient pauseCommand true
               [[MqttHelper.Closed]; [MqttHelper.Parsed (statusPush 1)]]))
     = false
  /\ fst (MqttHelper.publishCommand connectedClient pauseCommand true
            [[MqttHelper.Closed]; [MqttHelper.Parsed (statusPush 1)]])
     = inr (MqttHelper.responseReceived (statusPush 1)).
Proof. repeat split. Qed.

(** ** getStatus *)

Section StatusWait.
Import MqttHelper.

Variable hasAmsData : MessageObject -> bool.

(** The two tests of the poll callback of [getStatus]. *)
Definition carriesAms : MQTTMessage -> bool := onObject hasAmsData.

Definition acknowledges (expectedSeqId : string) : MQTTMessage -> bool :=
  onObject (fun msg => echoes (pushing msg) expectedSeqId).

(** The buffer answers a status request carrying [id] with [m]: [m] is
    the first entry with AMS data, and the entries before it are gone
    past; or the search for AMS data goes past every entry, and [m] is
    the first entry echoing [id] under [pushing]; or both searches go
    past every entry, and [m] is the last entry and is truthy. *)
Definition answersStatus (id : string) (buffer : list MQTTMessage)
    (m : MQTTMessage) : Prop :=
  (exists front back,
     buffer = (front ++ m :: back)%list
     /\ carriesAms m = true
     /\ Forall (passedOver carriesAms) front)
  \/ (Forall (passedOver carriesAms) buffer
      /\ exists front back,
           buffer = (front ++ m :: back)%list
           /\ acknowledges id m = true
           /\ Forall (passedOver (acknowledges id)) front)
  \/ (Forall (passedOver carriesAms) buffer
      /\ Forall (passedOver (acknowledges id)) buffer
      /\ isTruthy m = true
      /\ exists front, buffer = (front ++ [m])%list).

(** The buffer makes the request wait: it is empty, or both searches go
    past every entry and the last entry is falsy. *)
Definition waitsStatus (id : string) (buffer : list MQTTMessage) : Prop :=
  buffer = []
  \/ (Forall (passedOver carriesAms) buffer
      /\ Forall (passedOver (acknowledges id)) buffer
      /\ exists front m, buffer = (front ++ [m])%list /\ isTruthy m = false).

Lemma pollStatus_answers id buffer m :
  pollStatus hasAmsData id buffer = Resolves m <-> answersStatus id buffer m.
Proof.
  unfold pollStatus, answersStatus. fold carriesAms. fold (acknowledges id).
  split.
  - destruct buffer as [|b bs]; [discriminate|].
    destruct (findMessage "print" carriesAms (b :: bs)) as [e|[found|]] eqn:E;
      [discriminate| |].
    + apply findMessage_found in E. destruct E as (front & back & Hb & Hm & _ & Hf).
      rewrite orLastTruthy_some, (onObject_truthy _ _ Hm).
      intros H. inversion H; subst. left. now exists front, back.
    + apply findMessage_none in E.
      destruct (findMessage "pushing" (acknowledges id) (b :: bs))
        as [e|[found|]] eqn:E2; [discriminate| |].
      * apply findMessage_found in E2.
        destruct E2 as (front & back & Hb & Hm & _ & Hf).
        rewrite orLastTruthy_some, (onObject_truthy _ _ Hm).
        intros H. inversion H; subst. right. left. split; trivial.
        now exists front, back.
      * apply findMessage_none in E2. intros H.
        apply orLastTruthy_none in H. right. right. now repeat split.
  - intros [(front & back & Hb & Hm & Hf)
           |[(Hams & front & back & Hb & Hm & Hf)
            |(Hams & Hack & Hm & front & Hb)]].
    + assert (E : findMessage "print" carriesAms buffer = inr (Some m)).
      { apply findMessage_found. exists front, back.
        repeat split; trivial. now apply (onObject_not_null _ _ Hm). }
      rewrite E. destruct buffer as [|b bs]; [now destruct front|].
      now rewrite orLastTruthy_some, (onObject_truthy _ _ Hm).
    + assert (E : findMessage "print" carriesAms buffer = inr None)
        by now apply findMessage_none.
      assert (E2 : findMessage "pushing" (acknowledges id) buffer = inr (Some m)).
      { apply findMessage_found. exists front, back.
        repeat split; trivial. now apply (onObject_not_null _ _ Hm). }
      rewrite E, E2. destruct buffer as [|b bs]; [now destruct front|].
      now rewrite orLastTruthy_some, (onObject_truthy _ _ Hm).
    + assert (E : findMessage "print" carriesAms buffer = inr None)
        by now apply findMessage_none.
      assert (E2 : findMessage "pushing" (acknowledges id) buffer = inr None)
        by now apply findMessage_none.
      rewrite E, E2. destruct buffer as [|b bs]; [now destruct front|].
      apply orLastTruthy_none. split; trivial. now exists front.
Qed.

Lemma pollStatus_waits id buffer :
  pollStatus hasAmsData id buffer = Pending <-> waitsStatus id buffer.
Proof.
  unfold pollStatus, waitsStatus. fold carriesAms. fold (acknowledges id).
  destruct buffer as [|b bs]; [split; [now left|trivial]|].
  assert (Hne : b :: bs <> []) by discriminate.
  destruct (findMessage "print" carriesAms (b :: bs)) as [e|[found|]] eqn:E.
  - split; [discriminate|]. intros [|[Hf _]]; [discriminate|].
    apply (findMessage_none "print") in Hf. congruence.
  - split.
    + apply findMessage_found in E. destruct E as (_ & _ & _ & Hm & _).
      rewrite orLastTruthy_some, (onObject_truthy _ _ Hm). discriminate.
    + intros [|[Hf _]]; [discriminate|].
      apply (findMessage_none "print") in Hf. congruence.
  - apply findMessage_none in E.
    destruct (findMessage "pushing" (acknowledges id) (b :: bs))
      as [e|[found|]] eqn:E2.
    + split; [discriminate|]. intros [|(_ & Hf & _)]; [discriminate|].
      apply (findMessage_none "pushing") in Hf. congruence.
    + split.
      * apply findMessage_found in E2. destruct E2 as (_ & _ & _ & Hm & _).
        rewrite orLastTruthy_some, (onObject_truthy _ _ Hm). discriminate.
      * intros [|(_ & Hf & _)]; [discriminate|].
        apply (findMessage_none "pushing") in Hf. congruence.
    + apply findMessage_none in E2. rewrite (orLastTruthy_pending _ Hne). split.
      * intros H. right. now repeat split.
      * now intros [|(_ & _ & H)].
Qed.

Lemma waitsStatus_shift id done r earlier :
  (forall k, (k < List.length (r :: earlier))%nat ->
     waitsStatus id (heard (done ++ firstn (S k) (r :: earlier)))) ->
  waitsStatus id (heard (done ++ [r]))
  /\ (forall k, (k < List.length earlier)%nat ->
        waitsStatus id (heard ((done ++ [r]) ++ firstn (S k) earlier))).
Proof.
  intros H. split.
  - apply (H 0%nat). simpl. lia.
  - intros k Hk. rewrite <- app_assoc. apply (H (S k)). simpl. lia.
Qed.

Lemma awaitStatus_first_answer id earlier :
  forall done this arrivals later m,
  messageBuffer this = heard done ->
  (forall k, (k < List.length earlier)%nat ->
     waitsStatus id (heard (done ++ firstn (S k) earlier))) ->
  answersStatus id (heard (done ++ earlier ++ [arrivals])) m ->
  fst (awaitStatus hasAmsData id this (earlier ++ arrivals :: later)) = inr m.
Proof.
  induction earlier as [|r earlier IH];
    intros done this arrivals later m Hb Hwaits Hanswer.
  - cbn [app awaitStatus] in *. rewrite (receive_heard this done arrivals Hb).
    apply pollStatus_answers in Hanswer. now rewrite Hanswer.
  - destruct (waitsStatus_shift id done r earlier Hwaits) as [Hr Hrest].
    change ((r :: earlier) ++ arrivals :: later)%list
      with (r :: (earlier ++ arrivals :: later))%list.
    cbn [awaitStatus]. rewrite (receive_heard this done r Hb).
    apply pollStatus_waits in Hr. rewrite Hr.
    apply (IH (done ++ [r])%list); trivial.
    + now apply receive_heard.
    + now rewrite <- app_assoc.
Qed.

Lemma awaitStatus_never_answered id rounds :
  forall done this,
  messageBuffer this = heard done ->
  (forall k, (k < List.length rounds)%nat ->
     waitsStatus id (heard (done ++ firstn (S k) rounds))) ->
  fst (awaitStatus hasAmsData id this rounds)
  = inl (ErrorHelper.statusTimeout 30000).
Proof.
  induction rounds as [|r rounds IH]; intros done this Hb Hwaits; trivial.
  destruct (waitsStatus_shift id done r rounds Hwaits) as [Hr Hrest].
  cbn [awaitStatus]. rewrite (receive_heard this done r Hb).
  apply pollStatus_waits in Hr. rewrite Hr.
  apply (IH (done ++ [r])%list); trivial. now apply receive_heard.
Qed.

(** X5. The wait of [getStatus], started on an empty buffer.  A run of the
    poll callback that finds the buffer empty, or finds in it no null
    payload, no message with AMS data, no message echoing the request's
    sequence id and a falsy payload in the last place, leaves the request
    waiting.  The first run after such runs at which the buffer has an
    answer resolves with it: with the first buffered message carrying AMS
    data, even when a message echoing the sequence id was received before
    it, if no null payload was buffered before it; otherwise, when no null
    payload is buffered at all, with the first message echoing the
    sequence id under [pushing]; otherwise with the most recent message,
    if that one is truthy.  When every run leaves the request waiting, it
    fails with the status timeout. *)
Theorem awaitStatus_precedence
    (this : BambuLabMqttClient) (expectedSeqId : string) :
  messageBuffer this = [] ->
  (forall earlier arrivals later status,
     (forall k, (k < List.length earlier)%nat ->
        waitsStatus expectedSeqId (heard (firstn (S k) earlier))) ->
     answersStatus expectedSeqId (heard (earlier ++ [arrivals])) status ->
     fst (awaitStatus hasAmsData expectedSeqId this (earlier ++ arrivals :: later))
     = inr status)
  /\ (forall rounds,
        (forall k, (k < List.length rounds)%nat ->
           waitsStatus expectedSeqId (heard (firstn (S k) rounds))) ->
        fst (awaitStatus hasAmsData expectedSeqId this rounds)
        = inl (ErrorHelper.statusTimeout 30000)).
Proof.
  intros Hstart. split.
  - intros earlier arrivals later status Hwaits Hanswer.
    now apply (awaitStatus_first_answer expectedSeqId earlier []).
  - intros rounds Hwaits.
    now apply (awaitStatus_never_answered expectedSeqId rounds []).
Qed.

Lemma waitsStatus_rounds id rounds :
  forallb (fun k => match pollStatus hasAmsData id (heard (firstn (S k) rounds)) with
                    | Pending => true
                    | _ => false
                    end) (seq 0 (List.length rounds)) = true ->
  forall k, (k < List.length rounds)%nat ->
    waitsStatus id (heard (firstn (S k) rounds)).
Proof.
  intros H k Hk. apply pollStatus_waits.
  rewrite forallb_forall in H.
  specialize (H k (proj2 (in_seq _ _ _) (conj (Nat.le_0_l k) Hk))).
  now destruct (pollStatus hasAmsData id (heard (firstn (S k) rounds))).
Qed.

End StatusWait.

(** A full snapshot, recognised by the [ams] key in its payload, and the
    acknowledgement of a [pushall] request. *)
Definition snapshot : MqttHelper.MQTTMessage :=
  MqttHelper.Object
    {| MqttHelper.print :=
         Some {| MqttHelper.sequence_id := Some "2041";
                 MqttHelper.command := Some "push_status" |};
       MqttHelper.pushing := None; MqttHelper.system := None;
       MqttHelper.gcode_line := None;
       MqttHelper.payload := "print with ams" |}.

Definition pushallAck (id : string) : MqttHelper.MQTTMessage :=
  MqttHelper.Object
    {| MqttHelper.print := None;
       MqttHelper.pushing :=
         Some {| MqttHelper.sequence_id := Some id;
                 MqttHelper.command := Some "pushall" |};
       MqttHelper.system := None; MqttHelper.gcode_line := None;
       MqttHelper.payload := "pushing ack" |}.

Definition payloadHasAms (m : MqttHelper.MessageObject) : bool :=
  includes (MqttHelper.payload m) "ams".

Definition falsyFirst : list (list MqttHelper.Inbound) :=
  [ []; [MqttHelper.Parsed zeroPayload] ].

Definition ackThenSnapshot : list MqttHelper.Inbound :=
  [MqttHelper.Parsed (pushallAck "1700000000000");
   MqttHelper.Parsed snapshot;
   MqttHelper.Parsed (statusPush 3)].

Lemma awaitStatus_precedence_witness :
  fst (MqttHelper.awaitStatus payloadHasAms "1700000000000" connectedClient
         (falsyFirst ++ ackThenSnapshot :: []))
  = inr snapshot
  /\ fst (MqttHelper.awaitStatus payloadHasAms "1700000000000" connectedClient
            nothingUsable)
     = inl (ErrorHelper.statusTimeout 30000).
Proof.
  pose proof (awaitStatus_precedence payloadHasAms connectedClient
                "1700000000000" eq_refl) as [Hfirst Htimeout].
  split.
  - apply (Hfirst falsyFirst ackThenSnapshot []).
    + apply waitsStatus_rounds. reflexivity.
    + apply pollStatus_answers. reflexivity.
  - apply Htimeout. apply waitsStatus_rounds. reflexivity.
Defined.

(** ** The two retry wrappers *)

(** X25. What the conditional retry wrapper does by the text of the error.
    With a non-negative retry limit: an operation whose first failure
    carries a message matching none of the retryable patterns
    (ECONNREFUSED, ECONNRESET, ETIMEDOUT, ENOTFOUND, timeout, network,
    connection, in any case) is invoked exactly once, nothing is slept, and
    that error is thrown; an operation that keeps failing with errors
    matching one of the patterns is invoked [limit + 1] times, with a sleep
    of [min (initialDelay * multiplier ^ (k - 1)) maxDelay] before the
    [k]-th retry, and the error of the last invocation is thrown. *)
Theorem withConditionalRetry_classified (options : RetryOptions) :
  0 <= limitOf options ->
  (forall (T : Type) (fn : nat -> result T) (err : Error),
     fn 0%nat = inl err -> isRetryableError err = false ->
     withConditionalRetry fn options = (throw err, [Invoked]))
  /\ (forall (T : Type) (fn : nat -> result T),
       (forall k, (k <= Z.to_nat (limitOf options))%nat ->
          exists err, fn k = inl err /\ isRetryableError err = true) ->
       exists err events,
         withConditionalRetry fn options = (throw err, events)
         /\ fn (Z.to_nat (limitOf options)) = inl err
         /\ invocations events = S (Z.to_nat (limitOf options))
         /\ sleeps events
            = map (fun k => delayBefore options (Z.of_nat k))
                  (seq 1 (Z.to_nat (limitOf options)))).
Proof.
  intros Hlimit. split.
  - intros T fn err. now apply withConditionalRetry_not_retryable.
  - intros T fn. now apply withConditionalRetry_exhausted.
Qed.

Lemma withConditionalRetry_classified_witness :
  0 <= limitOf connectOptions
  /\ withConditionalRetry (T := unit) (fun _ => inl "Authentication failed")
       connectOptions
     = (throw "Authentication failed", [Invoked])
  /\ exists err events,
       withConditionalRetry (T := unit) (fun _ => inl "ECONNREFUSED")
         connectOptions = (throw err, events)
       /\ inl (B := unit) "ECONNREFUSED" = inl err
       /\ invocations events = 3%nat
       /\ sleeps events = [1000; 2000].
Proof.
  assert (H : 0 <= limitOf connectOptions) by (vm_compute; discriminate).
  split; [exact H|]. split.
  - apply (proj1 (withConditionalRetry_classified connectOptions H) unit
             (fun _ => inl "Authentication failed") "Authentication failed");
      reflexivity.
  - apply (proj2 (withConditionalRetry_classified connectOptions H) unit
             (fun _ => inl "ECONNREFUSED")).
    intros k _. now exists "ECONNREFUSED".
Defined.

Section RetryBounds.

Context {T : Type}.
Variable fn : nat -> result T.
Variable options : RetryOptions.

Lemma retryLoop_invocations fuel : forall attempt calls,
  (invocations (snd (retryLoop fn options fuel attempt calls)) <= fuel)%nat.
Proof.
  induction fuel as [|fuel IH]; intros attempt calls; [cbn; lia|].
  rewrite retryLoop_step.
  destruct (attempt <=? limitOf options)%Z; [|cbn; lia].
  destruct (fn calls) as [e|v]; [|cbn; lia].
  destruct (negb (isRetryableError e)); [cbn; lia|].
  destruct (attempt + 1 >? limitOf options)%Z; [cbn; lia|].
  specialize (IH (attempt + 1) (S calls)).
  destruct (retryLoop fn options fuel (attempt + 1) (S calls)) as [r events].
  cbn [snd] in *.
  destruct (invocations_retry options (attempt + 1) e
              (delayBefore options (attempt + 1)) events) as [-> _].
  lia.
Qed.

Lemma withRetryLoop_step fuel attempt calls lastError :
  withRetryLoop fn options (S fuel) attempt calls lastError =
  if (attempt <=? limitOf options)%Z then
    match fn calls with
    | inr value => (ret value, [Invoked])
    | inl err =>
        if (attempt + 1 >? limitOf options)%Z then (throw err, [Invoked])
        else
          let '(r, events) :=
            withRetryLoop fn options fuel (attempt + 1) (S calls) (Some err) in
          (r, Invoked
                :: (if onRetry options
                    then [OnRetry (attempt + 1) err (delayBefore options (attempt + 1))]
                    else [])
                ++ Slept (delayBefore options (attempt + 1)) :: events)%list
    end
  else (throw (match lastError with Some e => e | None => unknownError end), []).
Proof. reflexivity. Qed.

Lemma withRetryLoop_invocations fuel : forall attempt calls lastError,
  (invocations (snd (withRetryLoop fn options fuel attempt calls lastError))
   <= fuel)%nat.
Proof.
  induction fuel as [|fuel IH]; intros attempt calls lastError; [cbn; lia|].
  rewrite withRetryLoop_step.
  destruct (attempt <=? limitOf options)%Z; [|cbn; lia].
  destruct (fn calls) as [e|v]; [|cbn; lia].
  destruct (attempt + 1 >? limitOf options)%Z; [cbn; lia|].
  specialize (IH (attempt + 1) (S calls) (Some e)).
  destruct (withRetryLoop fn options fuel (attempt + 1) (S calls) (Some e))
    as [r events].
  cbn [snd] in *.
  destruct (invocations_retry options (attempt + 1) e
              (delayBefore options (attempt + 1)) events) as [-> _].
  lia.
Qed.

(** X6. Neither wrapper ever invokes the operation more than
    [maxRetries + 1] times, whatever the operation does; with a negative
    [maxRetries] the operation is not invoked at all and the call fails with
    the unknown-error message; otherwise it is invoked at least once. *)
Theorem retry_invocations_bounded :
  (invocations (snd (withConditionalRetry fn options))
   <= Z.to_nat (limitOf options + 1))%nat
  /\ (invocations (snd (withRetry fn options))
      <= Z.to_nat (limitOf options + 1))%nat
  /\ if (limitOf options <? 0)%Z
     then withConditionalRetry fn options = (throw unknownError, [])
          /\ withRetry fn options = (throw unknownError, [])
     else (1 <= invocations (snd (withConditionalRetry fn options)))%nat
          /\ (1 <= invocations (snd (withRetry fn options)))%nat.
Proof.
  unfold withConditionalRetry, withRetry. repeat split.
  - apply retryLoop_invocations.
  - apply withRetryLoop_invocations.
  - destruct (Z.ltb_spec (limitOf options) 0) as [Hneg|Hpos].
    + replace (Z.to_nat (limitOf options + 1)) with 0%nat by lia. now split.
    + replace (Z.to_nat (limitOf options + 1))
        with (S (Z.to_nat (limitOf options))) by lia.
      split.
      * rewrite retryLoop_step.
        destruct (Z.leb_spec 0 (limitOf options)); [|lia].
        destruct (fn 0%nat) as [e|v]; [|cbn; lia].
        destruct (negb (isRetryableError e)); [cbn; lia|].
        destruct (0 + 1 >? limitOf options)%Z; [cbn; lia|].
        destruct (retryLoop fn options _ _ _) as [r events]. cbn [snd].
        destruct (invocations_retry options (0 + 1) e
                    (delayBefore options (0 + 1)) events) as [-> _].
        lia.
      * rewrite withRetryLoop_step.
        destruct (Z.leb_spec 0 (limitOf options)); [|lia].
        destruct (fn 0%nat) as [e|v]; [|cbn; lia].
        destruct (0 + 1 >? limitOf options)%Z; [cbn; lia|].
        destruct (withRetryLoop fn options _ _ _ _) as [r events]. cbn [snd].
        destruct (invocations_retry options (0 + 1) e
                    (delayBefore options (0 + 1)) events) as [-> _].
        lia.
Qed.

(** X7. Retry until success: when the first [j] invocations fail with
    retryable errors, [j] is within the retry limit and the next invocation
    succeeds, [withConditionalRetry] returns that value after exactly
    [j + 1] invocations, having slept the backed-off delays of retries 1 to
    [j] in between. *)
Theorem withConditionalRetry_until_success (j : nat) (value : T) :
  Z.of_nat j <= limitOf options ->
  (forall i, (i < j)%nat ->
     exists e, fn i = inl e /\ isRetryableError e = true) ->
  fn j = inr value ->
  fst (withConditionalRetry fn options) = inr value
  /\ invocations (snd (withConditionalRetry fn options)) = S j
  /\ sleeps (snd (withConditionalRetry fn options))
     = map (fun k => delayBefore options (Z.of_nat k)) (seq 1 j).
Proof.
  intros Hj Hpre Hok. unfold withConditionalRetry.
  destruct (retryLoop_run fn options j (Z.to_nat (limitOf options + 1)) 0 0%nat)
    as (H1 & H2 & H3); try lia.
  - exact Hpre.
  - simpl. now rewrite Hok.
  - rewrite H1, H2, H3. simpl. now rewrite Hok.
Qed.

(** X8. On an operation all of whose failures are retryable, [withRetry]
    and [withConditionalRetry] behave alike: same outcome, same invocations,
    same callbacks and sleeps. *)
Theorem withRetry_agrees_on_retryable :
  (forall k e, fn k = inl e -> isRetryableError e = true) ->
  withRetry fn options = withConditionalRetry fn options.
Proof.
  intros Hall. unfold withRetry, withConditionalRetry. cbv zeta.
  assert (H : forall fuel attempt calls lastError,
             fuel = Z.to_nat (limitOf options + 1 - attempt) ->
             attempt <= limitOf options \/ lastError = None ->
             withRetryLoop fn options fuel attempt calls lastError
             = retryLoop fn options fuel attempt calls).
  { induction fuel as [|fuel IH]; intros attempt calls lastError Hf Hinv.
    - destruct Hinv as [Hle | ->]; [lia | reflexivity].
    - rewrite withRetryLoop_step, retryLoop_step.
      destruct (Z.leb_spec attempt (limitOf options)); [|lia].
      destruct (fn calls) as [e|v] eqn:E; trivial.
      rewrite (Hall _ _ E). cbn [negb].
      destruct (Z.gtb_spec (attempt + 1) (limitOf options)); trivial.
      rewrite IH; trivial; [lia | left; lia]. }
  apply H; [f_equal; lia | now right].
Qed.

End RetryBounds.

Definition flakyTwice (k : nat) : result string :=
  if (k <? 2)%nat then inl "ETIMEDOUT" else inr "connected".

Lemma withConditionalRetry_until_success_witness :
  fst (withConditionalRetry flakyTwice connectOptions) = inr "connected"
  /\ invocations (snd (withConditionalRetry flakyTwice connectOptions)) = 3%nat
  /\ sleeps (snd (withConditionalRetry flakyTwice connectOptions))
     = map (fun k => delayBefore connectOptions (Z.of_nat k)) (seq 1 2).
Proof.
  apply (withConditionalRetry_until_success flakyTwice connectOptions 2 "connected").
  - vm_compute. discriminate.
  - intros [|[|i]] Hi; try lia; now exists "ETIMEDOUT".
  - reflexivity.
Defined.

Lemma withRetry_agrees_on_retryable_witness :
  withRetry flakyTwice connectOptions
  = withConditionalRetry flakyTwice connectOptions.
Proof.
  apply (withRetry_agrees_on_retryable flakyTwice connectOptions).
  intros [|[|k]] e; unfold flakyTwice; simpl; intros [= <-]; reflexivity.
Defined.

(** X9. Backoff: with a non-negative initial delay and a multiplier of at
    least one, the delay before a retry never shrinks from one retry to the
    next and never exceeds [maxDelay]; the first delay is the initial delay,
    capped. *)
Theorem backoff_delays_grow_to_cap (options : RetryOptions) (k : Z) :
  0 <= orDefault (initialDelay options) Constants.INITIAL_DELAY ->
  1 <= orDefault (backoffMultiplier options) Constants.BACKOFF_MULTIPLIER ->
  1 <= k ->
  delayBefore options k <= delayBefore options (k + 1)
  /\ delayBefore options (k + 1)
     <= orDefault (maxDelay options) Constants.MAX_DELAY
  /\ delayBefore options 1
     = Z.min (orDefault (initialDelay options) Constants.INITIAL_DELAY)
             (orDefault (maxDelay options) Constants.MAX_DELAY).
Proof.
  intros Hi Hm Hk. unfold delayBefore.
  set (i := orDefault (initialDelay options) _) in *.
  set (m := orDefault (backoffMultiplier options) _) in *.
  set (cap := orDefault (maxDelay options) _).
  repeat split.
  - apply Z.min_le_compat_r. apply Z.mul_le_mono_nonneg_l; trivial.
    apply Z.pow_le_mono_r; lia.
  - apply Z.le_min_r.
  - replace (1 - 1) with 0 by lia. now rewrite Z.pow_0_r, Z.mul_1_r.
Qed.

Lemma backoff_delays_grow_to_cap_witness :
  delayBefore noOptions 4 <= delayBefore noOptions (4 + 1)
  /\ delayBefore noOptions (4 + 1) <= 10000
  /\ delayBefore noOptions 1 = Z.min 1000 10000.
Proof.
  apply (backoff_delays_grow_to_cap noOptions 4); vm_compute; discriminate.
Defined.

(** ** Strings: split and join *)

Lemma split_nonempty sep s : split sep s <> [].
Proof.
  destruct s as [|c r]; simpl; [discriminate|].
  destruct (Ascii.eqb c sep); [discriminate|].
  destruct (split sep r); discriminate.
Qed.

Lemma concat_cons sep x l :
  l <> [] -> String.concat sep (x :: l) = x ++ sep ++ String.concat sep l.
Proof. destruct l; [congruence | reflexivity]. Qed.

(** Joining what [split] returns gives the string back. *)
Lemma join_split sep s : join (String sep "") (split sep s) = s.
Proof.
  unfold join. induction s as [|c r IH]; trivial.
  simpl split. destruct (Ascii.eqb_spec c sep) as [->|Hne].
  - rewrite concat_cons by apply split_nonempty. simpl. now rewrite IH.
  - pose proof (split_nonempty sep r) as Hr.
    destruct (split sep r) as [|h t]; [congruence|].
    destruct t as [|h' t'].
    + simpl in *. now rewrite IH.
    + rewrite concat_cons by discriminate.
      rewrite concat_cons in IH by discriminate.
      rewrite <- IH. reflexivity.
Qed.

Definition notChar (sep c : ascii) : bool := negb (Ascii.eqb c sep).

Lemma split_segments sep s :
  Forall (fun seg => forallS (notChar sep) seg = true) (split sep s).
Proof.
  induction s as [|c r IH]; simpl; [now repeat constructor|].
  destruct (Ascii.eqb c sep) eqn:E; [now constructor|].
  destruct (split sep r) as [|h t]; [now repeat constructor; simpl; unfold notChar; rewrite E|].
  inversion IH; subst. constructor; trivial.
  simpl. unfold notChar at 1. now rewrite E.
Qed.

Lemma append_assoc (a b c : string) : (a ++ b) ++ c = a ++ b ++ c.
Proof. induction a as [|x a IH]; simpl; [reflexivity | now rewrite IH]. Qed.

Lemma append_empty_r (a : string) : a ++ "" = a.
Proof. induction a as [|x a IH]; simpl; [reflexivity | now rewrite IH]. Qed.


Lemma concat_last_suffix sep l :
  l <> [] -> exists pre, String.concat sep l = pre ++ List.last l "".
Proof.
  induction l as [|x l IH]; [congruence|]. intros _.
  destruct l as [|y l].
  - now exists "".
  - destruct IH as (pre & Hpre); [discriminate|].
    exists (x ++ sep ++ pre).
    rewrite concat_cons by discriminate. rewrite Hpre.
    now rewrite !append_assoc.
Qed.

(** ** The command encoder *)

Lemma showZ_injective a b : showZ a = showZ b -> a = b.
Proof.
  unfold showZ. intros H.
  assert (Hs : forall z, NilZero.int_of_string (NilZero.string_of_int (Z.to_int z))
                         = Some (Z.to_int z)).
  { intros z. apply NilZero.isi; destruct z; simpl; try discriminate;
      intros [= E]; now apply DecimalPos.Unsigned.to_uint_nonnil in E. }
  apply DecimalZ.to_int_inj.
  pose proof (Hs a) as Ha. rewrite H, Hs in Ha. congruence.
Qed.

(** A run of encoder calls on one instance. *)
Fixpoint encodeAll (calls : list EncoderCall) : method (list AnyCommand) :=
  fun this =>
    match calls with
    | [] => ([], this)
    | call :: rest =>
        let '(command, this') := encode call this in
        let '(commands, this'') := encodeAll rest this' in
        (command :: commands, this'')
    end.

Lemma encode_id call this :
  MqttHelper.commandSeqIdOf (fst (encode call this))
  = Some (showZ (sequenceId this))
  /\ sequenceId (snd (encode call this)) = sequenceId this + 1.
Proof. destruct call; split; reflexivity. Qed.

Lemma encodeAll_ids calls : forall this,
  map MqttHelper.commandSeqIdOf (fst (encodeAll calls this))
  = map (fun k => Some (showZ (sequenceId this + Z.of_nat k)))
        (seq 0 (List.length calls))
  /\ sequenceId (snd (encodeAll calls this))
     = sequenceId this + Z.of_nat (List.length calls).
Proof.
  induction calls as [|call rest IH]; intros this.
  - simpl. split; [reflexivity | lia].
  - cbn [encodeAll].
    destruct (encode_id call this) as (H1 & H3).
    destruct (encode call this) as [command this'] eqn:E. cbn [fst snd] in *.
    destruct (IH this') as [H4 H5].
    destruct (encodeAll rest this') as [commands this'']. cbn [fst snd] in *.
    split.
    + cbn [map List.length seq]. rewrite H1, H4, <- seq_shift, map_map.
      f_equal; [do 2 f_equal; lia|].
      apply map_ext. intros k. do 2 f_equal. lia.
    + rewrite H5, H3. cbn [List.length]. lia.
Qed.

(** X10. Correlation identifiers are unique within a session: the commands
    built by successive calls on one encoder instance, of whatever kind,
    carry the decimal texts of consecutive counter values, so no two of
    them share a sequence id; the counter ends advanced by the number of
    calls. *)
Theorem sequence_ids_distinct (calls : list EncoderCall) (this : BambuLabCommands) :
  map MqttHelper.commandSeqIdOf (fst (encodeAll calls this))
  = map (fun k => Some (showZ (sequenceId this + Z.of_nat k)))
        (seq 0 (List.length calls))
  /\ NoDup (map MqttHelper.commandSeqIdOf (fst (encodeAll calls this)))
  /\ sequenceId (snd (encodeAll calls this))
     = sequenceId this + Z.of_nat (List.length calls).
Proof.
  destruct (encodeAll_ids calls this) as [Hids Hnext].
  repeat split; trivial.
  rewrite Hids. apply Finite.Injective_map_NoDup; [|apply seq_NoDup].
  intros a b [= E]. apply showZ_injective in E. lia.
Qed.

(** X11. [setSpeed] never sends a speed outside 50..166: the [param] of the
    command is the decimal text of the requested speed clamped into that
    range (the speed itself when it lies within, 50 below, 166 above). *)
Theorem setSpeed_clamps (speed : Z) (this : BambuLabCommands) :
  exists sent,
    fst (setSpeed speed this)
    = SystemCommand
        (Some {| System.sequence_id := showZ (sequenceId this);
                 System.command := "print_speed";
                 System.param := Some (showZ sent);
                 System.led_node := None; System.led_mode := None;
                 System.led_on_time := None; System.led_off_time := None |})
    /\ 50 <= sent <= 166
    /\ sent = (if speed <? 50 then 50 else if 166 <? speed then 166 else speed)%Z.
Proof.
  exists (clamp 50 166 speed). split; [reflexivity|].
  unfold clamp.
  destruct (Z.ltb_spec speed 50), (Z.ltb_spec 166 speed); lia.
Qed.

(** X12. Fan commands: the duty value sent after [S] always lies in 0..255,
    it is 0 for any percentage up to 0 and 255 from 100 on, and a higher
    percentage never gives a lower duty. *)
Theorem fanDuty_range_monotone (speed speed' : Z) (this : BambuLabCommands) :
  speed <= speed' ->
  0 <= fanDuty speed <= fanDuty speed' /\ fanDuty speed' <= 255
  /\ fanDuty (Z.min speed 0) = 0 /\ fanDuty (Z.max speed 100) = 255
  /\ fst (setChamberFan speed this)
     = GcodeLineCommand
         {| GcodeLine.sequence_id := showZ (sequenceId this);
            GcodeLine.command := "M106";
            GcodeLine.param := Some ("P2 S" ++ showZ (fanDuty speed)) |}
  /\ fst (setPartCoolingFan speed this)
     = GcodeLineCommand
         {| GcodeLine.sequence_id := showZ (sequenceId this);
            GcodeLine.command := "M106";
            GcodeLine.param := Some ("P3 S" ++ showZ (fanDuty speed)) |}.
Proof.
  intros Hle. unfold fanDuty, clamp. repeat split.
  - apply Z.div_pos; lia.
  - apply Z.div_le_mono; lia.
  - apply Z.lt_succ_r. apply Z.div_lt_upper_bound; lia.
  - replace (Z.max 0 (Z.min 100 (Z.min speed 0))) with 0 by lia. reflexivity.
  - replace (Z.max 0 (Z.min 100 (Z.max speed 100))) with 100 by lia. reflexivity.
Qed.

Lemma fanDuty_range_monotone_witness :
  0 <= fanDuty 30 <= fanDuty 50 /\ fanDuty 50 <= 255
  /\ fanDuty (Z.min 30 0) = 0 /\ fanDuty (Z.max 30 100) = 255
  /\ fst (setChamberFan 30 newCommands)
     = GcodeLineCommand
         {| GcodeLine.sequence_id := showZ (sequenceId newCommands);
            GcodeLine.command := "M106";
            GcodeLine.param := Some ("P2 S" ++ showZ (fanDuty 30)) |}
  /\ fst (setPartCoolingFan 30 newCommands)
     = GcodeLineCommand
         {| GcodeLine.sequence_id := showZ (sequenceId newCommands);
            GcodeLine.command := "M106";
            GcodeLine.param := Some ("P3 S" ++ showZ (fanDuty 30)) |}.
Proof.
  apply (fanDuty_range_monotone 30 50 newCommands). vm_compute. discriminate.
Defined.

Lemma prefix_append p s : String.prefix p (p ++ s) = true.
Proof.
  induction p as [|c p IH]; simpl; [now destruct s|].
  destruct (Ascii.ascii_dec c c); [exact IH | congruence].
Qed.

(** X13. [startPrint] always sends a fully qualified file reference: the
    [url] begins with [file:///] whatever the file name, a name that is
    already qualified is sent unchanged, and the command refers to the
    first plate's G-code.  The [subtask_name] is a trailing part of the file
    name and, unless it is the whole file name, contains no [/]. *)
Theorem startPrint_reference
    (fileName : string) (options : option PrintCommandOptions)
    (this : BambuLabCommands) :
  exists body url displayName,
    fst (startPrint fileName options this) = PrintCommand body
    /\ Print.command body = Print.project_file
    /\ Print.param body = Some "Metadata/plate_1.gcode"
    /\ Print.url body = Some url
    /\ startsWith url "file:///" = true
    /\ url = (if startsWith fileName "file:///" then fileName
              else "file:///sdcard/" ++ fileName)
    /\ Print.subtask_name body = Some displayName
    /\ (exists before, fileName = before ++ displayName)
    /\ (displayName = fileName
        \/ forallS (notChar "/") displayName = true).
Proof.
  do 3 eexists. split; [reflexivity|]. cbn [Print.command Print.param Print.url
    Print.subtask_name]. repeat split.
  - destruct (startsWith fileName "file:///") eqn:E; [exact E|].
    apply (prefix_append "file:///" ("sdcard/" ++ fileName)).
  - unfold orElse.
    destruct (concat_last_suffix "/" (split "/" fileName) (split_nonempty _ _))
      as (pre & Hpre).
    change (String.concat "/" (split "/" fileName))
      with (join "/" (split "/" fileName)) in Hpre.
    rewrite join_split in Hpre.
    destruct (List.last (split "/" fileName) "") eqn:E.
    + now exists "".
    + now exists pre.
  - unfold orElse.
    pose proof (split_segments "/" fileName) as Hseg.
    destruct (List.last (split "/" fileName) "") eqn:E; [now left|].
    right. rewrite <- E.
    assert (Hin : In (List.last (split "/" fileName) "") (split "/" fileName)).
    { destruct (exists_last (split_nonempty "/" fileName)) as (l & seg & ->).
      rewrite last_last. apply in_or_app. right. now left. }
    rewrite Forall_forall in Hseg. now apply Hseg.
Qed.

(** ** The G-code header scan *)

Lemma elementOr_nonempty arr i fallback :
  fallback <> "" -> elementOr arr i fallback <> "".
Proof.
  intros Hf. unfold elementOr, orElse.
  destruct (if i <? 0 then None else nth_error arr (Z.to_nat i))%Z as [[|c r]|];
    trivial; discriminate.
Qed.

Lemma buildProfiles_wellformed f slots : forall ps dm,
  Forall slotInRange slots ->
  buildProfiles f slots = inr (ps, dm) ->
  dm = map trayId ps
  /\ map slotNumber ps = slots
  /\ Forall (fun p =>
               1 <= slotNumber p <= 4
               /\ trayId p = slotNumber p - 1
               /\ index p = slotNumber p - 1
               /\ index p < Z.of_nat (List.length (filamentTypes f))
               /\ type p = elementOr (filamentTypes f) (index p) "UNKNOWN"
               /\ colour p = elementOr (filamentColours f) (index p) "#FFFFFF"
               /\ name p = elementOr (filamentNames f) (index p) "Unknown Profile")
            ps.
Proof.
  induction slots as [|s rest IH]; simpl; intros ps dm Hr.
  - intros [= <- <-]. now repeat split.
  - inversion Hr as [|? ? Hs Hrest]; subst.
    destruct (Z.geb_spec (s - 1) (Z.of_nat (List.length (filamentTypes f))));
      [discriminate|].
    destruct (buildProfiles f rest) as [e|[ps' dm']]; simpl; [discriminate|].
    intros [= <- <-]. destruct (IH _ _ Hrest eq_refl) as (H1 & H2 & H3).
    simpl. rewrite H1, H2. repeat split; trivial.
    constructor; trivial. simpl. unfold slotInRange in Hs. repeat split; lia.
Qed.

(** X14. What a successful parse returns is well formed: at least one
    profile, one per used slot; every profile has a slot number in 1..4, a
    tray id and an index equal to the slot number minus one, an index below
    [totalEmbedded], and a non-empty type, colour and name;
    [detectedMapping] lists the profiles' tray ids in order. *)
Theorem parseGcodeHeader_wellformed
    (gcodeContent : string) (data : ParsedFilamentData) :
  parseGcodeHeader gcodeContent = inr data ->
  profiles data <> []
  /\ detectedMapping data = map trayId (profiles data)
  /\ Forall (fun p =>
               1 <= slotNumber p <= 4
               /\ trayId p = slotNumber p - 1
               /\ index p = slotNumber p - 1
               /\ index p < Z.of_nat (totalEmbedded data)
               /\ type p <> "" /\ colour p <> "" /\ name p <> "")
            (profiles data).
Proof.
  unfold parseGcodeHeader.
  destruct (scanHeader noFields (headerLines gcodeContent)) as [e|f] eqn:E;
    simpl; [discriminate|].
  destruct (scanHeader_frame _ _ _ E) as (_ & _ & _ & _ & Hrange).
  specialize (Hrange (Forall_nil _)).
  destruct (slotsUsed f) as [|s0 ss] eqn:Es; [discriminate|].
  destruct (filamentTypes f) as [|t0 ts] eqn:Et; [discriminate|].
  destruct (buildProfiles f (s0 :: ss)) as [e|[ps dm]] eqn:Eb; simpl;
    [discriminate|].
  intros [= <-]. cbn [profiles detectedMapping totalEmbedded].
  destruct (buildProfiles_wellformed f _ _ _ Hrange Eb) as (H1 & H2 & H3).
  repeat split; trivial.
  - intros ->. discriminate.
  - rewrite Et in H3. eapply Forall_impl; [|exact H3].
    intros p (A1 & A2 & A3 & A4 & A5 & A6 & A7). repeat split; trivial;
      try lia.
    + rewrite A5. now apply elementOr_nonempty.
    + rewrite A6. now apply elementOr_nonempty.
    + rewrite A7. now apply elementOr_nonempty.
Qed.

Lemma parseGcodeHeader_wellformed_witness :
  profiles
    {| profiles :=
         [ {| index := 0; type := "PETG"; colour := "#515151";
              name := "Bambu PETG HF @BBL X1C"; slotNumber := 1; trayId := 0 |};
           {| index := 1; type := "PETG"; colour := "#000000";
              name := "Bambu PETG HF @BBL X1C"; slotNumber := 2; trayId := 1 |} ];
       detectedMapping := [0; 1];
       totalEmbedded := 5 |} <> []
  /\ [0; 1] = map trayId
       [ {| index := 0; type := "PETG"; colour := "#515151";
            name := "Bambu PETG HF @BBL X1C"; slotNumber := 1; trayId := 0 |};
         {| index := 1; type := "PETG"; colour := "#000000";
            name := "Bambu PETG HF @BBL X1C"; slotNumber := 2; trayId := 1 |} ]
  /\ Forall (fun p =>
               1 <= slotNumber p <= 4
               /\ trayId p = slotNumber p - 1
               /\ index p = slotNumber p - 1
               /\ index p < Z.of_nat 5
               /\ type p <> "" /\ colour p <> "" /\ name p <> "")
       [ {| index := 0; type := "PETG"; colour := "#515151";
            name := "Bambu PETG HF @BBL X1C"; slotNumber := 1; trayId := 0 |};
         {| index := 1; type := "PETG"; colour := "#000000";
            name := "Bambu PETG HF @BBL X1C"; slotNumber := 2; trayId := 1 |} ].
Proof.
  apply (parseGcodeHeader_wellformed twoColourGcode). reflexivity.
Defined.

Lemma split_append sep a b :
  split sep (a ++ String sep b) = (split sep a ++ split sep b)%list.
Proof.
  induction a as [|c a IH]; simpl.
  - now rewrite Ascii.eqb_refl.
  - destruct (Ascii.eqb c sep); [now rewrite IH|].
    rewrite IH. pose proof (split_nonempty sep a) as Hne.
    now destruct (split sep a).
Qed.

(** X15. Only the first 500 lines are scanned: once the text has 500 lines,
    whatever follows a further line break (more directives, invalid slot
    numbers, the G-code itself) has no influence on the result. *)
Theorem parseGcodeHeader_first_500_lines (head rest : string) :
  (500 <= List.length (split newline head))%nat ->
  parseGcodeHeader (head ++ String newline rest) = parseGcodeHeader head.
Proof.
  intros Hlen. unfold parseGcodeHeader, headerLines.
  rewrite split_append, firstn_app.
  replace (500 - List.length (split newline head))%nat with 0%nat by lia.
  now rewrite firstn_O, app_nil_r.
Qed.

(** A header followed by 500 lines of G-code. *)
Definition longGcode : string :=
  unlines (["; filament: 2"; "; filament_type = PLA;PETG"]
             ++ repeat "G1 X10 Y10 E0.5" 500)%list.

Lemma parseGcodeHeader_first_500_lines_witness :
  parseGcodeHeader (longGcode ++ String newline "; filament: 9")
  = parseGcodeHeader longGcode.
Proof.
  apply (parseGcodeHeader_first_500_lines longGcode "; filament: 9").
  vm_compute. repeat constructor.
Defined.

(** X16. A header without a slot-usage directive, or without a type
    directive, is never accepted; without a slot-usage directive the error
    is the slot-line-not-found one. *)
Theorem parseGcodeHeader_missing_directive (gcodeContent : string) :
  lacks "filament:" (headerLines gcodeContent) = true
  \/ lacks "filament_type =" (headerLines gcodeContent) = true ->
  exists e,
    parseGcodeHeader gcodeContent = inl e
    /\ (lacks "filament:" (headerLines gcodeContent) = true ->
        e = slotLineNotFound).
Proof.
  unfold lacks, parseGcodeHeader. intros H.
  destruct (scanHeader noFields (headerLines gcodeContent)) as [e|f] eqn:E.
  - exists e. split; trivial. intros Hs.
    destruct (scanHeader_no_slot_directive _ noFields Hs) as (f' & Hf').
    congruence.
  - destruct (scanHeader_frame _ _ _ E) as (Hslots & Htypes & _).
    simpl. destruct (slotsUsed f) as [|s0 ss] eqn:Es.
    + exists slotLineNotFound. now split.
    + destruct H as [H|H].
      * specialize (Hslots H). discriminate.
      * rewrite (Htypes H). simpl. exists typeLineNotFound. split; trivial.
        intros Hs. specialize (Hslots Hs). discriminate.
Qed.

Lemma parseGcodeHeader_missing_directive_witness :
  exists e,
    parseGcodeHeader (unlines ["; filament: 1,2"; "; filament_colour = #515151"])
    = inl e
    /\ (lacks "filament:"
          (headerLines (unlines ["; filament: 1,2"; "; filament_colour = #515151"]))
        = true -> e = slotLineNotFound).
Proof.
  apply (parseGcodeHeader_missing_directive
           (unlines ["; filament: 1,2"; "; filament_colour = #515151"])).
  right. reflexivity.
Defined.

(** X17. Defaults: in a successful parse, when the header has no colour
    directive every returned profile is white ([#FFFFFF]), and when it has
    no settings-id directive every returned profile is named
    [Unknown Profile]. *)
Theorem parseGcodeHeader_defaults
    (gcodeContent : string) (data : ParsedFilamentData) :
  parseGcodeHeader gcodeContent = inr data ->
  (lacks "filament_colour =" (headerLines gcodeContent) = true ->
   Forall (fun p => colour p = "#FFFFFF") (profiles data))
  /\ (lacks "filament_settings_id =" (headerLines gcodeContent) = true ->
      Forall (fun p => name p = "Unknown Profile") (profiles data)).
Proof.
  unfold lacks, parseGcodeHeader.
  destruct (scanHeader noFields (headerLines gcodeContent)) as [e|f] eqn:E;
    simpl; [discriminate|].
  destruct (scanHeader_frame _ _ _ E) as (_ & _ & Hcol & Hnam & Hrange).
  specialize (Hrange (Forall_nil _)).
  destruct (slotsUsed f) as [|s0 ss] eqn:Es; [discriminate|].
  destruct (filamentTypes f) as [|t0 ts] eqn:Et; [discriminate|].
  destruct (buildProfiles f (s0 :: ss)) as [e|[ps dm]] eqn:Eb; simpl;
    [discriminate|].
  intros [= <-]. cbn [profiles].
  destruct (buildProfiles_wellformed f _ _ _ Hrange Eb) as (_ & _ & H3).
  split; intros Hn; eapply Forall_impl; try exact H3;
    intros p (_ & _ & _ & _ & _ & A6 & A7).
  - rewrite A6, (Hcol Hn). unfold elementOr. simpl.
    destruct (index p <? 0)%Z; trivial. now destruct (Z.to_nat (index p)).
  - rewrite A7, (Hnam Hn). unfold elementOr. simpl.
    destruct (index p <? 0)%Z; trivial. now destruct (Z.to_nat (index p)).
Qed.

Lemma parseGcodeHeader_defaults_witness :
  Forall (fun p => colour p = "#FFFFFF")
    [ {| index := 0; type := "PLA"; colour := "#FFFFFF";
         name := "Unknown Profile"; slotNumber := 1; trayId := 0 |} ]
  /\ Forall (fun p => name p = "Unknown Profile")
       [ {| index := 0; type := "PLA"; colour := "#FFFFFF";
            name := "Unknown Profile"; slotNumber := 1; trayId := 0 |} ].
Proof.
  destruct (parseGcodeHeader_defaults
              (unlines ["; filament: 1"; "; filament_type = PLA"])
              {| profiles :=
                   [ {| index := 0; type := "PLA"; colour := "#FFFFFF";
                        name := "Unknown Profile"; slotNumber := 1; trayId := 0 |} ];
                 detectedMapping := [0]; totalEmbedded := 1 |} eq_refl)
    as [Hc Hn].
  split; [apply Hc | apply Hn]; reflexivity.
Defined.

(** ** The matcher: strictness and completeness *)

(** X18. Strict matching: in every result with an AMS detected, each match
    entry reports the type and colour of a tray the status lists, and these
    agree with the profile's declared type and colour after normalization;
    [totalSlots] is the number of trays listed. *)
Theorem matchProfilesToAMS_strict
    (profiles : list FilamentProfile) (status : PrinterStatus)
    (r : FilamentMatchResult) :
  matchProfilesToAMS profiles status = inr r ->
  amsDetected r = true ->
  totalSlots r = List.length (loadedTrays status)
  /\ Forall (fun m =>
               normalizeType (currentType m) = normalizeType (m_type m)
               /\ normalizeColor (currentColor m) = normalizeColor (m_colour m)
               /\ exists t, In t (loadedTrays status)
                            /\ currentType m = orElse (tray_type t) ""
                            /\ currentColor m = orElse (tray_color t) "")
            (matches r).
Proof.
  destruct (matchProfilesToAMS_cases profiles status) as [[_ ->] | [Hne ->]].
  - intros [= <-]. discriminate.
  - destruct (matchLoop (loadedTrays status) profiles) as [e|[mp ms]] eqn:E;
      simpl; [discriminate|].
    intros [= <-] _. simpl. split; trivial.
    destruct (matchLoop_ok _ _ _ _ E) as (_ & _ & Hall).
    eapply Forall_impl; [|exact Hall]. intros m Hm. cbv beta in Hm.
    destruct (findExactMatch_Some _ _ _ Hm) as (b & t & a & Hl & _ & Ht & Hs).
    unfold trayMatches in Ht. apply andb_true_iff in Ht as [Hty Hco].
    apply String.eqb_eq in Hty, Hco.
    rewrite Hs in *. simpl in *. rewrite Hs in Hty, Hco. simpl in Hty, Hco.
    repeat split; trivial.
    exists t. rewrite Hl. split; [|now split].
    apply in_or_app. right. now left.
Qed.

Lemma matchProfilesToAMS_strict_witness :
  totalSlots twoTraysResult = List.length (loadedTrays (statusWithTrays twoTrays))
  /\ Forall (fun m =>
               normalizeType (currentType m) = normalizeType (m_type m)
               /\ normalizeColor (currentColor m) = normalizeColor (m_colour m)
               /\ exists t, In t (loadedTrays (statusWithTrays twoTrays))
                            /\ currentType m = orElse (tray_type t) ""
                            /\ currentColor m = orElse (tray_color t) "")
            (matches twoTraysResult).
Proof.
  apply (matchProfilesToAMS_strict [redPLA; blackPETG]
           (statusWithTrays twoTrays) twoTraysResult); reflexivity.
Defined.

Lemma findExactMatch_None p trays :
  findExactMatch p trays = None <-> existsb (trayMatches p) trays = false.
Proof.
  induction trays as [|t rest IH]; simpl; [now split|].
  destruct (trayMatches p t); simpl; [split; discriminate | exact IH].
Qed.

(** X19. With at least one tray listed, the matcher succeeds exactly when
    every profile has a tray of the same normalized type and colour; it
    fails as soon as one profile has none. *)
Theorem matchProfilesToAMS_succeeds_iff
    (profiles : list FilamentProfile) (status : PrinterStatus) :
  loadedTrays status <> [] ->
  (exists r, matchProfilesToAMS profiles status = inr r)
  <-> forallb (fun p => existsb (trayMatches p) (loadedTrays status)) profiles
      = true.
Proof.
  intros Hne.
  destruct (matchProfilesToAMS_cases profiles status) as [[Hnil _] | [_ ->]];
    [contradiction|].
  set (trays := loadedTrays status). clearbody trays. clear Hne.
  assert (H : (exists res, matchLoop trays profiles = inr res)
              <-> forallb (fun p => existsb (trayMatches p) trays) profiles = true).
  { induction profiles as [|p rest IH]; simpl; [split; eauto|].
    destruct (findExactMatch p trays) as [m|] eqn:E.
    - assert (Hex : existsb (trayMatches p) trays = true).
      { destruct (existsb (trayMatches p) trays) eqn:Ex; trivial.
        apply findExactMatch_None in Ex. congruence. }
      rewrite Hex. simpl. rewrite <- IH.
      destruct (matchLoop trays rest) as [e|[mp ms]]; simpl.
      + split; intros [res Hres]; discriminate.
      + split; intros _; eauto.
    - apply findExactMatch_None in E. rewrite E. simpl.
      split; [intros [res Hres] |]; discriminate. }
  rewrite <- H.
  destruct (matchLoop trays profiles) as [e|[mp ms]]; simpl.
  - split; intros [res Hres]; discriminate.
  - split; intros _; eauto.
Qed.

Lemma matchProfilesToAMS_succeeds_iff_witness :
  (exists r, matchProfilesToAMS [redPLA; blackPETG] (statusWithTrays twoTrays)
             = inr r)
  <-> forallb (fun p => existsb (trayMatches p)
                          (loadedTrays (statusWithTrays twoTrays)))
              [redPLA; blackPETG] = true.
Proof.
  apply (matchProfilesToAMS_succeeds_iff [redPLA; blackPETG]
           (statusWithTrays twoTrays)).
  discriminate.
Defined.

(** ** Normalization *)

Lemma toUpperChar_white c : isWhiteSpace (toUpperChar c) = isWhiteSpace c.
Proof. each_ascii c. Qed.

Lemma trimStart_toUpperCase s :
  trimStart (toUpperCase s) = toUpperCase (trimStart s).
Proof.
  induction s as [|c r IH]; simpl; trivial.
  rewrite toUpperChar_white. now destruct (isWhiteSpace c).
Qed.

Lemma trimEnd_toUpperCase s :
  trimEnd (toUpperCase s) = toUpperCase (trimEnd s).
Proof.
  induction s as [|c r IH]; simpl; trivial.
  rewrite IH, toUpperChar_white.
  destruct (trimEnd r); simpl; trivial. now destruct (isWhiteSpace c).
Qed.

Definition headNotWhite (s : string) : bool :=
  match s with
  | EmptyString => true
  | String c _ => negb (isWhiteSpace c)
  end.

Lemma trimStart_head s : headNotWhite (trimStart s) = true.
Proof.
  induction s as [|c r IH]; simpl; trivial.
  destruct (isWhiteSpace c) eqn:E; trivial. simpl. now rewrite E.
Qed.

Lemma trimStart_fixed s : headNotWhite s = true -> trimStart s = s.
Proof. destruct s as [|c r]; simpl; trivial. now destruct (isWhiteSpace c). Qed.

Lemma trimEnd_head s : headNotWhite s = true -> headNotWhite (trimEnd s) = true.
Proof.
  destruct s as [|c r]; simpl; trivial. intros H.
  destruct (trimEnd r); simpl; trivial.
  destruct (isWhiteSpace c) eqn:Ec; [discriminate | simpl; now rewrite Ec].
Qed.

Lemma trimEnd_idempotent s : trimEnd (trimEnd s) = trimEnd s.
Proof.
  induction s as [|c r IH]; simpl; trivial.
  destruct (trimEnd r) as [|d r'] eqn:E.
  - destruct (isWhiteSpace c) eqn:Ec; simpl; trivial. now rewrite Ec.
  - change (trimEnd (String c (String d r')) = String c (String d r')).
    cbn [trimEnd] in IH |- *. now rewrite IH.
Qed.

Lemma trim_idempotent s : trim (trim s) = trim s.
Proof.
  unfold trim.
  rewrite (trimStart_fixed (trimEnd (trimStart s))).
  - apply trimEnd_idempotent.
  - apply trimEnd_head, trimStart_head.
Qed.

(** X20. Type normalization is idempotent on every string, and matching on
    the type ignores case and surrounding white space: a type and its
    normalized form normalize alike. *)
Theorem normalizeType_idempotent (type : string) :
  normalizeType (normalizeType type) = normalizeType type.
Proof.
  unfold normalizeType, trim.
  rewrite trimStart_toUpperCase, trimEnd_toUpperCase.
  fold (trim (trimEnd (trimStart type))). fold (trim type).
  rewrite trim_idempotent.
  apply toUpperCase_fixed, toUpperCase_upperFixed.
Qed.








(** ** Path and filename sanitization *)

Section Sanitization.
Import PathValidator.

(** On a path without percent escapes that is already in normal form the
    two library calls return their argument. *)
Definition plainDecode (s : string) : option string := Some s.
Definition alreadyNormal (s : string) : string := s.

Example sanitizeFilename_examples :
  sanitizeFilename "model.3mf" = inr "model.3mf"
  /\ sanitizeFilename "dir/file.3mf" = inl separatorsNotAllowed
  /\ sanitizeFilename ".." = inl (invalidFilename "..")
  /\ sanitizeFilename ".hidden" = inl hiddenFilename
  /\ sanitizeFilename "a:b" = inl invalidCharacters
  /\ sanitizeFilename "" = inl "Filename must be a non-empty string".
Proof. repeat split. Qed.

Example sanitizePath_examples :
  sanitizePath plainDecode alreadyNormal "/sdcard/model.3mf"
  = inr "/sdcard/model.3mf"
  /\ sanitizePath plainDecode alreadyNormal "/etc/passwd"
     = inl (systemDirectory "/etc")
  /\ sanitizePath plainDecode alreadyNormal "/ETC/PASSWD"
     = inl (systemDirectory "/etc")
  /\ sanitizePath plainDecode alreadyNormal "/sdcard/.secret"
     = inl (hiddenComponent ".secret")
  /\ sanitizePath plainDecode alreadyNormal "../../shadow"
     = inl relativeTraversal.
Proof. repeat split. Qed.

Lemma existsS_false p s :
  existsS p s = false -> forallS (fun c => negb (p c)) s = true.
Proof.
  induction s as [|c r IH]; simpl; trivial.
  intros H. apply orb_false_iff in H as [Hc Hr]. now rewrite Hc, IH.
Qed.

Lemma includes_char s c :
  includes s (String c "") = false -> forallS (notChar c) s = true.
Proof.
  induction s as [|a r IH]; simpl; trivial.
  intros H. apply orb_false_iff in H as [Hp Hr].
  rewrite (IH Hr), andb_true_r. unfold notChar.
  destruct (Ascii.eqb_spec a c) as [->|]; trivial.
  destruct (Ascii.ascii_dec c c); [|congruence].
  destruct r; discriminate.
Qed.

Lemma removeNul_length s : (String.length (removeNul s) <= String.length s)%nat.
Proof.
  induction s as [|c r IH]; simpl; trivial.
  destruct (code c =? 0)%N; simpl; lia.
Qed.

Lemma removeNul_fixed s :
  forallS (fun c => negb (invalidFilenameChar c)) s = true -> removeNul s = s.
Proof.
  induction s as [|c r IH]; simpl; trivial.
  intros H. apply andb_true_iff in H as [Hc Hr]. rewrite (IH Hr).
  destruct (code c =? 0)%N eqn:E; trivial.
  apply N.eqb_eq in E. unfold invalidFilenameChar in Hc. rewrite E in Hc.
  discriminate.
Qed.

(** A filename character that is neither a separator nor in the invalid
    class. *)
Definition safeFilenameChar (c : ascii) : bool :=
  negb (Ascii.eqb c "/") && negb (Ascii.eqb c "\")
  && negb (invalidFilenameChar c).

Lemma forallS_and p q s :
  forallS p s = true -> forallS q s = true ->
  forallS (fun c => p c && q c) s = true.
Proof.
  induction s as [|c r IH]; simpl; trivial.
  intros Hp Hq. apply andb_true_iff in Hp as [Hp1 Hp2].
  apply andb_true_iff in Hq as [Hq1 Hq2]. now rewrite Hp1, Hq1, IH.
Qed.

(** The tests a returned filename has passed. *)
Lemma sanitizeFilename_checks (filename sanitized : string) :
  sanitizeFilename filename = inr sanitized ->
  sanitized = removeNul filename
  /\ (String.length filename <= MAX_FILENAME_LENGTH)%nat
  /\ includes sanitized "/" = false
  /\ includes sanitized backslash = false
  /\ existsb (String.eqb sanitized) ["."; ".."; ""] = false
  /\ startsWith sanitized "." = false
  /\ existsS invalidFilenameChar sanitized = false.
Proof.
  unfold sanitizeFilename.
  destruct (String.eqb filename ""); [discriminate|].
  destruct (Nat.ltb_spec MAX_FILENAME_LENGTH (String.length filename));
    [discriminate|].
  destruct (includes (removeNul filename) "/") eqn:E1; [discriminate|].
  destruct (includes (removeNul filename) backslash) eqn:E2; [discriminate|].
  cbn [orb].
  destruct (existsb (String.eqb (removeNul filename)) ["."; ".."; ""]) eqn:E3;
    [discriminate|].
  destruct (startsWith (removeNul filename) ".") eqn:E4; [discriminate|].
  destruct (existsS invalidFilenameChar (removeNul filename)) eqn:E5;
    [discriminate|].
  intros [= <-]. now repeat split.
Qed.

(** X22. What [sanitizeFilename] returns is the input without its NUL
    characters, and it is a plain, visible filename: not empty, at most 255
    characters, without [/] or backslash, without control or reserved
    characters, and not beginning with a dot. *)
Theorem sanitizeFilename_result (filename sanitized : string) :
  sanitizeFilename filename = inr sanitized ->
  sanitized = removeNul filename
  /\ sanitized <> ""
  /\ (String.length sanitized <= String.length filename <= 255)%nat
  /\ forallS safeFilenameChar sanitized = true
  /\ startsWith sanitized "." = false.
Proof.
  intros H.
  destruct (sanitizeFilename_checks _ _ H)
    as (Heq & Hlen & Hslash & Hback & Hspecial & Hdot & Hchars).
  repeat split; trivial.
  - intros Hempty. rewrite Hempty in Hspecial. discriminate.
  - rewrite Heq. apply removeNul_length.
  - unfold safeFilenameChar.
    apply forallS_and; [apply forallS_and|].
    + now apply (includes_char _ "/").
    + now apply (includes_char _ "\").
    + now apply existsS_false.
Qed.

Lemma sanitizeFilename_result_witness :
  "model.3mf" = removeNul "model.3mf"
  /\ "model.3mf" <> ""
  /\ (String.length "model.3mf" <= String.length "model.3mf" <= 255)%nat
  /\ forallS safeFilenameChar "model.3mf" = true
  /\ startsWith "model.3mf" "." = false.
Proof.
  apply (sanitizeFilename_result "model.3mf" "model.3mf"). reflexivity.
Defined.

(** X23. [sanitizeFilename] is idempotent: a name it returned is returned
    unchanged when sanitized again. *)
Theorem sanitizeFilename_idempotent (filename sanitized : string) :
  sanitizeFilename filename = inr sanitized ->
  sanitizeFilename sanitized = inr sanitized.
Proof.
  intros H.
  destruct (sanitizeFilename_checks _ _ H)
    as (Heq & Hlen & Hslash & Hback & Hspecial & Hdot & Hchars).
  assert (Hfix : removeNul sanitized = sanitized)
    by now apply removeNul_fixed, existsS_false.
  assert (Hshort : (String.length sanitized <= MAX_FILENAME_LENGTH)%nat).
  { rewrite Heq. pose proof (removeNul_length filename). lia. }
  unfold sanitizeFilename.
  destruct (String.eqb_spec sanitized "") as [Hempty|_].
  - rewrite Hempty in Hspecial. discriminate.
  - destruct (Nat.ltb_spec MAX_FILENAME_LENGTH (String.length sanitized));
      [lia|].
    now rewrite Hfix, Hslash, Hback, Hspecial, Hdot, Hchars.
Qed.

Lemma sanitizeFilename_idempotent_witness :
  sanitizeFilename "benchy.gcode" = inr "benchy.gcode".
Proof.
  apply (sanitizeFilename_idempotent
           (String (ascii_of_N 0) "benchy.gcode") "benchy.gcode").
  reflexivity.
Defined.

End Sanitization.

Section PathSanitization.
Import PathValidator.

Variable decodeURIComponent : string -> option string.
Variable normalize : string -> string.

Lemma checkBlocked_ok lowerPath lowerUserPath blocked :
  checkBlocked lowerPath lowerUserPath blocked = inr tt ->
  Forall (fun blockedPath =>
            startsWith lowerPath (toLowerCase blockedPath) = false
            /\ startsWith lowerUserPath (toLowerCase blockedPath) = false)
         blocked.
Proof.
  induction blocked as [|b rest IH]; simpl; [constructor|].
  destruct (startsWith lowerPath (toLowerCase b)) eqn:E1; [discriminate|].
  destruct (startsWith lowerUserPath (toLowerCase b)) eqn:E2; [discriminate|].
  intros H. constructor; [now split | now apply IH].
Qed.

Lemma checkComponents_ok components :
  checkComponents components = inr tt ->
  Forall (fun component =>
            startsWith component "." = false
            \/ hasPrintExtension component = true)
         components.
Proof.
  induction components as [|c rest IH]; simpl; [constructor|].
  destruct (startsWith c ".") eqn:Edot; simpl.
  - destruct (hasPrintExtension c) eqn:Eext; simpl; [|discriminate].
    intros H. constructor; [now right | now apply IH].
  - intros H. constructor; [now left | now apply IH].
Qed.

Lemma stripTrailingSlashes_idempotent s :
  stripTrailingSlashes (stripTrailingSlashes s) = stripTrailingSlashes s.
Proof.
  induction s as [|c r IH]; simpl; trivial.
  destruct (stripTrailingSlashes r) as [|d r'] eqn:E.
  - destruct (Ascii.eqb c "/") eqn:Ec; simpl; trivial. now rewrite Ec.
  - change (stripTrailingSlashes (String c (String d r')) = String c (String d r')).
    cbn [stripTrailingSlashes] in IH |- *. now rewrite IH.
Qed.

(** X24. Whatever the URI decoder and the path normalizer return, a path
    that [sanitizePath] lets through is safe in the following sense: the
    input was not empty and not longer than 4096 characters and contained
    neither [../] nor its backslash form; the returned path contains no
    [..] at all, has no trailing slash unless it is the root, has no
    component beginning with a dot other than one ending in [.3mf] or
    [.gcode], and, when it is absolute, does not begin with any blocked
    system directory, in any case. *)
Theorem sanitizePath_result (userPath safe : string) :
  sanitizePath decodeURIComponent normalize userPath = inr safe ->
  userPath <> ""
  /\ (String.length userPath <= 4096)%nat
  /\ includes userPath "../" = false
  /\ includes userPath ("..\") = false
  /\ includes safe ".." = false
  /\ (safe = "/" \/ stripTrailingSlashes safe = safe)
  /\ Forall (fun component =>
               startsWith component "." = false
               \/ hasPrintExtension component = true)
            (componentsOf safe)
  /\ (startsWith safe "/" = true ->
      Forall (fun blockedPath =>
                startsWith (toLowerCase safe) (toLowerCase blockedPath) = false)
             BLOCKED_PATHS).
Proof.
  unfold sanitizePath.
  destruct (String.eqb_spec userPath ""); [discriminate|].
  destruct (Nat.ltb_spec MAX_PATH_LENGTH (String.length userPath));
    [discriminate|].
  set (sanitized := decodeTwice decodeURIComponent (removeNul userPath)).
  destruct (startsWith sanitized "./" || startsWith sanitized "../"
            || includes sanitized "/../"); [discriminate|].
  set (normalized := if String.eqb (normalize sanitized) "/"
                     then normalize sanitized
                     else stripTrailingSlashes (normalize sanitized)).
  assert (Hstrip : normalized = "/" \/ stripTrailingSlashes normalized = normalized).
  { unfold normalized. destruct (String.eqb_spec (normalize sanitized) "/");
      [now left | right; apply stripTrailingSlashes_idempotent]. }
  clearbody normalized.
  destruct (includes normalized "..") eqn:Edots; [discriminate|].
  destruct (includes normalized ("\..")); [discriminate|].
  destruct (includes userPath "../") eqn:Eup; [discriminate|].
  destruct (includes userPath ("..\")) eqn:Ewin; [discriminate|].
  cbn [orb].
  destruct (startsWith normalized "/" || includes userPath backslash) eqn:Eabs.
  - destruct (checkBlocked (toLowerCase normalized) (toLowerCase userPath)
                BLOCKED_PATHS) as [e|[]] eqn:Eblocked; simpl; [discriminate|].
    destruct (checkComponents (componentsOf normalized)) as [e|[]] eqn:Ecomp;
      simpl; [discriminate|].
    intros [= <-]. repeat split; trivial.
    + now apply checkComponents_ok.
    + intros _. eapply Forall_impl; [|exact (checkBlocked_ok _ _ _ Eblocked)].
      now intros b [Hb _].
  - destruct (checkComponents (componentsOf normalized)) as [e|[]] eqn:Ecomp;
      simpl; [discriminate|].
    intros [= <-]. repeat split; trivial.
    + now apply checkComponents_ok.
    + intros Habs. rewrite Habs in Eabs. discriminate.
Qed.

End PathSanitization.

Lemma sanitizePath_result_witness :
  "/sdcard/model.3mf" <> ""
  /\ (String.length "/sdcard/model.3mf" <= 4096)%nat
  /\ includes "/sdcard/model.3mf" "../" = false
  /\ includes "/sdcard/model.3mf" ("..\") = false
  /\ includes "/sdcard/model.3mf" ".." = false
  /\ ("/sdcard/model.3mf" = "/"
      \/ PathValidator.stripTrailingSlashes "/sdcard/model.3mf"
         = "/sdcard/model.3mf")
  /\ Forall (fun component =>
               startsWith component "." = false
               \/ PathValidator.hasPrintExtension component = true)
            (PathValidator.componentsOf "/sdcard/model.3mf")
  /\ (startsWith "/sdcard/model.3mf" "/" = true ->
      Forall (fun blockedPath =>
                startsWith (PathValidator.toLowerCase "/sdcard/model.3mf")
                           (PathValidator.toLowerCase blockedPath) = false)
             PathValidator.BLOCKED_PATHS).
Proof.
  apply (sanitizePath_result plainDecode alreadyNormal
           "/sdcard/model.3mf" "/sdcard/model.3mf").
  reflexivity.
Defined.
